(** * Semantic analysis of SYCL/FPGA declaration attributes

    A shallow embedding of the attribute handlers of
    [clang/lib/Sema/SemaDeclAttr.cpp] that deal with the work-group-size
    attributes ([reqd_work_group_size], [max_work_group_size],
    [num_simd_work_items]) and with the FPGA memory attributes
    ([fpga_memory], [fpga_register], [bankwidth], [numbanks], [bank_bits]).

    A handler is a function from a declaration (with the attributes it already
    carries) to the updated declaration and the list of diagnostics emitted,
    in emission order.  An early [return] of the C++ code is the branch of a
    conditional that returns the declaration as it is at that point. *)

From Stdlib Require Import ZArith List Bool Lia Ascii.
Import ListNotations.
Open Scope Z_scope.

(** ** Expressions *)

Definition SourceLocation := nat.

(** The argument expressions the handlers distinguish.  [IntegerLiteral] is a
    non-dependent integer expression as written by the user or created by
    [IntegerLiteral::Create]; [ConstantExpr] is what
    [VerifyIntegerConstantExpression] wraps an evaluated expression into, and
    the only form [dyn_cast<ConstantExpr>] recognises.  An [APSInt] is modelled
    by its numeric value. *)
Inductive ExprKind : Type :=
| ValueDependent (param : nat)
| IntegerLiteral (v : Z)
| ConstantExpr (v : Z)
| NonConstant.

Record Expr : Type := mkExpr { getExprLoc : SourceLocation; exprKind : ExprKind }.

Definition isValueDependent (E : Expr) : bool :=
  match exprKind E with ValueDependent _ => true | _ => false end.

(** [dyn_cast<ConstantExpr>(E)] followed by [getResultAsAPSInt()]. *)
Definition asConstantExpr (E : Expr) : option Z :=
  match exprKind E with ConstantExpr v => Some v | _ => None end.

(** [E->EvaluateAsInt(Result, Context)] on a non-dependent integer expression. *)
Definition EvaluateAsInt (E : Expr) : option Z :=
  match exprKind E with
  | IntegerLiteral v | ConstantExpr v => Some v
  | _ => None
  end.

(** ** Attributes, declarations, diagnostics *)

Inductive MemoryKind : Type := MemDefault | MemMLAB | MemBlockRAM.

Inductive AttrKind : Type :=
| AT_SYCLReqdWorkGroupSize
| AT_SYCLIntelMaxWorkGroupSize
| AT_SYCLIntelNumSimdWorkItems
| AT_SYCLIntelMaxGlobalWorkDim
| AT_SYCLIntelMemory
| AT_SYCLIntelRegister
| AT_SYCLIntelBankWidth
| AT_SYCLIntelNumBanks
| AT_SYCLIntelBankBits
| AT_ReqdWorkGroupSize.

(** The semantic attribute classes with their arguments.  The Y and Z
    dimensions of [reqd_work_group_size] are optional (null when absent).
    [ReqdWorkGroupSizeAttr] is the class a [reqd_work_group_size] is turned
    into outside SYCL compilations; it holds three [uint32_t] values. *)
Inductive AttrData : Type :=
| SYCLReqdWorkGroupSizeAttr (XDim : Expr) (YDim ZDim : option Expr)
| SYCLIntelMaxWorkGroupSizeAttr (XDim YDim ZDim : Expr)
| SYCLIntelNumSimdWorkItemsAttr (Value : Expr)
| SYCLIntelMaxGlobalWorkDimAttr (Value : Expr)
| SYCLIntelMemoryAttr (Kind : MemoryKind)
| SYCLIntelRegisterAttr
| SYCLIntelBankWidthAttr (Value : Expr)
| SYCLIntelNumBanksAttr (Value : Expr)
| SYCLIntelBankBitsAttr (args : list Expr)
| ReqdWorkGroupSizeAttr (XDim YDim ZDim : Z).

Record Attr : Type := mkAttr {
  getLoc : SourceLocation;
  isImplicit : bool;
  attrData : AttrData
}.

Definition kindOf (A : AttrData) : AttrKind :=
  match A with
  | SYCLReqdWorkGroupSizeAttr _ _ _ => AT_SYCLReqdWorkGroupSize
  | SYCLIntelMaxWorkGroupSizeAttr _ _ _ => AT_SYCLIntelMaxWorkGroupSize
  | SYCLIntelNumSimdWorkItemsAttr _ => AT_SYCLIntelNumSimdWorkItems
  | SYCLIntelMaxGlobalWorkDimAttr _ => AT_SYCLIntelMaxGlobalWorkDim
  | SYCLIntelMemoryAttr _ => AT_SYCLIntelMemory
  | SYCLIntelRegisterAttr => AT_SYCLIntelRegister
  | SYCLIntelBankWidthAttr _ => AT_SYCLIntelBankWidth
  | SYCLIntelNumBanksAttr _ => AT_SYCLIntelNumBanks
  | SYCLIntelBankBitsAttr _ => AT_SYCLIntelBankBits
  | ReqdWorkGroupSizeAttr _ _ _ => AT_ReqdWorkGroupSize
  end.

Definition AttrKind_eqb (a b : AttrKind) : bool :=
  match a, b with
  | AT_SYCLReqdWorkGroupSize, AT_SYCLReqdWorkGroupSize
  | AT_SYCLIntelMaxWorkGroupSize, AT_SYCLIntelMaxWorkGroupSize
  | AT_SYCLIntelNumSimdWorkItems, AT_SYCLIntelNumSimdWorkItems
  | AT_SYCLIntelMaxGlobalWorkDim, AT_SYCLIntelMaxGlobalWorkDim
  | AT_SYCLIntelMemory, AT_SYCLIntelMemory
  | AT_SYCLIntelRegister, AT_SYCLIntelRegister
  | AT_SYCLIntelBankWidth, AT_SYCLIntelBankWidth
  | AT_SYCLIntelNumBanks, AT_SYCLIntelNumBanks
  | AT_SYCLIntelBankBits, AT_SYCLIntelBankBits
  | AT_ReqdWorkGroupSize, AT_ReqdWorkGroupSize => true
  | _, _ => false
  end.

Definition isa (K : AttrKind) (A : Attr) : bool :=
  AttrKind_eqb (kindOf (attrData A)) K.

(** The declaration kinds [CheckValidFPGAMemoryAttributesVar] and the
    handlers look at, and the properties of a variable's type and storage
    they query. *)
Inductive DeclKind : Type :=
| KFunction | KField | KVar | KParmVar | KImplicitParam | KNonTypeTemplateParm.

Record Decl : Type := mkDecl {
  getKind : DeclKind;
  typeIsDeviceGlobal : bool;
  typeIsConstQualified : bool;
  typeInOpenCLConstant : bool;
  storageIsStatic : bool;
  hasLocalStorage : bool;
  attrs : list Attr
}.

Definition setAttrs (D : Decl) (l : list Attr) : Decl :=
  mkDecl (getKind D) (typeIsDeviceGlobal D) (typeIsConstQualified D)
         (typeInOpenCLConstant D) (storageIsStatic D) (hasLocalStorage D) l.

(** [dyn_cast<VarDecl>(D)] succeeds on variables, parameters and implicit
    parameters; fields and non-type template parameters are not [VarDecl]s. *)
Definition isVarDecl (D : Decl) : bool :=
  match getKind D with
  | KVar | KParmVar | KImplicitParam => true
  | _ => false
  end.

Definition isFieldDecl (D : Decl) : bool :=
  match getKind D with KField => true | _ => false end.

(** Modelled from the spec: the attribute store of a declaration
    ([Decl::getAttr], [hasAttr], [addAttr], [dropAttr] of clang's AST library
    are not among the sources).  The decoration set is an ordered, append-mostly
    collection: [getAttr] reports the first attribute of the kind, [addAttr]
    appends, [dropAttr] removes every attribute of the kind. *)
Definition getAttr (K : AttrKind) (D : Decl) : option Attr :=
  find (isa K) (attrs D).

Definition hasAttr (K : AttrKind) (D : Decl) : bool :=
  match getAttr K D with Some _ => true | None => false end.

Definition addAttr (A : Attr) (D : Decl) : Decl :=
  setAttrs D (attrs D ++ [A]).

Definition dropAttr (K : AttrKind) (D : Decl) : Decl :=
  setAttrs D (filter (fun A => negb (isa K A)) (attrs D)).

(** All attributes of a kind, in order ([specific_attrs]). *)
Definition attrsOfKind (K : AttrKind) (D : Decl) : list Attr :=
  filter (isa K) (attrs D).

Inductive DiagID : Type :=
| err_expr_not_ice
| err_attribute_requires_positive_integer
| err_attribute_argument_not_power_of_two
| err_fpga_attribute_incorrect_variable
| warn_duplicate_attribute
| warn_duplicate_attribute_exact
| err_duplicate_attribute
| note_previous_attribute
| err_bankbits_numbanks_conflicting
| err_bankbits_non_consecutive
| err_conflicting_sycl_function_attributes
| note_conflicting_attribute
| err_sycl_x_y_z_arguments_must_be_one
| err_sycl_num_kernel_wrong_reqd_wg_size
| err_intel_fpga_memory_arg_invalid
| err_attribute_wrong_number_arguments
| err_attributes_are_not_compatible
| err_attribute_argument_n_type
| err_ice_too_large
| err_attribute_argument_is_zero.

(** What is streamed into a diagnostic: an attribute (named by its kind) or a
    [%select] index. *)
Inductive DiagArg : Type :=
| ArgAttr (K : AttrKind)
| ArgSelect (n : nat).

Record Diagnostic : Type := Diag {
  diagLoc : SourceLocation;
  diagID : DiagID;
  diagArgs : list DiagArg
}.

Definition isNote (d : Diagnostic) : bool :=
  match diagID d with
  | note_previous_attribute | note_conflicting_attribute => true
  | _ => false
  end.

(** The primary (non-note) diagnostics of a run. *)
Definition primaryDiags (ds : list Diagnostic) : list Diagnostic :=
  filter (fun d => negb (isNote d)) ds.

(** [AttributeCommonInfo]: where the attribute was written and which
    attribute it is. *)
Record AttributeCommonInfo : Type := mkCI {
  ciLoc : SourceLocation;
  ciKind : AttrKind
}.

Record Sema : Type := mkSema { SYCLIsDevice : bool; SYCLIsHost : bool }.

Definition Outcome : Type := (Decl * list Diagnostic)%type.

(** ** Arbitrary-precision integer queries *)

(** Modelled from the spec: [APInt::isPowerOf2] (llvm/ADT/APInt.h is not
    among the sources), the power-of-two range check: exactly one bit set. *)
Definition isPowerOf2 (v : Z) : bool :=
  negb (v =? 0) && (Z.land v (v - 1) =? 0).

(** [APInt::getActiveBits]: the number of bits needed to represent the
    value, zero for zero. *)
Definition getActiveBits (v : Z) : Z :=
  if v <=? 0 then 0 else Z.log2 v + 1.

(** Modelled from the spec: [APInt::ceilLogBase2] (llvm/ADT/APInt.h is not
    among the sources), computed there as the active bits of the value minus
    one.  The handlers call it on strictly positive values only. *)
Definition ceilLogBase2 (v : Z) : Z := getActiveBits (v - 1).

(** [APInt::getZExtValue]: the value as a [uint64_t]. *)
Definition getZExtValue (v : Z) : Z := v mod 2 ^ 64.

(** Conversion of a [uint64_t] to [unsigned]. *)
Definition toUnsigned (v : Z) : Z := v mod 2 ^ 32.

(** [APSInt::getExtValue]: the value as an [int64_t].  (llvm/ADT/APSInt.h is
    not among the sources: the function asserts that the value is
    representable and returns [getSExtValue()] or [getZExtValue()]; where the
    assertion is compiled out, a value of 2^63 or more comes back as the low
    64 bits read in two's complement.) *)
Definition getExtValue (v : Z) : Z := (v + 2 ^ 63) mod 2 ^ 64 - 2 ^ 63.

(** Modelled from the spec: [Sema::VerifyIntegerConstantExpression] (defined
    in SemaExpr.cpp, not among the sources).  An integer argument is evaluated
    as a compile-time constant and wrapped into a [ConstantExpr]; an
    expression that does not fold is diagnosed and the result is invalid. *)
Definition VerifyIntegerConstantExpression (E : Expr)
  : list Diagnostic + (Expr * Z) :=
  match exprKind E with
  | IntegerLiteral v | ConstantExpr v =>
      inr (mkExpr (getExprLoc E) (ConstantExpr v), v)
  | _ => inl [Diag (getExprLoc E) err_expr_not_ice []]
  end.

(** ** FPGA memory attributes *)

Definition MemoryKind_eqb (a b : MemoryKind) : bool :=
  match a, b with
  | MemDefault, MemDefault | MemMLAB, MemMLAB | MemBlockRAM, MemBlockRAM => true
  | _, _ => false
  end.

(** Checks if FPGA memory attributes apply on valid variables.
    Returns true if an error occured. *)
Definition CheckValidFPGAMemoryAttributesVar (D : Decl) : bool :=
  if isVarDecl D then
    negb (isFieldDecl D ||
          (negb (match getKind D with KImplicitParam => true | _ => false end) &&
           negb (match getKind D with KNonTypeTemplateParm => true | _ => false end) &&
           (typeIsDeviceGlobal D || typeIsConstQualified D ||
            typeInOpenCLConstant D || storageIsStatic D || hasLocalStorage D)))
  else false.

(** [SYCLIntelMemoryAttr::CreateImplicit(Context, SYCLIntelMemoryAttr::Default)] *)
Definition ImplicitDefaultMemory : Attr :=
  mkAttr 0%nat true (SYCLIntelMemoryAttr MemDefault).

(** "If the declaration does not have an [[intel::fpga_memory]] attribute,
    this creates one as an implicit attribute." *)
Definition addImplicitMemory (D : Decl) : Decl :=
  if hasAttr AT_SYCLIntelMemory D then D else addAttr ImplicitDefaultMemory D.

(** The value of a single-argument attribute when it is a [ConstantExpr]. *)
Definition getValue (A : Attr) : option Expr :=
  match attrData A with
  | SYCLIntelNumSimdWorkItemsAttr E | SYCLIntelMaxGlobalWorkDimAttr E
  | SYCLIntelBankWidthAttr E | SYCLIntelNumBanksAttr E => Some E
  | _ => None
  end.

Definition getConstantValue (A : Attr) : option Z :=
  match getValue A with Some E => asConstantExpr E | None => None end.

(** Handle the [[intel::fpga_memory]] attribute.  [Kind] is the outcome of
    the argument parsing at the head of the handler: the memory kind named by
    the (optional) string argument, or nothing when the string is invalid. *)
Definition handleSYCLIntelMemoryAttr (S : Sema) (D : Decl)
    (AL : AttributeCommonInfo) (Kind : option MemoryKind) : Outcome :=
  match Kind with
  | None => (D, [Diag (ciLoc AL) err_intel_fpga_memory_arg_invalid
                      [ArgAttr (ciKind AL)]])
  | Some Kind =>
      let finish (D : Decl) : Outcome :=
        if SYCLIsDevice S && CheckValidFPGAMemoryAttributesVar D then
          (D, [Diag (ciLoc AL) err_fpga_attribute_incorrect_variable
                    [ArgAttr (ciKind AL); ArgSelect 1]])
        else
          (addAttr (mkAttr (ciLoc AL) false (SYCLIntelMemoryAttr Kind)) D, [])
      in
      match getAttr AT_SYCLIntelMemory D with
      | Some MA =>
          if negb (isImplicit MA) then
            match attrData MA with
            | SYCLIntelMemoryAttr K' =>
                if negb (MemoryKind_eqb K' Kind)
                then (D, [Diag (ciLoc AL) warn_duplicate_attribute
                               [ArgAttr (ciKind AL)];
                          Diag (getLoc MA) note_previous_attribute []])
                else (D, [])
            | _ => (D, [])
            end
          else
            (* We are adding a user memory attribute, drop any implicit
               default. *)
            finish (dropAttr AT_SYCLIntelMemory D)
      | None => finish D
      end
  end.

(** Handle the [[intel::fpga_register]] attribute. *)
Definition handleSYCLIntelRegisterAttr (S : Sema) (D : Decl)
    (A : AttributeCommonInfo) : Outcome :=
  let rest : Outcome :=
    if SYCLIsDevice S &&
       ((match getKind D with KParmVar => true | _ => false end) ||
        CheckValidFPGAMemoryAttributesVar D)
    then (D, [Diag (ciLoc A) err_fpga_attribute_incorrect_variable
                   [ArgAttr (ciKind A); ArgSelect 0]])
    else (addAttr (mkAttr (ciLoc A) false SYCLIntelRegisterAttr) D, [])
  in
  match getAttr AT_SYCLIntelRegister D with
  | Some ExistingAttr =>
      if negb (isImplicit ExistingAttr) then
        (D, [Diag (ciLoc A) warn_duplicate_attribute_exact [ArgAttr (ciKind A)];
             Diag (getLoc ExistingAttr) note_previous_attribute []])
      else rest
  | None => rest
  end.

(** [Sema::AddSYCLIntelBankWidthAttr] *)
Definition AddSYCLIntelBankWidthAttr (S : Sema) (D : Decl)
    (CI : AttributeCommonInfo) (E : Expr) : Outcome :=
  let attach (E : Expr) : Outcome :=
    (addAttr (mkAttr (ciLoc CI) false (SYCLIntelBankWidthAttr E))
             (addImplicitMemory D), [])
  in
  if negb (isValueDependent E) then
    match VerifyIntegerConstantExpression E with
    | inl ds => (D, ds)
    | inr (E, ArgVal) =>
        (* This attribute requires a strictly positive value. *)
        if ArgVal <=? 0 then
          (D, [Diag (getExprLoc E) err_attribute_requires_positive_integer
                    [ArgAttr (ciKind CI); ArgSelect 0]])
        (* This attribute requires a single constant power of two greater
           than zero. *)
        else if negb (isPowerOf2 ArgVal) then
          (D, [Diag (getExprLoc E) err_attribute_argument_not_power_of_two
                    [ArgAttr (ciKind CI)]])
        else if SYCLIsDevice S && CheckValidFPGAMemoryAttributesVar D then
          (D, [Diag (ciLoc CI) err_fpga_attribute_incorrect_variable
                    [ArgAttr (ciKind CI); ArgSelect 1]])
        else
          (* Check to see if there's a duplicate attribute with different
             values already applied to the declaration. *)
          match getAttr AT_SYCLIntelBankWidth D with
          | Some DeclAttr =>
              match getConstantValue DeclAttr with
              | Some DeclVal =>
                  (* Drop the duplicate attribute. *)
                  (D, if negb (ArgVal =? DeclVal) then
                        [Diag (ciLoc CI) warn_duplicate_attribute
                              [ArgAttr (ciKind CI)];
                         Diag (getLoc DeclAttr) note_previous_attribute []]
                      else [])
              | None => attach E
              end
          | None => attach E
          end
    end
  else attach E.

(** [Sema::AddSYCLIntelNumBanksAttr] *)
Definition AddSYCLIntelNumBanksAttr (S : Sema) (D : Decl)
    (CI : AttributeCommonInfo) (E : Expr) : Outcome :=
  let attach (E : Expr) : Outcome :=
    let D := addImplicitMemory D in
    (* We are adding a user NumBanks attribute, drop any implicit default. *)
    let D := match getAttr AT_SYCLIntelNumBanks D with
             | Some NBA => if isImplicit NBA
                           then dropAttr AT_SYCLIntelNumBanks D else D
             | None => D
             end in
    (addAttr (mkAttr (ciLoc CI) false (SYCLIntelNumBanksAttr E)) D, [])
  in
  if negb (isValueDependent E) then
    match VerifyIntegerConstantExpression E with
    | inl ds => (D, ds)
    | inr (E, ArgVal) =>
        if ArgVal <=? 0 then
          (D, [Diag (getExprLoc E) err_attribute_requires_positive_integer
                    [ArgAttr (ciKind CI); ArgSelect 0]])
        else if negb (isPowerOf2 ArgVal) then
          (D, [Diag (getExprLoc E) err_attribute_argument_not_power_of_two
                    [ArgAttr (ciKind CI)]])
        (* Check or add the related BankBits attribute. *)
        else if match getAttr AT_SYCLIntelBankBits D with
                | Some BBA =>
                    match attrData BBA with
                    | SYCLIntelBankBitsAttr args =>
                        negb (Z.of_nat (length args) =? ceilLogBase2 ArgVal)
                    | _ => false
                    end
                | None => false
                end
        then (D, [Diag (getExprLoc E) err_bankbits_numbanks_conflicting
                       [ArgAttr (ciKind CI)]])
        else if SYCLIsDevice S && CheckValidFPGAMemoryAttributesVar D then
          (D, [Diag (ciLoc CI) err_fpga_attribute_incorrect_variable
                    [ArgAttr (ciKind CI); ArgSelect 1]])
        else
          match getAttr AT_SYCLIntelNumBanks D with
          | Some DeclAttr =>
              match getConstantValue DeclAttr with
              | Some DeclVal =>
                  (* Drop the duplicate attribute. *)
                  (D, if negb (ArgVal =? DeclVal) then
                        [Diag (ciLoc CI) warn_duplicate_attribute
                              [ArgAttr (ciKind CI)];
                         Diag (getLoc DeclAttr) note_previous_attribute []]
                      else [])
              | None => attach E
              end
          | None => attach E
          end
    end
  else attach E.

(** Give a warning for duplicate attributes, return true if duplicate. *)
Definition checkForDuplicateAttribute (K : AttrKind) (D : Decl)
    (AttrLoc : SourceLocation) : bool * list Diagnostic :=
  match getAttr K D with
  | Some A =>
      if negb (isImplicit A) then
        (true, [Diag AttrLoc warn_duplicate_attribute_exact [ArgAttr K]])
      else (false, [])
  | None => (false, [])
  end.

(** The first loop of [AddSYCLIntelBankBitsAttr]: every non-dependent
    argument must be a non-negative integer constant.  Yields the converted
    arguments, their values as pushed into the [SmallVector<int64_t>] (zero
    for a dependent argument) and whether the list is value dependent, or the
    diagnostics of the first bad argument. *)
Fixpoint convertBankBitsArgs (CI : AttributeCommonInfo) (Exprs : list Expr)
  : list Diagnostic + (list Expr * list Z * bool) :=
  match Exprs with
  | [] => inr ([], [], false)
  | E :: rest =>
      if negb (isValueDependent E) then
        match VerifyIntegerConstantExpression E with
        | inl ds => inl ds
        | inr (ICE, Value) =>
            if Value <? 0 then
              inl [Diag (getExprLoc E) err_attribute_requires_positive_integer
                        [ArgAttr (ciKind CI); ArgSelect 1]]
            else
              match convertBankBitsArgs CI rest with
              | inl ds => inl ds
              | inr (Args, Values, dep) =>
                  inr (ICE :: Args, getExtValue Value :: Values, dep)
              end
        end
      else
        match convertBankBitsArgs CI rest with
        | inl ds => inl ds
        | inr (Args, Values, _) => inr (E :: Args, 0 :: Values, true)
        end
  end.

(** The loop "Values[I + 1] != Values[I] + (ListIsAscending ? 1 : -1)".  The
    sum is an [int64_t] sum in the source: it is the exact sum unless it
    leaves the range of [int64_t], where the C++ is undefined. *)
Fixpoint stepsBy (step : Z) (Values : list Z) : bool :=
  match Values with
  | a :: (b :: _) as tl => (b =? a + step) && stepsBy step tl
  | _ => true
  end.

(** Check that the list is consecutive. *)
Definition listIsConsecutive (Values : list Z) : bool :=
  match Values with
  | v0 :: v1 :: _ => stepsBy (if v0 <? v1 then 1 else -1) Values
  | _ => true
  end.

(** [(unsigned)(1 << Args.size())] stored in a 32 bit [APInt].  The shift is
    a shift of the [int] 1: for 32 or more arguments it is undefined in C++.
    Whatever it yields, the [APInt] keeps 32 bits; the value given here for
    32 or more arguments is only known to be below 2^32, and the properties
    below that say what a handler does with the synthesized [numbanks] are
    stated for fewer than 32 arguments. *)
Definition implicitNumBanksValue (n : nat) : Z :=
  (Z.shiftl 1 (Z.of_nat n)) mod 2 ^ 32.

(** [Sema::AddSYCLIntelBankBitsAttr] *)
Definition AddSYCLIntelBankBitsAttr (S : Sema) (D : Decl)
    (CI : AttributeCommonInfo) (Exprs : list Expr) : Outcome :=
  match convertBankBitsArgs CI Exprs with
  | inl ds => (D, ds)
  | inr (Args, Values, ListIsValueDep) =>
      (* Check that the list is consecutive. *)
      if negb ListIsValueDep && (1 <? Z.of_nat (length Values)) &&
         negb (listIsConsecutive Values)
      then (D, [Diag (ciLoc CI) err_bankbits_non_consecutive
                     [ArgAttr AT_SYCLIntelBankBits]])
      else
        let finish (D : Decl) : Outcome :=
          if SYCLIsDevice S && CheckValidFPGAMemoryAttributesVar D then
            (D, [Diag (ciLoc CI) err_fpga_attribute_incorrect_variable
                      [ArgAttr (ciKind CI); ArgSelect 1]])
          else
            (addAttr (mkAttr (ciLoc CI) false (SYCLIntelBankBitsAttr Args))
                     (addImplicitMemory D), [])
        in
        (* Check or add the related numbanks attribute. *)
        match getAttr AT_SYCLIntelNumBanks D with
        | Some NBA =>
            match getValue NBA with
            | Some E =>
                if negb (isValueDependent E) then
                  match EvaluateAsInt E with
                  | Some Value =>
                      if negb (Z.of_nat (length Args) =? ceilLogBase2 Value)
                      then (D, [Diag (ciLoc CI)
                                     err_bankbits_numbanks_conflicting []])
                      else finish D
                  | None => finish D
                  end
                else finish D
            | None => finish D
            end
        | None =>
            let NBE := mkExpr 0%nat
                         (IntegerLiteral (implicitNumBanksValue (length Args))) in
            finish (addAttr (mkAttr 0%nat true (SYCLIntelNumBanksAttr NBE)) D)
        end
  end.

(** Handle the bank_bits attribute.  The result of the duplicate check is
    not used. *)
Definition handleSYCLIntelBankBitsAttr (S : Sema) (D : Decl)
    (A : AttributeCommonInfo) (args : list Expr) : Outcome :=
  let dup := checkForDuplicateAttribute AT_SYCLIntelBankBits D (ciLoc A) in
  if (length args <? 1)%nat then
    (D, snd dup ++ [Diag (ciLoc A) err_attribute_wrong_number_arguments
                         [ArgAttr (ciKind A); ArgSelect 1]])
  else
    let '(D', ds) := AddSYCLIntelBankBitsAttr S D A args in
    (D', snd dup ++ ds).

(** ** Work-group-size attributes *)

(** Returns a DupArgResult value; Same means the args have the same value,
    Different means the args do not have the same value, and Unknown means
    that the args cannot (yet) be compared. *)
Inductive DupArgResult : Type := Unknown | Same | Different.

Definition DupArgResult_eqb (a b : DupArgResult) : bool :=
  match a, b with
  | Unknown, Unknown | Same, Same | Different, Different => true
  | _, _ => false
  end.

Definition AreArgValuesIdentical (LHS RHS : option Expr) : DupArgResult :=
  match LHS, RHS with
  | None, None => Same
  | None, Some _ | Some _, None => Different
  | Some L, Some R =>
      match asConstantExpr L, asConstantExpr R with
      | Some l, Some r => if l =? r then Same else Different
      | _, _ => Unknown
      end
  end.

(** Returns true if any of the specified dimensions (X,Y,Z) differ between
    the arguments. *)
Definition AnyWorkGroupSizesDiffer (LX LY LZ RX RY RZ : option Expr) : bool :=
  existsb (DupArgResult_eqb Different)
    [AreArgValuesIdentical LX RX; AreArgValuesIdentical LY RY;
     AreArgValuesIdentical LZ RZ].

(** Returns true if all of the specified dimensions (X,Y,Z) are the same
    between the arguments. *)
Definition AllWorkGroupSizesSame (LX LY LZ RX RY RZ : option Expr) : bool :=
  forallb (DupArgResult_eqb Same)
    [AreArgValuesIdentical LX RX; AreArgValuesIdentical LY RY;
     AreArgValuesIdentical LZ RZ].

(** [dyn_cast_or_null<ConstantExpr>] *)
Definition asConstantExprOrNull (E : option Expr) : option Z :=
  match E with Some E => asConstantExpr E | None => None end.

Definition isNull {A} (p : option A) : bool :=
  match p with Some _ => false | None => true end.

(** "(!YDimExpr && YDim)": the expression is there but is not a constant. *)
Definition stillDependent (E : option Expr) : bool :=
  isNull (asConstantExprOrNull E) && negb (isNull E).

(** "(YDimExpr && YDimExpr->getResultAsAPSInt() != 1)" *)
Definition knownNotOne (v : option Z) : bool :=
  match v with Some v => negb (v =? 1) | None => false end.

(** [InvalidWorkGroupSizeAttrs]: with [max_global_work_dim(0)] all work-group
    sizes must be one. *)
Definition InvalidWorkGroupSizeAttrs (MGValue XDim : Expr)
    (YDim ZDim : option Expr) : bool :=
  match asConstantExpr MGValue, asConstantExpr XDim with
  | Some MG, Some X =>
      if stillDependent YDim || stillDependent ZDim then false
      else (MG =? 0) &&
           (negb (X =? 1) || knownNotOne (asConstantExprOrNull YDim)
                          || knownNotOne (asConstantExprOrNull ZDim))
  | _, _ => false
  end.

(** "SecondRWGDimExpr && Second->getZExtValue() > M->getZExtValue()" *)
Definition exceeds (R : option Z) (M : Z) : bool :=
  match R with
  | Some r => getZExtValue r >? getZExtValue M
  | None => false
  end.

(** [Sema::CheckMaxAllowedWorkGroupSize]: true when a required size is
    greater than the corresponding maximal size. *)
Definition CheckMaxAllowedWorkGroupSize (S : Sema)
    (RWGSXDim : Expr) (RWGSYDim RWGSZDim : option Expr)
    (MWGSXDim MWGSYDim MWGSZDim : Expr) : bool :=
  match asConstantExpr RWGSXDim, asConstantExpr MWGSXDim,
        asConstantExpr MWGSYDim, asConstantExpr MWGSZDim with
  | Some RX, Some MX, Some MY, Some MZ =>
      if stillDependent RWGSYDim || stillDependent RWGSZDim then false
      else
        let First := Some RX in
        let Second := asConstantExprOrNull RWGSYDim in
        let Third := asConstantExprOrNull RWGSZDim in
        (* SYCL reorders arguments based on the dimensionality. *)
        let '(First, Second, Third) :=
          if SYCLIsDevice S && negb (isNull RWGSYDim) then
            if negb (isNull RWGSZDim) then (Third, Second, First)
            else (Second, First, Third)
          else (First, Second, Third) in
        exceeds First MZ || exceeds Second MY || exceeds Third MX
  | _, _, _, _ => false
  end.

(** [CheckWorkGroupSize]: true when [num_simd_work_items] does not evenly
    divide the index that increments fastest in [reqd_work_group_size].  The
    size is held in an [unsigned] before the remainder is taken. *)
Definition CheckWorkGroupSize (NSWIValue RWGSXDim : Expr)
    (RWGSYDim RWGSZDim : option Expr) : bool :=
  match asConstantExpr NSWIValue, asConstantExpr RWGSXDim with
  | Some NSWI, Some RX =>
      if stillDependent RWGSYDim || stillDependent RWGSZDim then false
      else
        let Last :=
          if negb (isNull RWGSZDim) then asConstantExprOrNull RWGSZDim
          else if negb (isNull RWGSYDim) then asConstantExprOrNull RWGSYDim
          else Some RX in
        match Last with
        | Some L =>
            let WorkGroupSize := toUnsigned (getZExtValue L) in
            negb (WorkGroupSize mod getZExtValue NSWI =? 0)
        | None => false
        end
  | _, _ => false
  end.

(** The lambda [CheckAndConvertArg] of the work-group-size handlers: nothing
    when diagnosing, otherwise the original expression or the original
    expression converted to a constant expression. *)
Definition CheckAndConvertArg (CI : AttributeCommonInfo) (E : Expr)
  : option Expr * list Diagnostic :=
  if negb (isValueDependent E) then
    match VerifyIntegerConstantExpression E with
    | inl ds => (None, ds)
    | inr (E', ArgVal) =>
        (* This attribute requires a strictly positive value. *)
        if ArgVal <=? 0 then
          (None, [Diag (getExprLoc E') err_attribute_requires_positive_integer
                       [ArgAttr (ciKind CI); ArgSelect 0]])
        else (Some E', [])
    end
  else (Some E, []).

(** The same lambda where the argument may be absent (Y and Z of
    [reqd_work_group_size]). *)
Definition CheckAndConvertOptArg (CI : AttributeCommonInfo) (E : option Expr)
  : option (option Expr) * list Diagnostic :=
  match E with
  | None => (Some None, [])
  | Some E =>
      match CheckAndConvertArg CI E with
      | (Some E', ds) => (Some (Some E'), ds)
      | (None, ds) => (None, ds)
      end
  end.

(** Typed views of the attributes the cross checks read. *)
Definition getReqdDims (A : Attr) : option (Expr * option Expr * option Expr) :=
  match attrData A with
  | SYCLReqdWorkGroupSizeAttr X Y Z => Some (X, Y, Z)
  | _ => None
  end.

Definition getMaxDims (A : Attr) : option (Expr * Expr * Expr) :=
  match attrData A with
  | SYCLIntelMaxWorkGroupSizeAttr X Y Z => Some (X, Y, Z)
  | _ => None
  end.

(** [Sema::AddSYCLIntelMaxWorkGroupSizeAttr] *)
Definition AddSYCLIntelMaxWorkGroupSizeAttr (S : Sema) (D : Decl)
    (CI : AttributeCommonInfo) (XDim YDim ZDim : Expr) : Outcome :=
  (* Check all three argument values, and if any are bad, bail out. *)
  let '(XC, dsX) := CheckAndConvertArg CI XDim in
  let '(YC, dsY) := CheckAndConvertArg CI YDim in
  let '(ZC, dsZ) := CheckAndConvertArg CI ZDim in
  match XC, YC, ZC with
  | Some XDim, Some YDim, Some ZDim =>
      let reqdConflict :=
        match getAttr AT_SYCLReqdWorkGroupSize D with
        | Some DeclAttr =>
            match getReqdDims DeclAttr with
            | Some (RX, RY, RZ) =>
                if CheckMaxAllowedWorkGroupSize S RX RY RZ XDim YDim ZDim
                then Some DeclAttr else None
            | None => None
            end
        | None => None
        end in
      match reqdConflict with
      | Some DeclAttr =>
          (D, [Diag (ciLoc CI) err_conflicting_sycl_function_attributes
                    [ArgAttr (ciKind CI); ArgAttr (kindOf (attrData DeclAttr))];
               Diag (getLoc DeclAttr) note_conflicting_attribute []])
      | None =>
          let dimConflict :=
            match getAttr AT_SYCLIntelMaxGlobalWorkDim D with
            | Some DeclAttr =>
                match getValue DeclAttr with
                | Some MG =>
                    if InvalidWorkGroupSizeAttrs MG XDim (Some YDim) (Some ZDim)
                    then Some DeclAttr else None
                | None => None
                end
            | None => None
            end in
          match dimConflict with
          | Some DeclAttr =>
              (D, [Diag (ciLoc CI) err_sycl_x_y_z_arguments_must_be_one
                        [ArgAttr (ciKind CI);
                         ArgAttr (kindOf (attrData DeclAttr))]])
          | None =>
              let attach : Outcome :=
                (addAttr (mkAttr (ciLoc CI) false
                            (SYCLIntelMaxWorkGroupSizeAttr XDim YDim ZDim)) D,
                 []) in
              (* If the attribute was already applied with different
                 arguments, then diagnose the second attribute as a duplicate
                 and don't add it. *)
              match getAttr AT_SYCLIntelMaxWorkGroupSize D with
              | Some Existing =>
                  match getMaxDims Existing with
                  | Some (EX, EY, EZ) =>
                      if AnyWorkGroupSizesDiffer
                           (Some XDim) (Some YDim) (Some ZDim)
                           (Some EX) (Some EY) (Some EZ)
                      then
                        (D, [Diag (ciLoc CI) warn_duplicate_attribute
                                  [ArgAttr (ciKind CI)];
                             Diag (getLoc Existing) note_previous_attribute []])
                      else if AllWorkGroupSizesSame
                                (Some XDim) (Some YDim) (Some ZDim)
                                (Some EX) (Some EY) (Some EZ)
                      then (D, [])
                      else attach
                  | None => attach
                  end
              | None => attach
              end
          end
      end
  | _, _, _ => (D, dsX ++ dsY ++ dsZ)
  end.

(** [Sema::AddSYCLReqdWorkGroupSizeAttr] *)
Definition AddSYCLReqdWorkGroupSizeAttr (S : Sema) (D : Decl)
    (CI : AttributeCommonInfo) (XDim : Expr) (YDim ZDim : option Expr)
  : Outcome :=
  let '(XC, dsX) := CheckAndConvertArg CI XDim in
  let '(YC, dsY) := CheckAndConvertOptArg CI YDim in
  let '(ZC, dsZ) := CheckAndConvertOptArg CI ZDim in
  match XC, YC, ZC with
  | Some XDim, Some YDim, Some ZDim =>
      (* max_global_work_dim(0) wants all sizes to be one: diagnosed, and the
         handler goes on. *)
      let dsDim :=
        match getAttr AT_SYCLIntelMaxGlobalWorkDim D with
        | Some DeclAttr =>
            match getValue DeclAttr with
            | Some MG =>
                if InvalidWorkGroupSizeAttrs MG XDim YDim ZDim then
                  [Diag (ciLoc CI) err_sycl_x_y_z_arguments_must_be_one
                        [ArgAttr (ciKind CI);
                         ArgAttr (kindOf (attrData DeclAttr))]]
                else []
            | None => []
            end
        | None => []
        end in
      let maxConflict :=
        match getAttr AT_SYCLIntelMaxWorkGroupSize D with
        | Some DeclAttr =>
            match getMaxDims DeclAttr with
            | Some (MX, MY, MZ) =>
                if CheckMaxAllowedWorkGroupSize S XDim YDim ZDim MX MY MZ
                then Some DeclAttr else None
            | None => None
            end
        | None => None
        end in
      match maxConflict with
      | Some DeclAttr =>
          (D, dsDim ++
              [Diag (ciLoc CI) err_conflicting_sycl_function_attributes
                    [ArgAttr (ciKind CI); ArgAttr (kindOf (attrData DeclAttr))];
               Diag (getLoc DeclAttr) note_conflicting_attribute []])
      | None =>
          let simdConflict :=
            match getAttr AT_SYCLIntelNumSimdWorkItems D with
            | Some DeclAttr =>
                match getValue DeclAttr with
                | Some NSWI =>
                    if CheckWorkGroupSize NSWI XDim YDim ZDim
                    then Some DeclAttr else None
                | None => None
                end
            | None => None
            end in
          match simdConflict with
          | Some DeclAttr =>
              (D, dsDim ++
                  [Diag (getLoc DeclAttr) err_sycl_num_kernel_wrong_reqd_wg_size
                        [ArgAttr (kindOf (attrData DeclAttr));
                         ArgAttr (ciKind CI)];
                   Diag (ciLoc CI) note_conflicting_attribute []])
          | None =>
              let attach : Outcome :=
                (addAttr (mkAttr (ciLoc CI) false
                            (SYCLReqdWorkGroupSizeAttr XDim YDim ZDim)) D,
                 dsDim) in
              match getAttr AT_SYCLReqdWorkGroupSize D with
              | Some Existing =>
                  match getReqdDims Existing with
                  | Some (EX, EY, EZ) =>
                      if AnyWorkGroupSizesDiffer (Some XDim) YDim ZDim
                                                 (Some EX) EY EZ
                      then
                        (D, dsDim ++
                            [Diag (ciLoc CI) err_duplicate_attribute
                                  [ArgAttr (ciKind CI)];
                             Diag (getLoc Existing) note_previous_attribute []])
                      else if AllWorkGroupSizesSame (Some XDim) YDim ZDim
                                                    (Some EX) EY EZ
                      then (D, dsDim)
                      else attach
                  | None => attach
                  end
              | None => attach
              end
          end
      end
  | _, _, _ => (D, dsX ++ dsY ++ dsZ)
  end.

(** [Sema::AddSYCLIntelNumSimdWorkItemsAttr] *)
Definition AddSYCLIntelNumSimdWorkItemsAttr (S : Sema) (D : Decl)
    (CI : AttributeCommonInfo) (E : Expr) : Outcome :=
  let attach (E : Expr) : Outcome :=
    (addAttr (mkAttr (ciLoc CI) false (SYCLIntelNumSimdWorkItemsAttr E)) D, [])
  in
  if negb (isValueDependent E) then
    match VerifyIntegerConstantExpression E with
    | inl ds => (D, ds)
    | inr (E, ArgVal) =>
        if ArgVal <=? 0 then
          (D, [Diag (getExprLoc E) err_attribute_requires_positive_integer
                    [ArgAttr (ciKind CI); ArgSelect 0]])
        else
          let reqdCheck : Outcome :=
            match getAttr AT_SYCLReqdWorkGroupSize D with
            | Some DeclAttr =>
                match getReqdDims DeclAttr with
                | Some (RX, RY, RZ) =>
                    if CheckWorkGroupSize E RX RY RZ then
                      (D, [Diag (ciLoc CI) err_sycl_num_kernel_wrong_reqd_wg_size
                                [ArgAttr (ciKind CI);
                                 ArgAttr (kindOf (attrData DeclAttr))];
                           Diag (getLoc DeclAttr) note_conflicting_attribute []])
                    else attach E
                | None => attach E
                end
            | None => attach E
            end in
          match getAttr AT_SYCLIntelNumSimdWorkItems D with
          | Some DeclAttr =>
              match getConstantValue DeclAttr with
              | Some DeclVal =>
                  (* Drop the duplicate attribute. *)
                  (D, if negb (ArgVal =? DeclVal) then
                        [Diag (ciLoc CI) warn_duplicate_attribute
                              [ArgAttr (ciKind CI)];
                         Diag (getLoc DeclAttr) note_previous_attribute []]
                      else [])
              | None => reqdCheck
              end
          | None => reqdCheck
          end
    end
  else attach E.

(** ** Dispatch *)

(** A parsed attribute: where it was written and its arguments, by kind.
    The memory attribute's argument is a string, here the memory kind it
    names if any.  The kind of a parsed attribute is named after the SYCL
    attribute class; it is what a diagnostic prints as the attribute. *)
Inductive ParsedArgs : Type :=
| ReqdWorkGroupSizeArgs (args : list Expr)
| MaxWorkGroupSizeArgs (X Y Z : Expr)
| NumSimdWorkItemsArgs (E : Expr)
| MemoryArgs (Kind : option MemoryKind)
| RegisterArgs
| BankWidthArgs (E : Expr)
| NumBanksArgs (E : Expr)
| BankBitsArgs (args : list Expr).

Record ParsedAttr : Type := mkParsedAttr {
  parsedLoc : SourceLocation;
  parsedArgs : ParsedArgs
}.

Definition parsedKind (AL : ParsedAttr) : AttrKind :=
  match parsedArgs AL with
  | ReqdWorkGroupSizeArgs _ => AT_SYCLReqdWorkGroupSize
  | MaxWorkGroupSizeArgs _ _ _ => AT_SYCLIntelMaxWorkGroupSize
  | NumSimdWorkItemsArgs _ => AT_SYCLIntelNumSimdWorkItems
  | MemoryArgs _ => AT_SYCLIntelMemory
  | RegisterArgs => AT_SYCLIntelRegister
  | BankWidthArgs _ => AT_SYCLIntelBankWidth
  | NumBanksArgs _ => AT_SYCLIntelNumBanks
  | BankBitsArgs _ => AT_SYCLIntelBankBits
  end.

Definition commonInfo (AL : ParsedAttr) : AttributeCommonInfo :=
  mkCI (parsedLoc AL) (parsedKind AL).

(** [handleSYCLReqdWorkGroupSize], for the spellings that take one to three
    arguments. *)
Definition handleSYCLReqdWorkGroupSize (S : Sema) (D : Decl)
    (AL : AttributeCommonInfo) (args : list Expr) : Outcome :=
  match args with
  | [X] => AddSYCLReqdWorkGroupSizeAttr S D AL X None None
  | [X; Y] => AddSYCLReqdWorkGroupSizeAttr S D AL X (Some Y) None
  | [X; Y; Z] => AddSYCLReqdWorkGroupSizeAttr S D AL X (Some Y) (Some Z)
  | _ => (D, [Diag (ciLoc AL) err_attribute_wrong_number_arguments
                   [ArgAttr (ciKind AL)]])
  end.

(** Modelled from the spec: [Sema::checkUInt32Argument] (a member template
    declared in Sema.h, not among the sources), the Evaluator's composable
    checks on an integer argument: it must fold to a compile-time constant,
    fit in 32 bits and, when [StrictlyUnsigned], not be negative.  Yields the
    value as a [uint32_t], or nothing with the diagnostic of the check that
    failed. *)
Definition checkUInt32Argument (AL : AttributeCommonInfo) (E : Expr)
    (Idx : nat) (StrictlyUnsigned : bool) : option Z * list Diagnostic :=
  match EvaluateAsInt E with
  | None =>
      (None, [Diag (ciLoc AL) err_attribute_argument_n_type
                   [ArgAttr (ciKind AL); ArgSelect Idx]])
  | Some Val =>
      if 2 ^ 32 <=? Val then
        (None, [Diag (getExprLoc E) err_ice_too_large []])
      else if StrictlyUnsigned && (Val <? 0) then
        (None, [Diag (ciLoc AL) err_attribute_requires_positive_integer
                     [ArgAttr (ciKind AL); ArgSelect 1]])
      else (Some (toUnsigned Val), [])
  end.

(** The loop of [handleWorkGroupSize] over the arguments, from index [i] on:
    each argument must be an unsigned 32 bit constant other than zero. *)
Fixpoint checkWorkGroupSizes (AL : AttributeCommonInfo) (i : nat)
    (args : list Expr) : option (list Z) * list Diagnostic :=
  match args with
  | [] => (Some [], [])
  | E :: rest =>
      match checkUInt32Argument AL E i true with
      | (None, ds) => (None, ds)
      | (Some WGSize, _) =>
          if WGSize =? 0 then
            (None, [Diag (ciLoc AL) err_attribute_argument_is_zero
                         [ArgAttr (ciKind AL)]])
          else
            match checkWorkGroupSizes AL (Datatypes.S i) rest with
            | (None, ds) => (None, ds)
            | (Some WGSizes, ds) => (Some (WGSize :: WGSizes), ds)
            end
      end
  end.

(** [handleWorkGroupSize<ReqdWorkGroupSizeAttr>]: handles
    [reqd_work_group_size] outside SYCL compilations.  A second attribute
    with other sizes is warned about, and attached like any other. *)
Definition handleWorkGroupSize (D : Decl) (AL : AttributeCommonInfo)
    (args : list Expr) : Outcome :=
  match args with
  | [_; _; _] =>
      match checkWorkGroupSizes AL 0 args with
      | (Some [X; Y; Z], _) =>
          let ds :=
            match getAttr AT_ReqdWorkGroupSize D with
            | Some Existing =>
                match attrData Existing with
                | ReqdWorkGroupSizeAttr EX EY EZ =>
                    if negb ((EX =? X) && (EY =? Y) && (EZ =? Z)) then
                      [Diag (ciLoc AL) warn_duplicate_attribute
                            [ArgAttr (ciKind AL)]]
                    else []
                | _ => []
                end
            | None => []
            end in
          (addAttr (mkAttr (ciLoc AL) false (ReqdWorkGroupSizeAttr X Y Z)) D,
           ds)
      | (_, ds) => (D, ds)
      end
  | _ => (D, [Diag (ciLoc AL) err_attribute_wrong_number_arguments
                   [ArgAttr (ciKind AL); ArgSelect 3]])
  end.

(** A SYCL compilation, for the device or for the host. *)
Definition isSYCL (S : Sema) : bool := SYCLIsDevice S || SYCLIsHost S.

(** [handleReqdWorkGroupSize]: handle the attribute based on whether we are
    targeting SYCL or not. *)
Definition handleReqdWorkGroupSize (S : Sema) (D : Decl)
    (AL : AttributeCommonInfo) (args : list Expr) : Outcome :=
  if SYCLIsDevice S || SYCLIsHost S then handleSYCLReqdWorkGroupSize S D AL args
  else handleWorkGroupSize D AL args.

(** The semantic attribute class a parsed attribute is turned into. *)
Definition semanticKind (S : Sema) (AL : ParsedAttr) : AttrKind :=
  match parsedArgs AL with
  | ReqdWorkGroupSizeArgs _ =>
      if isSYCL S then AT_SYCLReqdWorkGroupSize else AT_ReqdWorkGroupSize
  | _ => parsedKind AL
  end.

(** The cases of the switch of [ProcessDeclAttribute] for these attributes. *)
Definition handleDeclAttribute (S : Sema) (D : Decl) (AL : ParsedAttr)
  : Outcome :=
  let CI := commonInfo AL in
  match parsedArgs AL with
  | ReqdWorkGroupSizeArgs args => handleReqdWorkGroupSize S D CI args
  | MaxWorkGroupSizeArgs X Y Z => AddSYCLIntelMaxWorkGroupSizeAttr S D CI X Y Z
  | NumSimdWorkItemsArgs E => AddSYCLIntelNumSimdWorkItemsAttr S D CI E
  | MemoryArgs Kind => handleSYCLIntelMemoryAttr S D CI Kind
  | RegisterArgs => handleSYCLIntelRegisterAttr S D CI
  | BankWidthArgs E => AddSYCLIntelBankWidthAttr S D CI E
  | NumBanksArgs E => AddSYCLIntelNumBanksAttr S D CI E
  | BankBitsArgs args => handleSYCLIntelBankBitsAttr S D CI args
  end.

(** Modelled from the spec: the mutual-exclusion part of
    [Sema::checkCommonAttributeFeatures] (generated from the attribute
    definitions, not among the sources).  It is a flat table of kinds that may
    never both be explicit on the same declaration; the handlers' comments
    name its entries: the register attribute is incompatible with the memory,
    bankwidth, numbanks and bank_bits attributes. *)
Definition mutuallyExclusiveWith (K : AttrKind) : list AttrKind :=
  match K with
  | AT_SYCLIntelRegister =>
      [AT_SYCLIntelMemory; AT_SYCLIntelBankWidth; AT_SYCLIntelNumBanks;
       AT_SYCLIntelBankBits]
  | AT_SYCLIntelMemory | AT_SYCLIntelBankWidth | AT_SYCLIntelNumBanks
  | AT_SYCLIntelBankBits => [AT_SYCLIntelRegister]
  | _ => []
  end.

(** Modelled from the spec: [Sema::checkCommonAttributeFeatures], true when
    the attribute is rejected.  A violated exclusion rule emits a diagnostic
    naming both decorations, with a note at the one already present, and the
    newly arriving decoration is dropped. *)
Definition checkCommonAttributeFeatures (D : Decl) (AL : ParsedAttr)
  : bool * list Diagnostic :=
  match find (fun A => negb (isImplicit A) &&
                       existsb (AttrKind_eqb (kindOf (attrData A)))
                               (mutuallyExclusiveWith (parsedKind AL)))
             (attrs D) with
  | Some A =>
      (true, [Diag (parsedLoc AL) err_attributes_are_not_compatible
                   [ArgAttr (parsedKind AL); ArgAttr (kindOf (attrData A))];
              Diag (getLoc A) note_conflicting_attribute []])
  | None => (false, [])
  end.

(** [ProcessDeclAttribute] for a known attribute that exists on the target
    and whose arguments need not be delayed: the common checks, then the
    handler of the kind. *)
Definition ProcessDeclAttribute (S : Sema) (D : Decl) (AL : ParsedAttr)
  : Outcome :=
  let '(rejected, ds) := checkCommonAttributeFeatures D AL in
  if rejected then (D, ds) else handleDeclAttribute S D AL.

(** ** [max_global_work_dim] *)

(** Returns a OneArgResult value; EqualToOne means all argument values are
    equal to one, NotEqualToOne means at least one argument value is not
    equal to one, and Unknown means that at least one of the argument values
    could not be determined. *)
Module OneArgResult.
Inductive t : Type := Unknown | EqualToOne | NotEqualToOne.
End OneArgResult.

(** [AreAllArgsOne]: the loop over the arguments returns at the first
    argument that is absent, not a constant, or not one. *)
Fixpoint AreAllArgsOne (Args : list (option Expr)) : OneArgResult.t :=
  match Args with
  | [] => OneArgResult.EqualToOne
  | None :: _ =>
      (* Optional arguments are considered trivially one. *)
      OneArgResult.EqualToOne
  | Some Arg :: rest =>
      match asConstantExpr Arg with
      | None => OneArgResult.Unknown
      | Some v =>
          if negb (v =? 1) then OneArgResult.NotEqualToOne
          else AreAllArgsOne rest
      end
  end.

(** The X, Y and Z dimensions of a work-group-size attribute
    ([reqd_work_group_size] or [max_work_group_size]). *)
Definition getDims (A : Attr) : option (list (option Expr)) :=
  match attrData A with
  | SYCLReqdWorkGroupSizeAttr X Y Z => Some [Some X; Y; Z]
  | SYCLIntelMaxWorkGroupSizeAttr X Y Z => Some [Some X; Some Y; Some Z]
  | _ => None
  end.

(** [checkWorkGroupSizeAttrExpr<AttrTy>]: if the declaration has an
    attribute of kind [AttrTy], check that it holds values equal to (1, 1, 1).
    Returns true if diagnosed. *)
Definition checkWorkGroupSizeAttrExpr (AttrTy : AttrKind) (D : Decl)
    (AL : AttrKind) : bool * list Diagnostic :=
  match getAttr AttrTy D with
  | Some A =>
      match getDims A with
      | Some Args =>
          match AreAllArgsOne Args with
          | OneArgResult.NotEqualToOne =>
              (true, [Diag (getLoc A) err_sycl_x_y_z_arguments_must_be_one
                           [ArgAttr (kindOf (attrData A)); ArgAttr AL]])
          | _ => (false, [])
          end
      | None => (false, [])
      end
  | None => (false, [])
  end.

(** "checkWorkGroupSizeAttrExpr<SYCLIntelMaxWorkGroupSizeAttr>(...) ||
    checkWorkGroupSizeAttrExpr<SYCLReqdWorkGroupSizeAttr>(...)": the second
    check runs only when the first did not diagnose. *)
Definition checkWorkGroupSizesAreOne (D : Decl) (AL : AttrKind)
  : bool * list Diagnostic :=
  let '(diagnosed, ds) :=
    checkWorkGroupSizeAttrExpr AT_SYCLIntelMaxWorkGroupSize D AL in
  if diagnosed then (true, ds)
  else checkWorkGroupSizeAttrExpr AT_SYCLReqdWorkGroupSize D AL.

(** The diagnostics of [max_global_work_dim]: those of the handlers above and
    the range diagnostic [err_attribute_argument_out_of_range], which comes
    with the attribute and the two bounds. *)
Inductive RangeDiagnostic : Type :=
| Plain (d : Diagnostic)
| err_attribute_argument_out_of_range
    (loc : SourceLocation) (K : AttrKind) (lo hi : Z).

(** [Sema::AddSYCLIntelMaxGlobalWorkDimAttr] *)
Definition AddSYCLIntelMaxGlobalWorkDimAttr (D : Decl)
    (CI : AttributeCommonInfo) (E : Expr) : Decl * list RangeDiagnostic :=
  let attach (E : Expr) : Decl * list RangeDiagnostic :=
    (addAttr (mkAttr (ciLoc CI) false (SYCLIntelMaxGlobalWorkDimAttr E)) D, [])
  in
  if negb (isValueDependent E) then
    match VerifyIntegerConstantExpression E with
    | inl ds => (D, map Plain ds)
    | inr (E, ArgVal) =>
        (* This attribute must be in the range [0, 3]. *)
        if (ArgVal <? 0) || (ArgVal >? 3) then
          (D, [err_attribute_argument_out_of_range
                 (getExprLoc E) (ciKind CI) 0 3])
        else
          let sizes : Decl * list RangeDiagnostic :=
            (* If the declaration has a max_work_group_size or
               reqd_work_group_size attribute, check that it holds values
               equal to (1, 1, 1) in case the value equals 0. *)
            if ArgVal =? 0 then
              let '(diagnosed, ds) := checkWorkGroupSizesAreOne D (ciKind CI) in
              if diagnosed then (D, map Plain ds) else attach E
            else attach E
          in
          (* Check to see if there's a duplicate attribute with different
             values already applied to the declaration. *)
          match getAttr AT_SYCLIntelMaxGlobalWorkDim D with
          | Some DeclAttr =>
              match getConstantValue DeclAttr with
              | Some DeclVal =>
                  (* Drop the duplicate attribute. *)
                  (D, if negb (ArgVal =? DeclVal) then
                        [Plain (Diag (ciLoc CI) warn_duplicate_attribute
                                     [ArgAttr (ciKind CI)]);
                         Plain (Diag (getLoc DeclAttr)
                                     note_previous_attribute [])]
                      else [])
              | None => sizes
              end
          | None => sizes
          end
    end
  else attach E.

(** ** Template instantiation *)

(** The value a template argument list gives to each parameter. *)
Definition Substitution := nat -> Z.

(** The argument once it "became concrete": a reference to a template
    parameter is replaced by its value, at the same place. *)
Definition substExpr (sigma : Substitution) (E : Expr) : Expr :=
  match exprKind E with
  | ValueDependent p => mkExpr (getExprLoc E) (IntegerLiteral (sigma p))
  | _ => E
  end.

(** A decoration is pending while one of its arguments is value dependent. *)
Definition isPending (A : Attr) : bool :=
  match attrData A with
  | SYCLReqdWorkGroupSizeAttr X Y Z =>
      isValueDependent X ||
      match Y with Some Y => isValueDependent Y | None => false end ||
      match Z with Some Z => isValueDependent Z | None => false end
  | SYCLIntelMaxWorkGroupSizeAttr X Y Z =>
      isValueDependent X || isValueDependent Y || isValueDependent Z
  | SYCLIntelNumSimdWorkItemsAttr E | SYCLIntelMaxGlobalWorkDimAttr E
  | SYCLIntelBankWidthAttr E | SYCLIntelNumBanksAttr E => isValueDependent E
  | SYCLIntelBankBitsAttr args => existsb isValueDependent args
  | _ => false
  end.

(** The outcome of a handler, its diagnostics among those of
    [max_global_work_dim]. *)
Definition plain (o : Outcome) : Decl * list RangeDiagnostic :=
  (fst o, map Plain (snd o)).

(** Re-entry of the validation of one stored decoration with its arguments
    made concrete. *)
Definition revalidate (S : Sema) (sigma : Substitution) (A : Attr) (D : Decl)
  : Decl * list RangeDiagnostic :=
  let CI := mkCI (getLoc A) (kindOf (attrData A)) in
  let sub := substExpr sigma in
  match attrData A with
  | SYCLReqdWorkGroupSizeAttr X Y Z =>
      plain (AddSYCLReqdWorkGroupSizeAttr S D CI (sub X) (option_map sub Y)
                                          (option_map sub Z))
  | SYCLIntelMaxWorkGroupSizeAttr X Y Z =>
      plain (AddSYCLIntelMaxWorkGroupSizeAttr S D CI (sub X) (sub Y) (sub Z))
  | SYCLIntelNumSimdWorkItemsAttr E =>
      plain (AddSYCLIntelNumSimdWorkItemsAttr S D CI (sub E))
  | SYCLIntelMaxGlobalWorkDimAttr E =>
      AddSYCLIntelMaxGlobalWorkDimAttr D CI (sub E)
  | SYCLIntelBankWidthAttr E => plain (AddSYCLIntelBankWidthAttr S D CI (sub E))
  | SYCLIntelNumBanksAttr E => plain (AddSYCLIntelNumBanksAttr S D CI (sub E))
  | SYCLIntelBankBitsAttr args =>
      plain (AddSYCLIntelBankBitsAttr S D CI (map sub args))
  | _ => (addAttr A D, [])
  end.

Fixpoint revalidateAll (S : Sema) (sigma : Substitution) (pending : list Attr)
    (D : Decl) : Decl * list RangeDiagnostic :=
  match pending with
  | [] => (D, [])
  | A :: rest =>
      let '(D1, ds1) := revalidate S sigma A D in
      let '(D2, ds2) := revalidateAll S sigma rest D1 in
      (D2, ds1 ++ ds2)
  end.

(** Modelled from the spec: the template instantiation hook
    [on_instantiated(declaration, substitution_map)] (the instantiation code
    is not among the sources).  It re-enters the validation for every pending
    decoration owned by the declaration, in order: the pending decoration
    leaves the set and either comes back resolved or is diagnosed and
    dropped. *)
Definition on_instantiated (S : Sema) (sigma : Substitution) (D : Decl)
  : Decl * list RangeDiagnostic :=
  revalidateAll S sigma (filter isPending (attrs D))
    (setAttrs D (filter (fun A => negb (isPending A)) (attrs D))).

(** ** Merging the attributes of a redeclaration *)

(** What a [Merge...Attr] function returns: the attribute to add to the
    declaration, or nothing ([nullptr]) when the attribute is dropped; and
    the diagnostics it emitted. *)
Definition MergeResult : Type := (option Attr * list Diagnostic)%type.

(** [Sema::MergeSYCLIntelMaxGlobalWorkDimAttr] *)
Definition MergeSYCLIntelMaxGlobalWorkDimAttr (D : Decl) (A : Attr)
  : MergeResult :=
  match attrData A with
  | SYCLIntelMaxGlobalWorkDimAttr AValue =>
      let duplicate :=
        match getAttr AT_SYCLIntelMaxGlobalWorkDim D with
        | Some DeclAttr =>
            match getConstantValue DeclAttr, asConstantExpr AValue with
            | Some DeclVal, Some MergeVal =>
                (* Do not add a duplicate attribute. *)
                Some (if negb (DeclVal =? MergeVal) then
                        [Diag (getLoc DeclAttr) warn_duplicate_attribute
                              [ArgAttr (kindOf (attrData A))];
                         Diag (getLoc A) note_previous_attribute []]
                      else [])
            | _, _ => None
            end
        | None => None
        end in
      match duplicate with
      | Some ds => (None, ds)
      | None =>
          let create : MergeResult :=
            (Some (mkAttr (getLoc A) false
                     (SYCLIntelMaxGlobalWorkDimAttr AValue)), []) in
          match asConstantExpr AValue with
          | Some MergeVal =>
              if MergeVal =? 0 then
                let '(diagnosed, ds) :=
                  checkWorkGroupSizesAreOne D (kindOf (attrData A)) in
                if diagnosed then (None, ds) else create
              else create
          | None => create
          end
      end
  | _ => (None, [])
  end.

(** [Sema::MergeSYCLIntelMaxWorkGroupSizeAttr] *)
Definition MergeSYCLIntelMaxWorkGroupSizeAttr (S : Sema) (D : Decl) (A : Attr)
  : MergeResult :=
  match attrData A with
  | SYCLIntelMaxWorkGroupSizeAttr AX AY AZ =>
      (* Check to see if there's a duplicate attribute already applied. *)
      let duplicate :=
        match getAttr AT_SYCLIntelMaxWorkGroupSize D with
        | Some DeclAttr =>
            match getMaxDims DeclAttr with
            | Some (DX, DY, DZ) =>
                if AnyWorkGroupSizesDiffer (Some DX) (Some DY) (Some DZ)
                                           (Some AX) (Some AY) (Some AZ)
                then Some [Diag (getLoc DeclAttr) warn_duplicate_attribute
                                [ArgAttr (kindOf (attrData A))];
                           Diag (getLoc A) note_previous_attribute []]
                else if AllWorkGroupSizesSame (Some DX) (Some DY) (Some DZ)
                                              (Some AX) (Some AY) (Some AZ)
                then Some []
                else None
            | None => None
            end
        | None => None
        end in
      match duplicate with
      | Some ds => (None, ds)
      | None =>
          let reqdConflict :=
            match getAttr AT_SYCLReqdWorkGroupSize D with
            | Some DeclAttr =>
                match getReqdDims DeclAttr with
                | Some (RX, RY, RZ) =>
                    if CheckMaxAllowedWorkGroupSize S RX RY RZ AX AY AZ
                    then Some DeclAttr else None
                | None => None
                end
            | None => None
            end in
          match reqdConflict with
          | Some DeclAttr =>
              (None,
               [Diag (getLoc DeclAttr) err_conflicting_sycl_function_attributes
                     [ArgAttr (kindOf (attrData DeclAttr));
                      ArgAttr (kindOf (attrData A))];
                Diag (getLoc A) note_conflicting_attribute []])
          | None =>
              let dimConflict :=
                match getAttr AT_SYCLIntelMaxGlobalWorkDim D with
                | Some DeclAttr =>
                    match getValue DeclAttr with
                    | Some MG =>
                        if InvalidWorkGroupSizeAttrs MG AX (Some AY) (Some AZ)
                        then Some DeclAttr else None
                    | None => None
                    end
                | None => None
                end in
              match dimConflict with
              | Some DeclAttr =>
                  (None,
                   [Diag (getLoc A) err_sycl_x_y_z_arguments_must_be_one
                         [ArgAttr (kindOf (attrData A));
                          ArgAttr (kindOf (attrData DeclAttr))]])
              | None =>
                  (Some (mkAttr (getLoc A) false
                           (SYCLIntelMaxWorkGroupSizeAttr AX AY AZ)), [])
              end
          end
      end
  | _ => (None, [])
  end.

(** [Sema::MergeSYCLReqdWorkGroupSizeAttr] *)
Definition MergeSYCLReqdWorkGroupSizeAttr (S : Sema) (D : Decl) (A : Attr)
  : MergeResult :=
  match attrData A with
  | SYCLReqdWorkGroupSizeAttr AX AY AZ =>
      let dimConflict :=
        match getAttr AT_SYCLIntelMaxGlobalWorkDim D with
        | Some DeclAttr =>
            match getValue DeclAttr with
            | Some MG =>
                if InvalidWorkGroupSizeAttrs MG AX AY AZ
                then Some DeclAttr else None
            | None => None
            end
        | None => None
        end in
      match dimConflict with
      | Some DeclAttr =>
          (None, [Diag (getLoc A) err_sycl_x_y_z_arguments_must_be_one
                       [ArgAttr (kindOf (attrData A));
                        ArgAttr (kindOf (attrData DeclAttr))]])
      | None =>
          let maxConflict :=
            match getAttr AT_SYCLIntelMaxWorkGroupSize D with
            | Some DeclAttr =>
                match getMaxDims DeclAttr with
                | Some (MX, MY, MZ) =>
                    if CheckMaxAllowedWorkGroupSize S AX AY AZ MX MY MZ
                    then Some DeclAttr else None
                | None => None
                end
            | None => None
            end in
          match maxConflict with
          | Some DeclAttr =>
              (None,
               [Diag (getLoc DeclAttr) err_conflicting_sycl_function_attributes
                     [ArgAttr (kindOf (attrData DeclAttr));
                      ArgAttr (kindOf (attrData A))];
                Diag (getLoc A) note_conflicting_attribute []])
          | None =>
              let simdConflict :=
                match getAttr AT_SYCLIntelNumSimdWorkItems D with
                | Some DeclAttr =>
                    match getValue DeclAttr with
                    | Some NSWI =>
                        if CheckWorkGroupSize NSWI AX AY AZ
                        then Some DeclAttr else None
                    | None => None
                    end
                | None => None
                end in
              match simdConflict with
              | Some DeclAttr =>
                  (None,
                   [Diag (getLoc DeclAttr)
                         err_sycl_num_kernel_wrong_reqd_wg_size
                         [ArgAttr (kindOf (attrData DeclAttr));
                          ArgAttr (kindOf (attrData A))];
                    Diag (getLoc A) note_conflicting_attribute []])
              | None =>
                  let create : MergeResult :=
                    (Some (mkAttr (getLoc A) false
                             (SYCLReqdWorkGroupSizeAttr AX AY AZ)), []) in
                  (* Check to see if there's a duplicate attribute already
                     applied. *)
                  match getAttr AT_SYCLReqdWorkGroupSize D with
                  | Some DeclAttr =>
                      match getReqdDims DeclAttr with
                      | Some (DX, DY, DZ) =>
                          if AnyWorkGroupSizesDiffer (Some DX) DY DZ
                                                     (Some AX) AY AZ
                          then
                            (None,
                             [Diag (getLoc DeclAttr) err_duplicate_attribute
                                   [ArgAttr (kindOf (attrData A))];
                              Diag (getLoc A) note_previous_attribute []])
                          else if AllWorkGroupSizesSame (Some DX) DY DZ
                                                        (Some AX) AY AZ
                          then (None, [])
                          else create
                      | None => create
                      end
                  | None => create
                  end
              end
          end
      end
  | _ => (None, [])
  end.

(** [Sema::MergeSYCLIntelNumSimdWorkItemsAttr] *)
Definition MergeSYCLIntelNumSimdWorkItemsAttr (D : Decl) (A : Attr)
  : MergeResult :=
  match attrData A with
  | SYCLIntelNumSimdWorkItemsAttr AValue =>
      let duplicate :=
        match getAttr AT_SYCLIntelNumSimdWorkItems D with
        | Some DeclAttr =>
            match getConstantValue DeclAttr, asConstantExpr AValue with
            | Some DeclVal, Some MergeVal =>
                (* Do not add a duplicate attribute. *)
                Some (if negb (DeclVal =? MergeVal) then
                        [Diag (getLoc DeclAttr) warn_duplicate_attribute
                              [ArgAttr (kindOf (attrData A))];
                         Diag (getLoc A) note_previous_attribute []]
                      else [])
            | _, _ => None
            end
        | None => None
        end in
      match duplicate with
      | Some ds => (None, ds)
      | None =>
          let create : MergeResult :=
            (Some (mkAttr (getLoc A) false
                     (SYCLIntelNumSimdWorkItemsAttr AValue)), []) in
          match getAttr AT_SYCLReqdWorkGroupSize D with
          | Some DeclAttr =>
              match getReqdDims DeclAttr with
              | Some (RX, RY, RZ) =>
                  if CheckWorkGroupSize AValue RX RY RZ then
                    (None,
                     [Diag (getLoc A) err_sycl_num_kernel_wrong_reqd_wg_size
                           [ArgAttr (kindOf (attrData A));
                            ArgAttr (kindOf (attrData DeclAttr))];
                      Diag (getLoc DeclAttr) note_conflicting_attribute []])
                  else create
              | None => create
              end
          | None => create
          end
      end
  | _ => (None, [])
  end.

(** [Sema::MergeSYCLIntelBankWidthAttr] *)
Definition MergeSYCLIntelBankWidthAttr (D : Decl) (A : Attr) : MergeResult :=
  match attrData A with
  | SYCLIntelBankWidthAttr AValue =>
      let create : MergeResult :=
        (Some (mkAttr (getLoc A) false (SYCLIntelBankWidthAttr AValue)), []) in
      (* Check to see if there's a duplicate attribute with different values
         already applied to the declaration. *)
      match getAttr AT_SYCLIntelBankWidth D with
      | Some DeclAttr =>
          match getConstantValue DeclAttr, asConstantExpr AValue with
          | Some DeclVal, Some MergeVal =>
              if negb (DeclVal =? MergeVal) then
                (None, [Diag (getLoc DeclAttr) warn_duplicate_attribute
                             [ArgAttr (kindOf (attrData A))];
                        Diag (getLoc A) note_previous_attribute []])
              else create
          | _, _ => create
          end
      | None => create
      end
  | _ => (None, [])
  end.

(** [Sema::MergeSYCLIntelNumBanksAttr] *)
Definition MergeSYCLIntelNumBanksAttr (D : Decl) (A : Attr) : MergeResult :=
  match attrData A with
  | SYCLIntelNumBanksAttr AValue =>
      let create : MergeResult :=
        (Some (mkAttr (getLoc A) false (SYCLIntelNumBanksAttr AValue)), []) in
      match getAttr AT_SYCLIntelNumBanks D with
      | Some DeclAttr =>
          match getConstantValue DeclAttr, asConstantExpr AValue with
          | Some DeclVal, Some MergeVal =>
              if negb (DeclVal =? MergeVal) then
                (None, [Diag (getLoc DeclAttr) warn_duplicate_attribute
                             [ArgAttr (kindOf (attrData A))];
                        Diag (getLoc A) note_previous_attribute []])
              else create
          | _, _ => create
          end
      | None => create
      end
  | _ => (None, [])
  end.

(** ** The attribute list of a declaration *)

(** The loop of [Sema::ProcessDeclAttributeList]: apply all the attributes of
    the list to the declaration, one after the other.  Only the declaration
    is returned.  (The checks that follow the loop in the source emit
    diagnostics and mark the declaration invalid; the only attributes they
    remove are [WeakRefAttr] and [ObjCDesignatedInitializerAttr], which are
    not among the attributes modelled here.) *)
Definition ProcessDeclAttributeList (S : Sema) (D : Decl)
    (AttrList : list ParsedAttr) : Decl :=
  fold_left (fun D AL => fst (ProcessDeclAttribute S D AL)) AttrList D.

(** ** Attribute names and machine modes *)

(** A [StringRef]: a sequence of characters.  The operations below are the
    ones of [llvm::StringRef] that the functions of this section call
    ([operator==], [drop_front], [drop_back], [starts_with], [ends_with]). *)
Definition StringRef : Type := list ascii.

Fixpoint equals (a b : StringRef) : bool :=
  match a, b with
  | [], [] => true
  | x :: a, y :: b => Ascii.eqb x y && equals a b
  | _, _ => false
  end.

Definition drop_front (N : nat) (s : StringRef) : StringRef := skipn N s.

Definition drop_back (N : nat) (s : StringRef) : StringRef :=
  firstn (length s - N) s.

Definition starts_with (s Prefix : StringRef) : bool :=
  (length Prefix <=? length s)%nat && equals (firstn (length Prefix) s) Prefix.

Definition ends_with (s Suffix : StringRef) : bool :=
  (length Suffix <=? length s)%nat &&
  equals (skipn (length s - length Suffix) s) Suffix.

(** Normalize the attribute, __foo__ becomes foo.
    Returns true if normalization was applied. *)
Definition normalizeName (AttrName : StringRef) : StringRef * bool :=
  let underscores := ["_"; "_"]%char in
  if (4 <? length AttrName)%nat && starts_with AttrName underscores &&
     ends_with AttrName underscores
  then (drop_back 2 (drop_front 2 AttrName), true)
  else (AttrName, false).

(** The floating-point modes [parseModeAttrArg] names. *)
Inductive FloatModeKind : Type := NoFloat | LongDouble | Float128 | Ibm128.

(** The widths [parseModeAttrArg] asks the target for. *)
Record TargetInfo : Type := mkTargetInfo {
  getRegisterWidth : Z;
  getCharWidth : Z;
  getPointerWidth : Z;
  getUnwindWordWidth : Z
}.

(** The output parameters of [parseModeAttrArg]. *)
Record ModeArg : Type := mkModeArg {
  DestWidth : Z;
  IntegerMode : bool;
  ComplexMode : bool;
  ExplicitType : FloatModeKind
}.

(** [parseModeAttrArg]: parses the attribute mode string.  [DestWidth0] is the
    value [DestWidth] holds at the call (the function does not always assign
    it). *)
Definition parseModeAttrArg (TI : TargetInfo) (Str : StringRef) (DestWidth0 : Z)
  : ModeArg :=
  match Str with
  | [c0; c1] =>
      let '(DestWidth, ExplicitType) :=
        if Ascii.eqb c0 "Q" then (8, NoFloat)
        else if Ascii.eqb c0 "H" then (16, NoFloat)
        else if Ascii.eqb c0 "S" then (32, NoFloat)
        else if Ascii.eqb c0 "D" then (64, NoFloat)
        else if Ascii.eqb c0 "X" then (96, NoFloat)
        else if Ascii.eqb c0 "K" then
          (* KFmode - IEEE quad precision (__float128) *)
          (if Ascii.eqb c1 "I" then 0 else 128, Float128)
        else if Ascii.eqb c0 "T" then (128, LongDouble)
        else if Ascii.eqb c0 "I" then
          (if Ascii.eqb c1 "I" then 0 else 128, Ibm128)
        else (DestWidth0, NoFloat) in
      if Ascii.eqb c1 "F" then mkModeArg DestWidth false false ExplicitType
      else if Ascii.eqb c1 "C" then mkModeArg DestWidth false true ExplicitType
      else if negb (Ascii.eqb c1 "I") then mkModeArg 0 true false ExplicitType
      else mkModeArg DestWidth true false ExplicitType
  | [_; _; _; _] =>
      if equals Str ["w"; "o"; "r"; "d"]%char then
        mkModeArg (getRegisterWidth TI) true false NoFloat
      else if equals Str ["b"; "y"; "t"; "e"]%char then
        mkModeArg (getCharWidth TI) true false NoFloat
      else mkModeArg DestWidth0 true false NoFloat
  | [_; _; _; _; _; _; _] =>
      if equals Str ["p"; "o"; "i"; "n"; "t"; "e"; "r"]%char then
        mkModeArg (getPointerWidth TI) true false NoFloat
      else mkModeArg DestWidth0 true false NoFloat
  | [_; _; _; _; _; _; _; _; _; _; _] =>
      if equals Str
           ["u"; "n"; "w"; "i"; "n"; "d"; "_"; "w"; "o"; "r"; "d"]%char then
        mkModeArg (getUnwindWordWidth TI) true false NoFloat
      else mkModeArg DestWidth0 true false NoFloat
  | _ => mkModeArg DestWidth0 true false NoFloat
  end.

(** * Properties *)

(** ** Integer queries *)

Definition PowerOfTwo (v : Z) : Prop := exists k, 0 <= k /\ v = 2 ^ k.

Lemma isPowerOf2_pow2 (k : Z) : 0 <= k -> isPowerOf2 (2 ^ k) = true.
Proof.
  intros Hk. unfold isPowerOf2.
  assert (Hpos : 0 < 2 ^ k) by (apply Z.pow_pos_nonneg; lia).
  apply andb_true_intro; split.
  - apply negb_true_iff, Z.eqb_neq; lia.
  - apply Z.eqb_eq.
    replace (2 ^ k - 1) with (Z.ones k) by (rewrite Z.ones_equiv; lia).
    rewrite Z.land_ones by assumption.
    apply Z.mod_same; lia.
Qed.

Lemma isPowerOf2_inv (v : Z) : 0 < v -> isPowerOf2 v = true -> v = 2 ^ Z.log2 v.
Proof.
  intros Hv H. unfold isPowerOf2 in H.
  apply andb_true_iff in H; destruct H as [_ H]. apply Z.eqb_eq in H.
  destruct (Z.log2_spec v Hv) as [Hlo Hhi].
  destruct (Z.eq_dec v (2 ^ Z.log2 v)) as [|Hne]; [assumption|exfalso].
  assert (Hk : 0 <= Z.log2 v) by apply Z.log2_nonneg.
  assert (Hpred : Z.log2 (v - 1) = Z.log2 v).
  { apply Z.log2_unique; [assumption|].
    rewrite Z.pow_succ_r in Hhi by assumption. rewrite Z.pow_succ_r by assumption.
    lia. }
  assert (Hbit : Z.testbit (Z.land v (v - 1)) (Z.log2 v) = true).
  { rewrite Z.land_spec. rewrite Z.bit_log2 by assumption.
    rewrite <- Hpred. rewrite Z.bit_log2; [reflexivity|].
    assert (0 < 2 ^ Z.log2 v) by (apply Z.pow_pos_nonneg; lia). lia. }
  rewrite H in Hbit. rewrite Z.bits_0 in Hbit. discriminate.
Qed.

Lemma isPowerOf2_spec (v : Z) : 0 < v -> (isPowerOf2 v = true <-> PowerOfTwo v).
Proof.
  intros Hv; split.
  - intros H. exists (Z.log2 v). split; [apply Z.log2_nonneg|].
    now apply isPowerOf2_inv.
  - intros [k [Hk ->]]. now apply isPowerOf2_pow2.
Qed.

Lemma PowerOfTwo_pos (v : Z) : PowerOfTwo v -> 0 < v.
Proof. intros [k [Hk ->]]. apply Z.pow_pos_nonneg; lia. Qed.

Lemma ceilLogBase2_log2_up (v : Z) : 0 < v -> ceilLogBase2 v = Z.log2_up v.
Proof.
  intros Hv. unfold ceilLogBase2, getActiveBits, Z.log2_up.
  destruct (Z.compare_spec 1 v) as [<-|Hlt|Hgt].
  - reflexivity.
  - destruct (Z.leb_spec (v - 1) 0); [lia|].
    unfold Z.succ, Z.pred. reflexivity.
  - lia.
Qed.

Lemma getZExtValue_small (v : Z) : 0 <= v < 2 ^ 64 -> getZExtValue v = v.
Proof. intros H. unfold getZExtValue. now apply Z.mod_small. Qed.

(** ** The attribute store *)

Lemma find_app {A} (f : A -> bool) (l1 l2 : list A) :
  find f (l1 ++ l2) = match find f l1 with Some x => Some x | None => find f l2 end.
Proof.
  induction l1 as [|a l1 IH]; simpl; [reflexivity|].
  destruct (f a); [reflexivity|assumption].
Qed.

Lemma getAttr_addAttr K A D :
  getAttr K (addAttr A D) =
  match getAttr K D with
  | Some x => Some x
  | None => if isa K A then Some A else None
  end.
Proof. unfold getAttr, addAttr; simpl. rewrite find_app. reflexivity. Qed.

Lemma attrsOfKind_addAttr K A D :
  attrsOfKind K (addAttr A D) =
  attrsOfKind K D ++ (if isa K A then [A] else []).
Proof. unfold attrsOfKind, addAttr; simpl. rewrite filter_app. reflexivity. Qed.

Lemma find_none_filter {A} (f : A -> bool) (l : list A) :
  find f l = None -> filter f l = [].
Proof.
  induction l as [|a l IH]; simpl; [reflexivity|].
  destruct (f a); [discriminate|assumption].
Qed.

Lemma getAttr_None_attrsOfKind K D : getAttr K D = None -> attrsOfKind K D = [].
Proof. apply find_none_filter. Qed.

Lemma filter_filter_neg {A} (f g : A -> bool) (l : list A) :
  (forall x, f x = true -> g x = false) -> filter f (filter g l) = [].
Proof.
  intros Hfg. induction l as [|a l IH]; simpl; [reflexivity|].
  destruct (g a) eqn:Hg; simpl; [|assumption].
  destruct (f a) eqn:Hf; [|assumption].
  apply Hfg in Hf. congruence.
Qed.

Lemma attrsOfKind_dropAttr_same K D : attrsOfKind K (dropAttr K D) = [].
Proof.
  unfold attrsOfKind, dropAttr; simpl. apply filter_filter_neg.
  intros x Hx. now rewrite Hx.
Qed.

Lemma AttrKind_eqb_eq a b : AttrKind_eqb a b = true <-> a = b.
Proof. destruct a, b; simpl; split; intros H; congruence. Qed.

Lemma isa_other K K' A : K <> K' -> isa K A = true -> isa K' A = false.
Proof.
  unfold isa. intros Hne H. apply AttrKind_eqb_eq in H.
  destruct (AttrKind_eqb (kindOf (attrData A)) K') eqn:E; [|reflexivity].
  apply AttrKind_eqb_eq in E. congruence.
Qed.

Lemma find_filter_other {A} (f g : A -> bool) (l : list A) :
  (forall x, f x = true -> g x = true) -> find f (filter g l) = find f l.
Proof.
  intros Hfg. induction l as [|a l IH]; simpl; [reflexivity|].
  destruct (g a) eqn:Hg; simpl.
  - destruct (f a); [reflexivity|assumption].
  - destruct (f a) eqn:Hf; [|assumption].
    apply Hfg in Hf. congruence.
Qed.

Lemma getAttr_dropAttr_other K K' D :
  K <> K' -> getAttr K (dropAttr K' D) = getAttr K D.
Proof.
  intros Hne. unfold getAttr, dropAttr; simpl. apply find_filter_other.
  intros x Hx. now rewrite (isa_other K K' x Hne Hx).
Qed.

Lemma getAttr_addImplicitMemory K D :
  K <> AT_SYCLIntelMemory -> getAttr K (addImplicitMemory D) = getAttr K D.
Proof.
  intros Hne. unfold addImplicitMemory.
  destruct (hasAttr AT_SYCLIntelMemory D); [reflexivity|].
  rewrite getAttr_addAttr. destruct (getAttr K D); [reflexivity|].
  destruct K; simpl; congruence.
Qed.

Lemma attrsOfKind_addImplicitMemory K D :
  K <> AT_SYCLIntelMemory -> attrsOfKind K (addImplicitMemory D) = attrsOfKind K D.
Proof.
  intros Hne. unfold addImplicitMemory.
  destruct (hasAttr AT_SYCLIntelMemory D); [reflexivity|].
  rewrite attrsOfKind_addAttr.
  destruct K; simpl; try congruence; apply app_nil_r.
Qed.

Lemma CheckValid_dropAttr K D :
  CheckValidFPGAMemoryAttributesVar (dropAttr K D) =
  CheckValidFPGAMemoryAttributesVar D.
Proof. reflexivity. Qed.

Lemma CheckValid_addAttr A D :
  CheckValidFPGAMemoryAttributesVar (addAttr A D) =
  CheckValidFPGAMemoryAttributesVar D.
Proof. reflexivity. Qed.

Lemma CheckValid_addImplicitMemory D :
  CheckValidFPGAMemoryAttributesVar (addImplicitMemory D) =
  CheckValidFPGAMemoryAttributesVar D.
Proof. unfold addImplicitMemory. now destruct (hasAttr _ D). Qed.

(** A non-dependent integer argument and its value. *)
Definition IntegerArg (E : Expr) (v : Z) : Prop := EvaluateAsInt E = Some v.

Lemma IntegerArg_verify E v :
  IntegerArg E v ->
  isValueDependent E = false /\
  VerifyIntegerConstantExpression E = inr (mkExpr (getExprLoc E) (ConstantExpr v), v).
Proof.
  unfold IntegerArg, EvaluateAsInt, isValueDependent, VerifyIntegerConstantExpression.
  destruct (exprKind E); intros H; inversion H; subst; split; reflexivity.
Qed.

(** ** The power-of-two gate of [bankwidth] *)

(** The declaration is a valid subject for the FPGA memory attributes. *)
Definition Eligible (S : Sema) (D : Decl) : Prop :=
  SYCLIsDevice S && CheckValidFPGAMemoryAttributesVar D = false.

Lemma not_PowerOfTwo_isPowerOf2 (v : Z) :
  0 < v -> ~ PowerOfTwo v -> isPowerOf2 v = false.
Proof.
  intros Hv Hn. destruct (isPowerOf2 v) eqn:E; [|reflexivity].
  exfalso. apply Hn. now apply isPowerOf2_spec.
Qed.

(** C4: for every non-dependent integer argument [v] of [bankwidth]: when [v]
    is not strictly positive or not a power of two, the attribute is rejected
    with one range diagnostic at the argument and the declaration is left as
    it was; when [v] is a power of two greater than zero, the attribute is
    attached (to an eligible declaration that has no [bankwidth] yet) and the
    stored evaluated value is [v]. *)
Theorem bank_width_power_of_two_gate
    (S : Sema) (D : Decl) (CI : AttributeCommonInfo) (E : Expr) (v : Z)
    (HE : IntegerArg E v) :
  (v <= 0 \/ ~ PowerOfTwo v ->
   exists d, AddSYCLIntelBankWidthAttr S D CI E = (D, [d]) /\
             diagLoc d = getExprLoc E /\
             (diagID d = err_attribute_requires_positive_integer \/
              diagID d = err_attribute_argument_not_power_of_two)) /\
  (PowerOfTwo v -> Eligible S D -> getAttr AT_SYCLIntelBankWidth D = None ->
   exists D' A,
     AddSYCLIntelBankWidthAttr S D CI E = (D', []) /\
     attrsOfKind AT_SYCLIntelBankWidth D' = [A] /\
     isImplicit A = false /\ getLoc A = ciLoc CI /\
     getConstantValue A = Some v).
Proof.
  destruct (IntegerArg_verify E v HE) as [Hdep Hver].
  unfold AddSYCLIntelBankWidthAttr. rewrite Hdep, Hver. simpl negb. cbv iota.
  split.
  - intros Hbad. destruct (Z.leb_spec v 0) as [Hle|Hpos].
    + eexists; split; [reflexivity|]. simpl. auto.
    + destruct Hbad as [Hbad|Hbad]; [lia|].
      rewrite (not_PowerOfTwo_isPowerOf2 v Hpos Hbad). simpl.
      eexists; split; [reflexivity|]. simpl. auto.
  - intros Hpow Helig Hnone.
    pose proof (PowerOfTwo_pos v Hpow) as Hpos.
    destruct (Z.leb_spec v 0) as [Hle|_]; [lia|].
    rewrite (proj2 (isPowerOf2_spec v Hpos) Hpow). simpl negb. cbv iota.
    unfold Eligible in Helig. rewrite Helig, Hnone.
    eexists; eexists; split; [reflexivity|].
    rewrite attrsOfKind_addAttr.
    rewrite attrsOfKind_addImplicitMemory by discriminate.
    rewrite (getAttr_None_attrsOfKind _ _ Hnone). simpl.
    repeat split; reflexivity.
Qed.

(** Concrete declarations and arguments used in the examples below. *)
Definition DeviceSema : Sema := mkSema true false.

(** A compilation that is not a SYCL compilation (OpenCL, say). *)
Definition NonSYCLSema : Sema := mkSema false false.

Definition LocalVar : Decl := mkDecl KVar false false false false true [].

Definition KernelFunction : Decl :=
  mkDecl KFunction false false false false false [].

Definition lit (loc : SourceLocation) (v : Z) : Expr :=
  mkExpr loc (IntegerLiteral v).

Definition cst (loc : SourceLocation) (v : Z) : Expr :=
  mkExpr loc (ConstantExpr v).

Lemma not_PowerOfTwo_6 : ~ PowerOfTwo 6.
Proof.
  intros H. apply isPowerOf2_spec in H; [|lia]. discriminate H.
Defined.

Lemma PowerOfTwo_8 : PowerOfTwo 8.
Proof. exists 3. split; [lia|reflexivity]. Defined.

(** [bankwidth(6)] is rejected, [bankwidth(8)] is stored as 8. *)
Lemma bank_width_power_of_two_gate_witness :
  (exists d,
     AddSYCLIntelBankWidthAttr DeviceSema LocalVar
       (mkCI 1%nat AT_SYCLIntelBankWidth) (lit 2%nat 6) = (LocalVar, [d]) /\
     diagLoc d = 2%nat /\
     (diagID d = err_attribute_requires_positive_integer \/
      diagID d = err_attribute_argument_not_power_of_two)) /\
  (exists D' A,
     AddSYCLIntelBankWidthAttr DeviceSema LocalVar
       (mkCI 1%nat AT_SYCLIntelBankWidth) (lit 2%nat 8) = (D', []) /\
     attrsOfKind AT_SYCLIntelBankWidth D' = [A] /\
     isImplicit A = false /\ getLoc A = 1%nat /\
     getConstantValue A = Some 8).
Proof.
  split.
  - apply (proj1 (bank_width_power_of_two_gate DeviceSema LocalVar
                    (mkCI 1%nat AT_SYCLIntelBankWidth) (lit 2%nat 6) 6 eq_refl)).
    right. exact not_PowerOfTwo_6.
  - apply (proj2 (bank_width_power_of_two_gate DeviceSema LocalVar
                    (mkCI 1%nat AT_SYCLIntelBankWidth) (lit 2%nat 8) 8 eq_refl)).
    + exact PowerOfTwo_8.
    + reflexivity.
    + reflexivity.
Defined.

(** ** The consecutive-list gate of [bank_bits] *)

(** Every element is the previous one plus [step]. *)
Definition StepsBy (step : Z) (l : list Z) : Prop :=
  forall i a b,
    nth_error l i = Some a -> nth_error l (Datatypes.S i) = Some b -> b = a + step.

(** The values form a consecutive sequence stepping by exactly +1 or
    exactly -1. *)
Definition Consecutive (l : list Z) : Prop := StepsBy 1 l \/ StepsBy (-1) l.

Lemma StepsBy_cons_inv step a l : StepsBy step (a :: l) -> StepsBy step l.
Proof. intros H i x y Hx Hy. exact (H (Datatypes.S i) x y Hx Hy). Qed.

Lemma stepsBy_spec step l : stepsBy step l = true <-> StepsBy step l.
Proof.
  induction l as [|a l IH].
  - split; [|reflexivity]. intros _ i x y Hx. destruct i; discriminate.
  - destruct l as [|b l].
    + split; [|reflexivity]. intros _ i x y Hx Hy. destruct i; discriminate.
    + change (stepsBy step (a :: b :: l))
        with ((b =? a + step) && stepsBy step (b :: l)).
      rewrite andb_true_iff, IH, Z.eqb_eq. split.
      * intros [Hb Hl] i x y Hx Hy. destruct i as [|i].
        -- simpl in Hx, Hy. congruence.
        -- exact (Hl i x y Hx Hy).
      * intros H. split.
        -- exact (H 0%nat a b eq_refl eq_refl).
        -- exact (StepsBy_cons_inv step a _ H).
Qed.

Lemma listIsConsecutive_spec l :
  (2 <= length l)%nat -> (listIsConsecutive l = true <-> Consecutive l).
Proof.
  destruct l as [|v0 [|v1 l]]; simpl length; try lia. intros _.
  unfold listIsConsecutive. rewrite stepsBy_spec. split.
  - destruct (v0 <? v1); intros H; [left|right]; exact H.
  - intros [H|H]; pose proof (H 0%nat v0 v1 eq_refl eq_refl) as H01.
    + destruct (Z.ltb_spec v0 v1); [exact H|lia].
    + destruct (Z.ltb_spec v0 v1); [lia|exact H].
Qed.

(** The arguments once converted to constant expressions. *)
Definition constantArgs (Exprs : list Expr) (Values : list Z) : list Expr :=
  map (fun p => mkExpr (getExprLoc (fst p)) (ConstantExpr (snd p)))
      (combine Exprs Values).

Lemma constantArgs_length Exprs Values :
  Forall2 IntegerArg Exprs Values ->
  length (constantArgs Exprs Values) = length Exprs.
Proof.
  intros H. unfold constantArgs. rewrite length_map, length_combine.
  apply Forall2_length in H. lia.
Qed.

Lemma getExtValue_small (v : Z) : - 2 ^ 63 <= v < 2 ^ 63 -> getExtValue v = v.
Proof. intros H. unfold getExtValue. rewrite Z.mod_small; lia. Qed.

Lemma getExtValue_range (v : Z) : - 2 ^ 63 <= getExtValue v < 2 ^ 63.
Proof.
  unfold getExtValue.
  pose proof (Z.mod_pos_bound (v + 2 ^ 63) (2 ^ 64) ltac:(lia)). lia.
Qed.

(** The values the handler holds in its [SmallVector<int64_t>]. *)
Definition storedBits (Values : list Z) : list Z := map getExtValue Values.

Lemma storedBits_small Values :
  Forall (fun v => - 2 ^ 63 <= v < 2 ^ 63) Values -> storedBits Values = Values.
Proof.
  unfold storedBits. induction 1 as [|v l Hv _ IH]; simpl; [reflexivity|].
  now rewrite IH, (getExtValue_small v Hv).
Qed.

(** The arguments on which the C++ of the [bank_bits] handler is defined:
    fewer than 32 of them (the shift [1 << Args.size()] of an [int]), and
    integer values whose [int64_t] form is neither the least nor the greatest
    [int64_t], so that adding 1 or -1 to it in the loop does not overflow. *)
Definition definedBankBits (Exprs : list Expr) : bool :=
  (length Exprs <? 32)%nat &&
  forallb (fun E => match EvaluateAsInt E with
                    | Some v => (- 2 ^ 63 <? getExtValue v) &&
                                (getExtValue v <? 2 ^ 63 - 1)
                    | None => true
                    end) Exprs.

Definition definedArgs (AL : ParsedAttr) : bool :=
  match parsedArgs AL with
  | BankBitsArgs args => definedBankBits args
  | _ => true
  end.

Lemma convertBankBitsArgs_nonneg CI Exprs Values :
  Forall2 IntegerArg Exprs Values -> Forall (fun v => 0 <= v) Values ->
  convertBankBitsArgs CI Exprs =
    inr (constantArgs Exprs Values, storedBits Values, false).
Proof.
  induction 1 as [|E v Exprs Values HE HF IH]; intros Hnn; [reflexivity|].
  inversion Hnn as [|? ? Hv Hrest]; subst.
  destruct (IntegerArg_verify E v HE) as [Hdep Hver].
  simpl. rewrite Hdep, Hver. simpl.
  destruct (Z.ltb_spec v 0); [lia|]. now rewrite (IH Hrest).
Qed.

Lemma convertBankBitsArgs_negative CI Exprs Values :
  Forall2 IntegerArg Exprs Values -> ~ Forall (fun v => 0 <= v) Values ->
  exists d, convertBankBitsArgs CI Exprs = inl [d] /\
            diagID d = err_attribute_requires_positive_integer.
Proof.
  induction 1 as [|E v Exprs Values HE HF IH]; intros Hnn.
  - exfalso. apply Hnn. constructor.
  - destruct (IntegerArg_verify E v HE) as [Hdep Hver].
    simpl. rewrite Hdep, Hver. simpl.
    destruct (Z.ltb_spec v 0) as [Hneg|Hpos].
    + eexists; split; reflexivity.
    + destruct IH as [d [Hd Hid]].
      * intros Hall. apply Hnn. constructor; assumption.
      * rewrite Hd. exists d. split; [reflexivity|assumption].
Qed.

(** Non-negative arguments below 2^63 are held as they are. *)
Lemma storedBits_nonneg Values :
  Forall (fun v => 0 <= v) Values -> Forall (fun v => v < 2 ^ 63 - 1) Values ->
  storedBits Values = Values.
Proof.
  intros Hnn Hr. apply storedBits_small.
  rewrite Forall_forall in *. intros v Hv.
  specialize (Hnn v Hv). specialize (Hr v Hv). lia.
Qed.

(** X22: a [bank_bits] list of two or more non-dependent integer arguments,
    all below 2^63 - 1, must be non-negative and consecutive, stepping by
    exactly +1 or exactly -1; otherwise one diagnostic is emitted and the
    declaration is returned unchanged: neither [bank_bits] nor an implicit
    [numbanks] is attached.  (From 2^63 - 1 on, the [int64_t] the handler
    holds is not the argument, or the sum in the loop overflows.) *)
Theorem bank_bits_must_be_consecutive
    (S : Sema) (D : Decl) (CI : AttributeCommonInfo)
    (Exprs : list Expr) (Values : list Z)
    (Hlen : (2 <= length Exprs)%nat)
    (Hargs : Forall2 IntegerArg Exprs Values)
    (Hrange : Forall (fun v => v < 2 ^ 63 - 1) Values)
    (Hbad : ~ (Forall (fun v => 0 <= v) Values /\ Consecutive Values)) :
  exists d,
    AddSYCLIntelBankBitsAttr S D CI Exprs = (D, [d]) /\
    (diagID d = err_attribute_requires_positive_integer \/
     diagID d = err_bankbits_non_consecutive) /\
    fst (handleSYCLIntelBankBitsAttr S D CI Exprs) = D /\
    In d (snd (handleSYCLIntelBankBitsAttr S D CI Exprs)).
Proof.
  assert (Hcore : exists d,
    AddSYCLIntelBankBitsAttr S D CI Exprs = (D, [d]) /\
    (diagID d = err_attribute_requires_positive_integer \/
     diagID d = err_bankbits_non_consecutive)).
  { unfold AddSYCLIntelBankBitsAttr.
    destruct (Forall_dec (fun v => 0 <= v) (fun v => Z_le_dec 0 v) Values)
      as [Hnn|Hneg].
    - rewrite (convertBankBitsArgs_nonneg CI Exprs Values Hargs Hnn).
      rewrite (storedBits_nonneg Values Hnn Hrange).
      assert (Hl2 : (2 <= length Values)%nat)
        by (rewrite <- (Forall2_length Hargs); exact Hlen).
      assert (Hnc : listIsConsecutive Values = false).
      { destruct (listIsConsecutive Values) eqn:Ec; [|reflexivity].
        exfalso. apply Hbad. split; [exact Hnn|].
        now apply listIsConsecutive_spec. }
      rewrite Hnc. simpl negb.
      destruct (Z.ltb_spec 1 (Z.of_nat (length Values))); [|lia].
      simpl. eexists; split; [reflexivity|]. simpl. auto.
    - destruct (convertBankBitsArgs_negative CI Exprs Values Hargs Hneg)
        as [d [Hd Hid]].
      rewrite Hd. exists d. split; [reflexivity|]. auto. }
  destruct Hcore as [d [Hrun Hid]]. exists d.
  split; [exact Hrun|]. split; [exact Hid|].
  unfold handleSYCLIntelBankBitsAttr.
  destruct (Nat.ltb_spec (length Exprs) 1); [lia|].
  rewrite Hrun. simpl. split; [reflexivity|].
  apply in_or_app. right. now left.
Qed.

Lemma not_Consecutive_3_5 :
  ~ (Forall (fun v => 0 <= v) [3; 5] /\ Consecutive [3; 5]).
Proof.
  intros [_ H]. apply listIsConsecutive_spec in H; [|simpl; lia].
  discriminate H.
Defined.

Lemma IntegerArgs_3_5 : Forall2 IntegerArg [lit 2%nat 3; lit 3%nat 5] [3; 5].
Proof. repeat constructor. Defined.

Lemma below_int64_max_3_5 : Forall (fun v => v < 2 ^ 63 - 1) [3; 5].
Proof. repeat constructor. Defined.

(** [bank_bits(3,5)] on a local variable is diagnosed and nothing is attached. *)
Lemma bank_bits_must_be_consecutive_witness :
  exists d,
    AddSYCLIntelBankBitsAttr DeviceSema LocalVar
      (mkCI 1%nat AT_SYCLIntelBankBits) [lit 2%nat 3; lit 3%nat 5]
    = (LocalVar, [d]) /\
    (diagID d = err_attribute_requires_positive_integer \/
     diagID d = err_bankbits_non_consecutive) /\
    fst (handleSYCLIntelBankBitsAttr DeviceSema LocalVar
           (mkCI 1%nat AT_SYCLIntelBankBits) [lit 2%nat 3; lit 3%nat 5])
    = LocalVar /\
    In d (snd (handleSYCLIntelBankBitsAttr DeviceSema LocalVar
                 (mkCI 1%nat AT_SYCLIntelBankBits) [lit 2%nat 3; lit 3%nat 5])).
Proof.
  apply (bank_bits_must_be_consecutive DeviceSema LocalVar
           (mkCI 1%nat AT_SYCLIntelBankBits) [lit 2%nat 3; lit 3%nat 5] [3; 5]).
  - simpl. lia.
  - exact IntegerArgs_3_5.
  - exact below_int64_max_3_5.
  - exact not_Consecutive_3_5.
Defined.

(** [bank_bits(18446744073709551615ULL, 0)]: the first argument is
    [2^64 - 1]. *)
Definition WrappingBankBits : ParsedAttr :=
  mkParsedAttr 1%nat
    (BankBitsArgs [lit 2%nat 18446744073709551615; lit 3%nat 0]).

(** C10 (the code at the failing input): the arguments 18446744073709551615
    and 0 are non-negative and do not form a consecutive sequence, yet the
    handler emits no diagnostic and attaches the [bank_bits] with an implicit
    [numbanks] of 4 and the implicit default memory: the handler holds the
    values in [int64_t]s, where the first one is -1, and -1, 0 is
    consecutive. *)
Theorem bank_bits_consecutive_check_wraps :
  Forall (fun v => 0 <= v) [18446744073709551615; 0] /\
  ~ Consecutive [18446744073709551615; 0] /\
  storedBits [18446744073709551615; 0] = [-1; 0] /\
  handleDeclAttribute DeviceSema LocalVar WrappingBankBits =
    (setAttrs LocalVar
       [mkAttr 0%nat true
          (SYCLIntelNumBanksAttr (mkExpr 0%nat (IntegerLiteral 4)));
        ImplicitDefaultMemory;
        mkAttr 1%nat false
          (SYCLIntelBankBitsAttr
             [cst 2%nat 18446744073709551615; cst 3%nat 0])],
     []).
Proof.
  split; [repeat constructor; lia|].
  split.
  { intros H. apply listIsConsecutive_spec in H; [|simpl; lia].
    discriminate H. }
  split; reflexivity.
Qed.

(** ** Mutual exclusion of [fpga_register] and [numbanks] *)

(** The declaration is a valid subject for [fpga_register]. *)
Definition RegisterEligible (S : Sema) (D : Decl) : Prop :=
  SYCLIsDevice S &&
  ((match getKind D with KParmVar => true | _ => false end) ||
   CheckValidFPGAMemoryAttributesVar D) = false.

(** C8: attaching [fpga_register] and then [numbanks] to the same variable
    (a fresh, eligible one) produces the mutual-exclusion diagnostic with a
    note at the register attribute, and [numbanks] is not attached: the
    declaration still carries the register attribute only. *)
Theorem register_excludes_numbanks
    (S : Sema) (D : Decl) (l1 l2 : SourceLocation) (E : Expr)
    (Hfresh : attrs D = []) (Helig : RegisterEligible S D) :
  let D1 := addAttr (mkAttr l1 false SYCLIntelRegisterAttr) D in
  ProcessDeclAttribute S D (mkParsedAttr l1 RegisterArgs) = (D1, []) /\
  ProcessDeclAttribute S D1 (mkParsedAttr l2 (NumBanksArgs E)) =
    (D1, [Diag l2 err_attributes_are_not_compatible
               [ArgAttr AT_SYCLIntelNumBanks; ArgAttr AT_SYCLIntelRegister];
          Diag l1 note_conflicting_attribute []]) /\
  attrs D1 = [mkAttr l1 false SYCLIntelRegisterAttr] /\
  hasAttr AT_SYCLIntelNumBanks D1 = false.
Proof.
  unfold RegisterEligible in Helig.
  unfold ProcessDeclAttribute, checkCommonAttributeFeatures, handleDeclAttribute,
    handleSYCLIntelRegisterAttr, hasAttr, getAttr, addAttr.
  simpl. rewrite Hfresh. simpl. rewrite Helig. simpl.
  repeat split; reflexivity.
Qed.

(** [fpga_register] then [numbanks(4)] on a local variable. *)
Lemma register_excludes_numbanks_witness :
  let D1 := addAttr (mkAttr 1%nat false SYCLIntelRegisterAttr) LocalVar in
  ProcessDeclAttribute DeviceSema LocalVar (mkParsedAttr 1%nat RegisterArgs)
    = (D1, []) /\
  ProcessDeclAttribute DeviceSema D1
      (mkParsedAttr 2%nat (NumBanksArgs (lit 3%nat 4))) =
    (D1, [Diag 2%nat err_attributes_are_not_compatible
               [ArgAttr AT_SYCLIntelNumBanks; ArgAttr AT_SYCLIntelRegister];
          Diag 1%nat note_conflicting_attribute []]) /\
  attrs D1 = [mkAttr 1%nat false SYCLIntelRegisterAttr] /\
  hasAttr AT_SYCLIntelNumBanks D1 = false.
Proof.
  apply (register_excludes_numbanks DeviceSema LocalVar 1%nat 2%nat (lit 3%nat 4));
    reflexivity.
Defined.

(** ** An explicit attribute displaces the implicit one *)

(** The implicit [numbanks] as [AddSYCLIntelBankBitsAttr] synthesizes it: its
    value is an integer literal, not a converted constant expression. *)
Definition SynthesizedNumBanks (A : Attr) : Prop :=
  isImplicit A = true /\
  exists loc n, attrData A = SYCLIntelNumBanksAttr (mkExpr loc (IntegerLiteral n)).

Lemma SynthesizedNumBanks_not_constant A :
  SynthesizedNumBanks A -> getConstantValue A = None.
Proof.
  intros [_ [loc [n H]]]. unfold getConstantValue, getValue. now rewrite H.
Qed.

Lemma numbanks_attach_over_implicit D NBA New :
  getAttr AT_SYCLIntelNumBanks D = Some NBA -> isImplicit NBA = true ->
  isa AT_SYCLIntelNumBanks New = true ->
  attrsOfKind AT_SYCLIntelNumBanks
    (addAttr New
       match getAttr AT_SYCLIntelNumBanks (addImplicitMemory D) with
       | Some NBA => if isImplicit NBA
                     then dropAttr AT_SYCLIntelNumBanks (addImplicitMemory D)
                     else addImplicitMemory D
       | None => addImplicitMemory D
       end) = [New].
Proof.
  intros Hget Himp Hnew.
  rewrite getAttr_addImplicitMemory by discriminate. rewrite Hget, Himp.
  rewrite attrsOfKind_addAttr, attrsOfKind_dropAttr_same, Hnew. reflexivity.
Qed.

(** C3 (amended): for the two kinds the handlers synthesize, [numbanks] (by
    [bank_bits]) and [fpga_memory] (the implicit default): when the instance
    a declaration carries is the implicit one and an explicit instance of the
    kind arrives and passes validation (the handler emits no diagnostic), the
    implicit instance is removed and the explicit one is attached in its
    place, whatever the two values are: afterwards the declaration carries
    exactly one instance of the kind and it is the explicit one. *)
Theorem explicit_replaces_implicit
    (S : Sema) (D : Decl) (CI : AttributeCommonInfo) :
  (forall E NBA D',
     getAttr AT_SYCLIntelNumBanks D = Some NBA -> SynthesizedNumBanks NBA ->
     AddSYCLIntelNumBanksAttr S D CI E = (D', []) ->
     exists E',
       attrsOfKind AT_SYCLIntelNumBanks D' =
         [mkAttr (ciLoc CI) false (SYCLIntelNumBanksAttr E')] /\
       (E' = E \/ exists v, IntegerArg E v /\
                            E' = mkExpr (getExprLoc E) (ConstantExpr v))) /\
  (forall Kind MA D',
     getAttr AT_SYCLIntelMemory D = Some MA -> isImplicit MA = true ->
     handleSYCLIntelMemoryAttr S D CI Kind = (D', []) ->
     exists K,
       Kind = Some K /\
       attrsOfKind AT_SYCLIntelMemory D' =
         [mkAttr (ciLoc CI) false (SYCLIntelMemoryAttr K)]).
Proof.
  split.
  - intros E NBA D' Hget Hsyn Hrun.
    pose proof (SynthesizedNumBanks_not_constant NBA Hsyn) as Hnc.
    destruct Hsyn as [Himp _].
    unfold AddSYCLIntelNumBanksAttr in Hrun.
    destruct (isValueDependent E) eqn:Hdep; simpl negb in Hrun; cbv iota in Hrun.
    + inversion Hrun; subst D'. exists E. split; [|now left].
      now apply (numbanks_attach_over_implicit D NBA).
    + unfold VerifyIntegerConstantExpression in Hrun.
      destruct (exprKind E) eqn:HK; try discriminate Hrun;
        (destruct (v <=? 0); [discriminate Hrun|];
         destruct (negb (isPowerOf2 v)); [discriminate Hrun|];
         match type of Hrun with
         | (if ?c then _ else _) = _ => destruct c; [discriminate Hrun|]
         end;
         destruct (SYCLIsDevice S && CheckValidFPGAMemoryAttributesVar D);
           [discriminate Hrun|];
         rewrite Hget, Hnc in Hrun; inversion Hrun; subst D';
         eexists; split;
           [now apply (numbanks_attach_over_implicit D NBA)|];
         right; exists v; split; [|reflexivity];
         unfold IntegerArg, EvaluateAsInt; now rewrite HK).
  - intros Kind MA D' Hget Himp Hrun.
    unfold handleSYCLIntelMemoryAttr in Hrun.
    destruct Kind as [K|]; [|discriminate Hrun].
    exists K. split; [reflexivity|].
    rewrite Hget, Himp in Hrun. simpl negb in Hrun. cbv iota in Hrun.
    rewrite CheckValid_dropAttr in Hrun.
    destruct (SYCLIsDevice S && CheckValidFPGAMemoryAttributesVar D);
      [discriminate Hrun|].
    inversion Hrun; subst D'.
    rewrite attrsOfKind_addAttr, attrsOfKind_dropAttr_same. reflexivity.
Qed.

(** A local variable after [bank_bits(0,1)]: it carries the implicit
    [numbanks] of value 4, the implicit default memory and the bank bits. *)
Definition AfterBankBits01 : Decl :=
  fst (AddSYCLIntelBankBitsAttr DeviceSema LocalVar
         (mkCI 1%nat AT_SYCLIntelBankBits) [lit 2%nat 0; lit 3%nat 1]).

(** The implicit [numbanks] of value 4 is replaced by the explicit
    [numbanks(4)], and the implicit default memory by [fpga_memory("MLAB")]. *)
Lemma explicit_replaces_implicit_witness :
  (exists E',
     attrsOfKind AT_SYCLIntelNumBanks
       (fst (AddSYCLIntelNumBanksAttr DeviceSema AfterBankBits01
               (mkCI 5%nat AT_SYCLIntelNumBanks) (lit 6%nat 4))) =
       [mkAttr 5%nat false (SYCLIntelNumBanksAttr E')] /\
     (E' = lit 6%nat 4 \/
      exists v, IntegerArg (lit 6%nat 4) v /\
                E' = mkExpr 6%nat (ConstantExpr v))) /\
  (exists K,
     Some MemMLAB = Some K /\
     attrsOfKind AT_SYCLIntelMemory
       (fst (handleSYCLIntelMemoryAttr DeviceSema AfterBankBits01
               (mkCI 7%nat AT_SYCLIntelMemory) (Some MemMLAB))) =
       [mkAttr 7%nat false (SYCLIntelMemoryAttr K)]).
Proof.
  split.
  - apply (proj1 (explicit_replaces_implicit DeviceSema AfterBankBits01
                    (mkCI 5%nat AT_SYCLIntelNumBanks))
             (lit 6%nat 4)
             (mkAttr 0%nat true
                (SYCLIntelNumBanksAttr (mkExpr 0%nat (IntegerLiteral 4))))).
    + reflexivity.
    + split; [reflexivity|]. exists 0%nat, 4. reflexivity.
    + reflexivity.
  - apply (proj2 (explicit_replaces_implicit DeviceSema AfterBankBits01
                    (mkCI 7%nat AT_SYCLIntelMemory))
             (Some MemMLAB) ImplicitDefaultMemory).
    + reflexivity.
    + reflexivity.
    + reflexivity.
Defined.

(** A declaration that carries one implicit attribute. *)
Definition WithImplicit (D : Decl) (data : AttrData) : Decl :=
  addAttr (mkAttr 0%nat true data) D.

(** C3 as stated fails: the other kinds do not replace an implicit instance.
    The handler of [fpga_register] passes over an implicit instance ("but not
    if it's one we've implicitly added") and attaches the explicit one beside
    it, and so does the handler of [bank_bits]: the declaration then carries
    two instances.  The handlers of [bankwidth], [num_simd_work_items],
    [max_global_work_dim], [max_work_group_size] and [reqd_work_group_size]
    do not look at whether the instance present is implicit: an explicit
    instance with the same values passes the validation, is dropped as a
    duplicate without a diagnostic, and the instance left is the implicit
    one. *)
Lemma explicit_replaces_implicit_counterexample :
  handleSYCLIntelRegisterAttr DeviceSema
    (WithImplicit LocalVar SYCLIntelRegisterAttr)
    (mkCI 1%nat AT_SYCLIntelRegister) =
    (setAttrs LocalVar [mkAttr 0%nat true SYCLIntelRegisterAttr;
                        mkAttr 1%nat false SYCLIntelRegisterAttr], []) /\
  (let D := WithImplicit LocalVar (SYCLIntelBankBitsAttr [cst 0%nat 0]) in
   let '(D', ds) := handleSYCLIntelBankBitsAttr DeviceSema D
                      (mkCI 1%nat AT_SYCLIntelBankBits) [lit 2%nat 0] in
   ds = [] /\
   attrsOfKind AT_SYCLIntelBankBits D' =
     [mkAttr 0%nat true (SYCLIntelBankBitsAttr [cst 0%nat 0]);
      mkAttr 1%nat false (SYCLIntelBankBitsAttr [cst 2%nat 0])]) /\
  (let D := WithImplicit LocalVar (SYCLIntelBankWidthAttr (cst 0%nat 8)) in
   AddSYCLIntelBankWidthAttr DeviceSema D
     (mkCI 1%nat AT_SYCLIntelBankWidth) (lit 2%nat 8) = (D, [])) /\
  (let D := WithImplicit KernelFunction
              (SYCLIntelNumSimdWorkItemsAttr (cst 0%nat 8)) in
   AddSYCLIntelNumSimdWorkItemsAttr DeviceSema D
     (mkCI 1%nat AT_SYCLIntelNumSimdWorkItems) (lit 2%nat 8) = (D, [])) /\
  (let D := WithImplicit KernelFunction
              (SYCLIntelMaxGlobalWorkDimAttr (cst 0%nat 2)) in
   AddSYCLIntelMaxGlobalWorkDimAttr D
     (mkCI 1%nat AT_SYCLIntelMaxGlobalWorkDim) (lit 2%nat 2) = (D, [])) /\
  (let D := WithImplicit KernelFunction
              (SYCLIntelMaxWorkGroupSizeAttr (cst 0%nat 2) (cst 0%nat 2)
                                             (cst 0%nat 2)) in
   AddSYCLIntelMaxWorkGroupSizeAttr DeviceSema D
     (mkCI 1%nat AT_SYCLIntelMaxWorkGroupSize)
     (lit 2%nat 2) (lit 3%nat 2) (lit 4%nat 2) = (D, [])) /\
  (let D := WithImplicit KernelFunction
              (SYCLReqdWorkGroupSizeAttr (cst 0%nat 2) (Some (cst 0%nat 2))
                                         (Some (cst 0%nat 2))) in
   AddSYCLReqdWorkGroupSizeAttr DeviceSema D
     (mkCI 1%nat AT_SYCLReqdWorkGroupSize)
     (lit 2%nat 2) (Some (lit 3%nat 2)) (Some (lit 4%nat 2)) = (D, [])).
Proof. repeat split; reflexivity. Qed.

(** ** [bank_bits] synthesizes [numbanks] *)

Definition ImplicitNumBanks (n : nat) : Attr :=
  mkAttr 0%nat true
    (SYCLIntelNumBanksAttr (mkExpr 0%nat (IntegerLiteral (implicitNumBanksValue n)))).

Lemma implicitNumBanksValue_lt (n : nat) : implicitNumBanksValue n < 2 ^ 32.
Proof. unfold implicitNumBanksValue. apply Z.mod_pos_bound. lia. Qed.

Lemma implicitNumBanksValue_small (n : nat) :
  (n < 32)%nat -> implicitNumBanksValue n = 2 ^ Z.of_nat n.
Proof.
  intros Hn. unfold implicitNumBanksValue.
  rewrite Z.shiftl_1_l. apply Z.mod_small. split.
  - apply Z.pow_nonneg; lia.
  - apply Z.pow_lt_mono_r; lia.
Qed.

(** What an accepted [bank_bits] with integer arguments leaves on a
    declaration without [numbanks]. *)
Lemma bank_bits_accepted_inv S D CI Exprs Values D1 :
  getAttr AT_SYCLIntelNumBanks D = None ->
  Forall2 IntegerArg Exprs Values ->
  AddSYCLIntelBankBitsAttr S D CI Exprs = (D1, []) ->
  Eligible S D /\
  D1 = addAttr (mkAttr (ciLoc CI) false
                  (SYCLIntelBankBitsAttr (constantArgs Exprs Values)))
         (addImplicitMemory (addAttr (ImplicitNumBanks (length Exprs)) D)).
Proof.
  intros Hnone Hargs Hrun. unfold AddSYCLIntelBankBitsAttr in Hrun.
  destruct (Forall_dec (fun v => 0 <= v) (fun v => Z_le_dec 0 v) Values)
    as [Hnn|Hneg].
  - rewrite (convertBankBitsArgs_nonneg CI Exprs Values Hargs Hnn) in Hrun.
    match type of Hrun with
    | (if ?c then _ else _) = _ => destruct c; [discriminate Hrun|]
    end.
    rewrite Hnone in Hrun. rewrite CheckValid_addAttr in Hrun.
    rewrite (constantArgs_length _ _ Hargs) in Hrun.
    unfold Eligible.
    destruct (SYCLIsDevice S && CheckValidFPGAMemoryAttributesVar D);
      [discriminate Hrun|].
    inversion Hrun. split; reflexivity.
  - destruct (convertBankBitsArgs_negative CI Exprs Values Hargs Hneg)
      as [d [Hd _]].
    rewrite Hd in Hrun. discriminate Hrun.
Qed.

(** C1 (amended): attaching [bank_bits] with [n < 32] non-dependent arguments
    to a declaration that carries neither [numbanks] nor [bank_bits] attaches
    an implicit [numbanks] of value [2^n].  A subsequently arriving explicit
    [numbanks(v)] whose value is a power of two greater than zero (as the
    [numbanks] validation requires before the consistency check) is accepted
    and replaces the implicit one when [ceil(log2 v) = n], and is diagnosed as
    conflicting and not attached when [ceil(log2 v) <> n]. *)
Theorem bank_bits_synthesizes_numbanks
    (S : Sema) (D D1 : Decl) (CI : AttributeCommonInfo)
    (Exprs : list Expr) (Values : list Z)
    (HnoNB : getAttr AT_SYCLIntelNumBanks D = None)
    (HnoBB : getAttr AT_SYCLIntelBankBits D = None)
    (Hargs : Forall2 IntegerArg Exprs Values)
    (Hn : (length Exprs < 32)%nat)
    (Hrun : AddSYCLIntelBankBitsAttr S D CI Exprs = (D1, [])) :
  let n := Z.of_nat (length Exprs) in
  getAttr AT_SYCLIntelNumBanks D1 =
    Some (mkAttr 0%nat true
            (SYCLIntelNumBanksAttr (mkExpr 0%nat (IntegerLiteral (2 ^ n))))) /\
  forall CI' E v, IntegerArg E v -> PowerOfTwo v ->
    (Z.log2_up v = n ->
     exists D2,
       AddSYCLIntelNumBanksAttr S D1 CI' E = (D2, []) /\
       attrsOfKind AT_SYCLIntelNumBanks D2 =
         [mkAttr (ciLoc CI') false
            (SYCLIntelNumBanksAttr (mkExpr (getExprLoc E) (ConstantExpr v)))]) /\
    (Z.log2_up v <> n ->
     AddSYCLIntelNumBanksAttr S D1 CI' E =
       (D1, [Diag (getExprLoc E) err_bankbits_numbanks_conflicting
                  [ArgAttr (ciKind CI')]])).
Proof.
  intros n.
  destruct (bank_bits_accepted_inv S D CI Exprs Values D1 HnoNB Hargs Hrun)
    as [Helig HD1].
  assert (HNB : getAttr AT_SYCLIntelNumBanks D1 =
                Some (ImplicitNumBanks (length Exprs))).
  { rewrite HD1, getAttr_addAttr.
    rewrite getAttr_addImplicitMemory by discriminate.
    rewrite getAttr_addAttr, HnoNB. reflexivity. }
  assert (HBB : getAttr AT_SYCLIntelBankBits D1 =
                Some (mkAttr (ciLoc CI) false
                        (SYCLIntelBankBitsAttr (constantArgs Exprs Values)))).
  { rewrite HD1, getAttr_addAttr.
    rewrite getAttr_addImplicitMemory by discriminate.
    rewrite getAttr_addAttr, HnoBB. reflexivity. }
  assert (HV : CheckValidFPGAMemoryAttributesVar D1 =
               CheckValidFPGAMemoryAttributesVar D).
  { rewrite HD1, CheckValid_addAttr, CheckValid_addImplicitMemory.
    apply CheckValid_addAttr. }
  split.
  - rewrite HNB. unfold ImplicitNumBanks.
    now rewrite (implicitNumBanksValue_small _ Hn).
  - intros CI' E v HE Hpow.
    pose proof (PowerOfTwo_pos v Hpow) as Hpos.
    destruct (IntegerArg_verify E v HE) as [Hdep Hver].
    unfold AddSYCLIntelNumBanksAttr. rewrite Hdep, Hver. simpl negb. cbv iota.
    destruct (Z.leb_spec v 0) as [|_]; [lia|].
    rewrite (proj2 (isPowerOf2_spec v Hpos) Hpow). simpl negb. cbv iota.
    rewrite HBB. simpl attrData. cbv iota.
    rewrite (constantArgs_length _ _ Hargs).
    rewrite (ceilLogBase2_log2_up v Hpos). fold n.
    split; intros Hlog.
    + rewrite Hlog, Z.eqb_refl. simpl negb. cbv iota.
      rewrite HV. unfold Eligible in Helig. rewrite Helig, HNB.
      simpl. eexists; split; [reflexivity|].
      now apply (numbanks_attach_over_implicit D1 (ImplicitNumBanks (length Exprs))).
    + destruct (Z.eqb_spec n (Z.log2_up v)) as [Heq|_]; [congruence|].
      reflexivity.
Qed.

Lemma IntegerArgs_0_1 : Forall2 IntegerArg [lit 2%nat 0; lit 3%nat 1] [0; 1].
Proof. repeat constructor. Defined.

Lemma PowerOfTwo_4 : PowerOfTwo 4.
Proof. exists 2. split; [lia|reflexivity]. Defined.

(** [bank_bits(0,1)] yields the implicit [numbanks] 4; then [numbanks(4)] is
    accepted and [numbanks(8)] is diagnosed as conflicting. *)
Lemma bank_bits_synthesizes_numbanks_witness :
  getAttr AT_SYCLIntelNumBanks AfterBankBits01 =
    Some (mkAttr 0%nat true
            (SYCLIntelNumBanksAttr (mkExpr 0%nat (IntegerLiteral 4)))) /\
  (exists D2,
     AddSYCLIntelNumBanksAttr DeviceSema AfterBankBits01
       (mkCI 5%nat AT_SYCLIntelNumBanks) (lit 6%nat 4) = (D2, []) /\
     attrsOfKind AT_SYCLIntelNumBanks D2 =
       [mkAttr 5%nat false (SYCLIntelNumBanksAttr (cst 6%nat 4))]) /\
  AddSYCLIntelNumBanksAttr DeviceSema AfterBankBits01
    (mkCI 5%nat AT_SYCLIntelNumBanks) (lit 6%nat 8) =
    (AfterBankBits01,
     [Diag 6%nat err_bankbits_numbanks_conflicting
           [ArgAttr AT_SYCLIntelNumBanks]]).
Proof.
  destruct (bank_bits_synthesizes_numbanks DeviceSema LocalVar AfterBankBits01
              (mkCI 1%nat AT_SYCLIntelBankBits)
              [lit 2%nat 0; lit 3%nat 1] [0; 1]
              eq_refl eq_refl IntegerArgs_0_1 ltac:(simpl; lia) eq_refl)
    as [Himplicit Hexplicit].
  split; [exact Himplicit|]. split.
  - apply (proj1 (Hexplicit (mkCI 5%nat AT_SYCLIntelNumBanks) (lit 6%nat 4) 4
                    eq_refl PowerOfTwo_4)).
    reflexivity.
  - apply (proj2 (Hexplicit (mkCI 5%nat AT_SYCLIntelNumBanks) (lit 6%nat 8) 8
                    eq_refl PowerOfTwo_8)).
    simpl. discriminate.
Defined.

(** The bank bits 0, 1, ..., 31. *)
Definition ThirtyTwoBankBits : list Expr :=
  map (fun i => lit 2%nat (Z.of_nat i)) (seq 0 32).

(** C1 as stated fails.  After [bank_bits(0,1)] (two arguments), the explicit
    [numbanks(3)] has [ceil(log2 3) = 2] and yet is rejected: the power-of-two
    check comes before the consistency check.  And 32 bank bits are accepted
    with an implicit [numbanks] whose 32-bit value cannot be [2^32]. *)
Lemma bank_bits_numbanks_counterexample :
  (Z.log2_up 3 = 2 /\
   AddSYCLIntelNumBanksAttr DeviceSema AfterBankBits01
     (mkCI 5%nat AT_SYCLIntelNumBanks) (lit 6%nat 3) =
     (AfterBankBits01,
      [Diag 6%nat err_attribute_argument_not_power_of_two
            [ArgAttr AT_SYCLIntelNumBanks]])) /\
  (length ThirtyTwoBankBits = 32%nat /\
   snd (AddSYCLIntelBankBitsAttr DeviceSema LocalVar
          (mkCI 1%nat AT_SYCLIntelBankBits) ThirtyTwoBankBits) = [] /\
   exists v,
     getAttr AT_SYCLIntelNumBanks
       (fst (AddSYCLIntelBankBitsAttr DeviceSema LocalVar
               (mkCI 1%nat AT_SYCLIntelBankBits) ThirtyTwoBankBits)) =
       Some (mkAttr 0%nat true
               (SYCLIntelNumBanksAttr (mkExpr 0%nat (IntegerLiteral v)))) /\
     v <> 2 ^ 32).
Proof.
  split; [split; reflexivity|].
  split; [reflexivity|]. split; [vm_compute; reflexivity|].
  exists (implicitNumBanksValue 32). split; [vm_compute; reflexivity|].
  pose proof (implicitNumBanksValue_lt 32). lia.
Qed.

(** ** Required and maximal work-group sizes *)

(** The sizes of a [reqd_work_group_size], in the order written: one, two or
    three of them, each related to its value by [P]. *)
Inductive DimValues (P : Expr -> Z -> Prop)
  : Expr -> option Expr -> option Expr -> list Z -> Prop :=
| Dims1 X x : P X x -> DimValues P X None None [x]
| Dims2 X Y x y : P X x -> P Y y -> DimValues P X (Some Y) None [x; y]
| Dims3 X Y Z x y z :
    P X x -> P Y y -> P Z z -> DimValues P X (Some Y) (Some Z) [x; y; z].

(** A strictly positive value that fits the 64 bits of [getZExtValue]. *)
Definition SizeValue (v : Z) : Prop := 0 < v < 2 ^ 64.

(** A size stored in an attribute: a constant expression. *)
Definition KnownSize (E : Expr) (v : Z) : Prop :=
  asConstantExpr E = Some v /\ SizeValue v.

(** A size as it arrives: a non-dependent integer argument. *)
Definition ArrivingSize (E : Expr) (v : Z) : Prop :=
  IntegerArg E v /\ SizeValue v.

(** Some required size is greater than the corresponding maximal size.  In
    SYCL the last specified dimension varies fastest, so the required sizes
    are matched from the last one backwards against Z, Y and X of
    [max_work_group_size]. *)
Definition ExceedsMaximum (R : list Z) (MX MY MZ : Z) : Prop :=
  Exists (fun p => fst p > snd p) (combine (rev R) [MZ; MY; MX]).

Definition converted (E : Expr) (v : Z) : Expr :=
  mkExpr (getExprLoc E) (ConstantExpr v).

Lemma CheckAndConvertArg_ok CI E v :
  ArrivingSize E v -> CheckAndConvertArg CI E = (Some (converted E v), []).
Proof.
  intros [HE [Hpos _]]. destruct (IntegerArg_verify E v HE) as [Hdep Hver].
  unfold CheckAndConvertArg. rewrite Hdep, Hver. simpl.
  destruct (Z.leb_spec v 0); [lia|reflexivity].
Qed.

Lemma converted_KnownSize E v : ArrivingSize E v -> KnownSize (converted E v) v.
Proof. intros [_ Hv]. split; [reflexivity|exact Hv]. Qed.

Lemma Exists_cons_iff {A} (P : A -> Prop) a l :
  Exists P (a :: l) <-> P a \/ Exists P l.
Proof. apply Exists_cons. Qed.

Lemma Exists_nil_iff {A} (P : A -> Prop) : Exists P [] <-> False.
Proof. apply Exists_nil. Qed.

(** [CheckMaxAllowedWorkGroupSize] decides [ExceedsMaximum] in SYCL device
    mode when every size is a known constant. *)
Lemma CheckMaxAllowedWorkGroupSize_spec S RX RY RZ R MX MY MZ mx my mz :
  SYCLIsDevice S = true ->
  DimValues KnownSize RX RY RZ R ->
  KnownSize MX mx -> KnownSize MY my -> KnownSize MZ mz ->
  CheckMaxAllowedWorkGroupSize S RX RY RZ MX MY MZ = true <->
  ExceedsMaximum R mx my mz.
Proof.
  intros HS HR [HMX Hmx] [HMY Hmy] [HMZ Hmz].
  unfold CheckMaxAllowedWorkGroupSize, ExceedsMaximum.
  rewrite HMX, HMY, HMZ, HS.
  destruct HR as [X x [HX Hx] | X Y x y [HX Hx] [HY Hy]
                 | X Y Z x y z [HX Hx] [HY Hy] [HZ Hz]];
    rewrite HX; unfold stillDependent, asConstantExprOrNull, isNull;
    try rewrite HY; try rewrite HZ; simpl;
    rewrite ?Exists_cons_iff, ?Exists_nil_iff, ?orb_true_iff; simpl;
    unfold SizeValue in *; rewrite !getZExtValue_small by lia;
    rewrite ?Z.gtb_ltb, ?Z.ltb_lt; intuition (try discriminate; try lia).
Qed.

(** C7: in SYCL device mode, when [reqd_work_group_size] and
    [max_work_group_size] meet on a declaration with all sizes known and some
    required size exceeds the corresponding maximal size, the handler of the
    arriving attribute emits the conflict diagnostic naming both attributes,
    with a note at the attribute already present, and does not attach the
    arriving one, whichever of the two arrives second. *)
Theorem required_size_within_maximum
    (S : Sema) (D : Decl) (CI : AttributeCommonInfo)
    (HSYCL : SYCLIsDevice S = true) :
  (forall RA RX RY RZ R MX MY MZ mx my mz,
     getAttr AT_SYCLReqdWorkGroupSize D = Some RA ->
     attrData RA = SYCLReqdWorkGroupSizeAttr RX RY RZ ->
     DimValues KnownSize RX RY RZ R ->
     ArrivingSize MX mx -> ArrivingSize MY my -> ArrivingSize MZ mz ->
     ExceedsMaximum R mx my mz ->
     AddSYCLIntelMaxWorkGroupSizeAttr S D CI MX MY MZ =
       (D, [Diag (ciLoc CI) err_conflicting_sycl_function_attributes
                 [ArgAttr (ciKind CI); ArgAttr AT_SYCLReqdWorkGroupSize];
            Diag (getLoc RA) note_conflicting_attribute []])) /\
  (forall MA MX MY MZ mx my mz RX RY RZ R,
     getAttr AT_SYCLIntelMaxWorkGroupSize D = Some MA ->
     attrData MA = SYCLIntelMaxWorkGroupSizeAttr MX MY MZ ->
     KnownSize MX mx -> KnownSize MY my -> KnownSize MZ mz ->
     DimValues ArrivingSize RX RY RZ R ->
     ExceedsMaximum R mx my mz ->
     exists pre,
       AddSYCLReqdWorkGroupSizeAttr S D CI RX RY RZ =
         (D, pre ++
             [Diag (ciLoc CI) err_conflicting_sycl_function_attributes
                   [ArgAttr (ciKind CI); ArgAttr AT_SYCLIntelMaxWorkGroupSize];
              Diag (getLoc MA) note_conflicting_attribute []]) /\
       Forall (fun d => diagID d = err_sycl_x_y_z_arguments_must_be_one) pre).
Proof.
  split.
  - intros RA RX RY RZ R MX MY MZ mx my mz Hget Hdata HR HX HY HZ Hex.
    unfold AddSYCLIntelMaxWorkGroupSizeAttr.
    rewrite (CheckAndConvertArg_ok CI MX mx HX),
            (CheckAndConvertArg_ok CI MY my HY),
            (CheckAndConvertArg_ok CI MZ mz HZ).
    rewrite Hget. unfold getReqdDims. rewrite Hdata.
    rewrite (proj2 (CheckMaxAllowedWorkGroupSize_spec S RX RY RZ R _ _ _ mx my mz
                      HSYCL HR (converted_KnownSize _ _ HX)
                      (converted_KnownSize _ _ HY) (converted_KnownSize _ _ HZ))
                   Hex).
    rewrite Hdata. reflexivity.
  - intros MA MX MY MZ mx my mz RX RY RZ R Hget Hdata HX HY HZ HR Hex.
    assert (Hconv : exists RX' RY' RZ',
              CheckAndConvertArg CI RX = (Some RX', []) /\
              CheckAndConvertOptArg CI RY = (Some RY', []) /\
              CheckAndConvertOptArg CI RZ = (Some RZ', []) /\
              DimValues KnownSize RX' RY' RZ' R).
    { destruct HR as [X x HX' | X Y x y HX' HY' | X Y Z x y z HX' HY' HZ'].
      - exists (converted X x), None, None.
        rewrite (CheckAndConvertArg_ok CI X x HX').
        repeat split; try reflexivity.
        constructor. now apply converted_KnownSize.
      - exists (converted X x), (Some (converted Y y)), None.
        unfold CheckAndConvertOptArg.
        rewrite (CheckAndConvertArg_ok CI X x HX'),
                (CheckAndConvertArg_ok CI Y y HY').
        repeat split; try reflexivity.
        constructor; now apply converted_KnownSize.
      - exists (converted X x), (Some (converted Y y)), (Some (converted Z z)).
        unfold CheckAndConvertOptArg.
        rewrite (CheckAndConvertArg_ok CI X x HX'),
                (CheckAndConvertArg_ok CI Y y HY'),
                (CheckAndConvertArg_ok CI Z z HZ').
        repeat split; try reflexivity.
        constructor; now apply converted_KnownSize. }
    destruct Hconv as [RX' [RY' [RZ' [HcX [HcY [HcZ HR']]]]]].
    unfold AddSYCLReqdWorkGroupSizeAttr. rewrite HcX, HcY, HcZ.
    rewrite Hget. unfold getMaxDims. rewrite Hdata.
    rewrite (proj2 (CheckMaxAllowedWorkGroupSize_spec S RX' RY' RZ' R MX MY MZ
                      mx my mz HSYCL HR' HX HY HZ) Hex).
    rewrite Hdata. eexists. split; [reflexivity|].
    destruct (getAttr AT_SYCLIntelMaxGlobalWorkDim D) as [MG|]; [|constructor].
    destruct (getValue MG); [|constructor].
    match goal with |- context [if ?c then _ else _] => destruct c end;
      repeat constructor.
Qed.

(** A kernel function that carries [reqd_work_group_size(4,4,4)], and one
    that carries [max_work_group_size(2,2,2)]. *)
Definition Reqd444 : Attr :=
  mkAttr 1%nat false
    (SYCLReqdWorkGroupSizeAttr (cst 2%nat 4) (Some (cst 3%nat 4))
                               (Some (cst 4%nat 4))).

Definition Max222 : Attr :=
  mkAttr 1%nat false
    (SYCLIntelMaxWorkGroupSizeAttr (cst 2%nat 2) (cst 3%nat 2) (cst 4%nat 2)).

Definition WithReqd444 : Decl := addAttr Reqd444 KernelFunction.
Definition WithMax222 : Decl := addAttr Max222 KernelFunction.

Lemma SizeValue_2 : SizeValue 2.
Proof. split; reflexivity. Defined.

Lemma SizeValue_4 : SizeValue 4.
Proof. split; reflexivity. Defined.

Lemma Exceeds_444_222 : ExceedsMaximum [4; 4; 4] 2 2 2.
Proof. apply Exists_cons_hd. reflexivity. Defined.

(** [max_work_group_size(2,2,2)] arriving after [reqd_work_group_size(4,4,4)]
    and the other way round: both are diagnosed and not attached. *)
Lemma required_size_within_maximum_witness :
  AddSYCLIntelMaxWorkGroupSizeAttr DeviceSema WithReqd444
    (mkCI 5%nat AT_SYCLIntelMaxWorkGroupSize)
    (lit 6%nat 2) (lit 7%nat 2) (lit 8%nat 2) =
    (WithReqd444,
     [Diag 5%nat err_conflicting_sycl_function_attributes
           [ArgAttr AT_SYCLIntelMaxWorkGroupSize;
            ArgAttr AT_SYCLReqdWorkGroupSize];
      Diag 1%nat note_conflicting_attribute []]) /\
  exists pre,
    AddSYCLReqdWorkGroupSizeAttr DeviceSema WithMax222
      (mkCI 5%nat AT_SYCLReqdWorkGroupSize)
      (lit 6%nat 4) (Some (lit 7%nat 4)) (Some (lit 8%nat 4)) =
      (WithMax222,
       pre ++
       [Diag 5%nat err_conflicting_sycl_function_attributes
             [ArgAttr AT_SYCLReqdWorkGroupSize;
              ArgAttr AT_SYCLIntelMaxWorkGroupSize];
        Diag 1%nat note_conflicting_attribute []]) /\
    Forall (fun d => diagID d = err_sycl_x_y_z_arguments_must_be_one) pre.
Proof.
  split.
  - apply (proj1 (required_size_within_maximum DeviceSema WithReqd444
                    (mkCI 5%nat AT_SYCLIntelMaxWorkGroupSize) eq_refl)
             Reqd444 (cst 2%nat 4) (Some (cst 3%nat 4)) (Some (cst 4%nat 4))
             [4; 4; 4] (lit 6%nat 2) (lit 7%nat 2) (lit 8%nat 2) 2 2 2).
    + reflexivity.
    + reflexivity.
    + constructor; (split; [reflexivity|exact SizeValue_4]).
    + split; [reflexivity|exact SizeValue_2].
    + split; [reflexivity|exact SizeValue_2].
    + split; [reflexivity|exact SizeValue_2].
    + exact Exceeds_444_222.
  - apply (proj2 (required_size_within_maximum DeviceSema WithMax222
                    (mkCI 5%nat AT_SYCLReqdWorkGroupSize) eq_refl)
             Max222 (cst 2%nat 2) (cst 3%nat 2) (cst 4%nat 2) 2 2 2
             (lit 6%nat 4) (Some (lit 7%nat 4)) (Some (lit 8%nat 4)) [4; 4; 4]).
    + reflexivity.
    + reflexivity.
    + split; [reflexivity|exact SizeValue_2].
    + split; [reflexivity|exact SizeValue_2].
    + split; [reflexivity|exact SizeValue_2].
    + constructor; (split; [reflexivity|exact SizeValue_4]).
    + exact Exceeds_444_222.
Defined.

(** ** [num_simd_work_items] and the fastest dimension *)

(** When the fastest (last specified) required size fits an [unsigned],
    [CheckWorkGroupSize] is true exactly when [num_simd_work_items] does not
    evenly divide it. *)
Lemma CheckWorkGroupSize_spec NSWI n RX RY RZ R :
  KnownSize NSWI n -> DimValues KnownSize RX RY RZ R ->
  last R 0 < 2 ^ 32 ->
  CheckWorkGroupSize NSWI RX RY RZ = true <-> last R 0 mod n <> 0.
Proof.
  intros [HN Hn] HR Hlast. unfold CheckWorkGroupSize. rewrite HN.
  unfold SizeValue in Hn.
  destruct HR as [X x [HX Hx] | X Y x y [HX Hx] [HY Hy]
                 | X Y Z x y z [HX Hx] [HY Hy] [HZ Hz]];
    rewrite HX; unfold stillDependent, asConstantExprOrNull, isNull;
    try rewrite HY; try rewrite HZ; cbn [last] in Hlast |- *;
    cbn [negb andb orb]; cbv iota;
    unfold SizeValue in *; unfold toUnsigned;
    rewrite !getZExtValue_small by lia;
    rewrite (Z.mod_small _ (2 ^ 32)) by lia;
    rewrite negb_true_iff, Z.eqb_neq; reflexivity.
Qed.

(** A kernel function with [reqd_work_group_size(1,1,4294967301)], as the
    handler attaches it; 4294967301 is [2^32 + 5]. *)
Definition WideReqd : ParsedAttr :=
  mkParsedAttr 1%nat
    (ReqdWorkGroupSizeArgs [lit 2%nat 1; lit 3%nat 1; lit 4%nat 4294967301]).

Definition Simd5 : ParsedAttr :=
  mkParsedAttr 5%nat (NumSimdWorkItemsArgs (lit 6%nat 5)).

(** C6 (the code at the failing input): 5 does not evenly divide the fastest
    dimension 4294967301, yet [num_simd_work_items(5)] is accepted without a
    diagnostic next to [reqd_work_group_size(1,1,4294967301)], in either
    order of arrival: [CheckWorkGroupSize] holds the size in an [unsigned],
    which keeps only its low 32 bits (here 5). *)
Theorem num_simd_divisibility_truncated :
  4294967301 mod 5 <> 0 /\
  (let '(D1, ds1) := handleDeclAttribute DeviceSema KernelFunction WideReqd in
   let '(D2, ds2) := handleDeclAttribute DeviceSema D1 Simd5 in
   ds1 = [] /\ ds2 = [] /\
   length (attrsOfKind AT_SYCLReqdWorkGroupSize D2) = 1%nat /\
   length (attrsOfKind AT_SYCLIntelNumSimdWorkItems D2) = 1%nat) /\
  (let '(D1, ds1) := handleDeclAttribute DeviceSema KernelFunction Simd5 in
   let '(D2, ds2) := handleDeclAttribute DeviceSema D1 WideReqd in
   ds1 = [] /\ ds2 = [] /\
   length (attrsOfKind AT_SYCLReqdWorkGroupSize D2) = 1%nat /\
   length (attrsOfKind AT_SYCLIntelNumSimdWorkItems D2) = 1%nat).
Proof.
  split; [discriminate|].
  split; vm_compute; repeat split; reflexivity.
Qed.

(** ** Case analysis on the handlers *)

Ltac split_ifs :=
  repeat match goal with
         | |- context [if ?c then _ else _] => destruct c eqn:?
         | |- context [match ?c with Some _ => _ | None => _ end] =>
             destruct c eqn:?
         end.

(** The declaration on which a value-dependent [numbanks] is laid:
    the implicit default memory is there and an implicit [numbanks] is gone. *)
Definition numBanksBase (D : Decl) : Decl :=
  match getAttr AT_SYCLIntelNumBanks (addImplicitMemory D) with
  | Some NBA => if isImplicit NBA
                then dropAttr AT_SYCLIntelNumBanks (addImplicitMemory D)
                else addImplicitMemory D
  | None => addImplicitMemory D
  end.

(** ** Attaching the same decoration twice *)

Lemma getAttr_Some_attrsOfKind K D A :
  getAttr K D = Some A -> exists l, attrsOfKind K D = A :: l.
Proof.
  unfold getAttr, attrsOfKind. induction (attrs D) as [|B l IH]; simpl.
  - discriminate.
  - destruct (isa K B) eqn:HB.
    + intros H; inversion H; subst. now exists (filter (isa K) l).
    + exact IH.
Qed.

Lemma attrsOfKind_nil_getAttr K D : attrsOfKind K D = [] -> getAttr K D = None.
Proof.
  intros H. destruct (getAttr K D) as [A|] eqn:HA; [|reflexivity].
  destruct (getAttr_Some_attrsOfKind K D A HA) as [l Hl]. congruence.
Qed.

(** When an attribute was appended and is the only one of its kind, there
    was none before. *)
Lemma attach_single K A X :
  isa K A = true -> length (attrsOfKind K (addAttr A X)) = 1%nat ->
  getAttr K X = None.
Proof.
  intros HA Hlen. rewrite attrsOfKind_addAttr, HA, length_app in Hlen.
  simpl in Hlen. apply attrsOfKind_nil_getAttr.
  destruct (attrsOfKind K X); [reflexivity|simpl in Hlen; lia].
Qed.

Lemma getAttr_attached K A X :
  isa K A = true -> getAttr K X = None -> getAttr K (addAttr A X) = Some A.
Proof. intros HA HX. now rewrite getAttr_addAttr, HX, HA. Qed.

Lemma getAttr_addAttr_other K A X :
  isa K A = false -> getAttr K (addAttr A X) = getAttr K X.
Proof.
  intros HA. rewrite getAttr_addAttr, HA. now destruct (getAttr K X).
Qed.

Lemma getAttr_numBanksBase K D :
  K <> AT_SYCLIntelMemory -> K <> AT_SYCLIntelNumBanks ->
  getAttr K (numBanksBase D) = getAttr K D.
Proof.
  intros H1 H2. unfold numBanksBase.
  destruct (getAttr AT_SYCLIntelNumBanks _) as [NBA|];
    [destruct (isImplicit NBA)|];
    rewrite ?getAttr_dropAttr_other by congruence;
    now apply getAttr_addImplicitMemory.
Qed.

Lemma CheckValid_numBanksBase D :
  CheckValidFPGAMemoryAttributesVar (numBanksBase D) =
  CheckValidFPGAMemoryAttributesVar D.
Proof.
  unfold numBanksBase.
  destruct (getAttr AT_SYCLIntelNumBanks _) as [NBA|];
    [destruct (isImplicit NBA)|];
    rewrite ?CheckValid_dropAttr; apply CheckValid_addImplicitMemory.
Qed.

Lemma Verify_inr E E' v :
  VerifyIntegerConstantExpression E = inr (E', v) -> E' = converted E v.
Proof.
  unfold VerifyIntegerConstantExpression.
  destruct (exprKind E); intros H; inversion H; reflexivity.
Qed.

Lemma bank_width_twice S D D1 CI CI2 E E2 v :
  IntegerArg E v -> IntegerArg E2 v ->
  AddSYCLIntelBankWidthAttr S D CI E = (D1, []) ->
  length (attrsOfKind AT_SYCLIntelBankWidth D1) = 1%nat ->
  AddSYCLIntelBankWidthAttr S D1 CI2 E2 = (D1, []).
Proof.
  intros HE HE2 Hrun Hone.
  destruct (IntegerArg_verify E v HE) as [Hdep HV].
  destruct (IntegerArg_verify E2 v HE2) as [Hdep2 HV2].
  unfold AddSYCLIntelBankWidthAttr in Hrun |- *.
  rewrite Hdep, HV in Hrun. rewrite Hdep2, HV2.
  simpl negb in *. cbv iota in *.
  destruct (v <=? 0) eqn:H1; [discriminate Hrun|].
  destruct (negb (isPowerOf2 v)) eqn:H2; [discriminate Hrun|].
  destruct (SYCLIsDevice S && CheckValidFPGAMemoryAttributesVar D) eqn:H3;
    [discriminate Hrun|].
  destruct (getAttr AT_SYCLIntelBankWidth D) as [DA|] eqn:H4;
    [destruct (getConstantValue DA) as [c|] eqn:H5|].
  - inversion Hrun as [[HD Hds]]. subst D1. rewrite H3, H4, H5.
    destruct (negb (v =? c)); [discriminate Hds|reflexivity].
  - inversion Hrun as [HD]. subst D1.
    apply attach_single in Hone; [|reflexivity].
    rewrite getAttr_addImplicitMemory in Hone by discriminate. congruence.
  - inversion Hrun as [HD]. subst D1.
    rewrite CheckValid_addAttr, CheckValid_addImplicitMemory, H3.
    rewrite getAttr_attached;
      [|reflexivity|now rewrite getAttr_addImplicitMemory by discriminate].
    unfold getConstantValue; simpl. now rewrite Z.eqb_refl.
Qed.

Lemma num_banks_twice S D D1 CI CI2 E E2 v :
  IntegerArg E v -> IntegerArg E2 v ->
  AddSYCLIntelNumBanksAttr S D CI E = (D1, []) ->
  length (attrsOfKind AT_SYCLIntelNumBanks D1) = 1%nat ->
  AddSYCLIntelNumBanksAttr S D1 CI2 E2 = (D1, []).
Proof.
  intros HE HE2 Hrun Hone.
  destruct (IntegerArg_verify E v HE) as [Hdep HV].
  destruct (IntegerArg_verify E2 v HE2) as [Hdep2 HV2].
  unfold AddSYCLIntelNumBanksAttr in Hrun |- *.
  rewrite Hdep, HV in Hrun. rewrite Hdep2, HV2.
  simpl negb in *. cbv iota in *.
  destruct (v <=? 0) eqn:H1; [discriminate Hrun|].
  destruct (negb (isPowerOf2 v)) eqn:H2; [discriminate Hrun|].
  match type of Hrun with
  | (if ?c then _ else _) = _ => destruct c eqn:HBB; [discriminate Hrun|]
  end.
  destruct (SYCLIsDevice S && CheckValidFPGAMemoryAttributesVar D) eqn:H3;
    [discriminate Hrun|].
  fold (numBanksBase D) in Hrun.
  assert (Hattached :
    D1 = addAttr (mkAttr (ciLoc CI) false
                    (SYCLIntelNumBanksAttr (mkExpr (getExprLoc E) (ConstantExpr v))))
           (numBanksBase D) ->
    (if match getAttr AT_SYCLIntelBankBits D1 with
        | Some BBA =>
            match attrData BBA with
            | SYCLIntelBankBitsAttr args =>
                negb (Z.of_nat (length args) =? ceilLogBase2 v)
            | _ => false
            end
        | None => false
        end
     then (D1, [Diag (getExprLoc (mkExpr (getExprLoc E2) (ConstantExpr v)))
                     err_bankbits_numbanks_conflicting [ArgAttr (ciKind CI2)]])
     else if SYCLIsDevice S && CheckValidFPGAMemoryAttributesVar D1
     then (D1, [Diag (ciLoc CI2) err_fpga_attribute_incorrect_variable
                     [ArgAttr (ciKind CI2); ArgSelect 1]])
     else
       match getAttr AT_SYCLIntelNumBanks D1 with
       | Some DeclAttr =>
           match getConstantValue DeclAttr with
           | Some DeclVal =>
               (D1, if negb (v =? DeclVal)
                    then [Diag (ciLoc CI2) warn_duplicate_attribute
                               [ArgAttr (ciKind CI2)];
                          Diag (getLoc DeclAttr) note_previous_attribute []]
                    else [])
           | None =>
               (addAttr (mkAttr (ciLoc CI2) false
                  (SYCLIntelNumBanksAttr (mkExpr (getExprLoc E2) (ConstantExpr v))))
                  (numBanksBase D1), [])
           end
       | None =>
           (addAttr (mkAttr (ciLoc CI2) false
              (SYCLIntelNumBanksAttr (mkExpr (getExprLoc E2) (ConstantExpr v))))
              (numBanksBase D1), [])
       end) = (D1, [])).
  { intros HD1. rewrite HD1 in Hone |- *.
    apply attach_single in Hone; [|reflexivity].
    rewrite getAttr_addAttr_other, getAttr_numBanksBase, HBB by
      (reflexivity || discriminate).
    rewrite CheckValid_addAttr, CheckValid_numBanksBase, H3.
    rewrite getAttr_attached; [|reflexivity|exact Hone].
    unfold getConstantValue; simpl. now rewrite Z.eqb_refl. }
  destruct (getAttr AT_SYCLIntelNumBanks D) as [DA|] eqn:H4;
    [destruct (getConstantValue DA) as [c|] eqn:H5|].
  - inversion Hrun as [[HD Hds]]. subst D1. rewrite HBB, H3, H4, H5.
    destruct (negb (v =? c)); [discriminate Hds|reflexivity].
  - apply Hattached. now inversion Hrun.
  - apply Hattached. now inversion Hrun.
Qed.

Lemma num_simd_twice S D D1 CI CI2 E E2 v :
  IntegerArg E v -> IntegerArg E2 v ->
  AddSYCLIntelNumSimdWorkItemsAttr S D CI E = (D1, []) ->
  length (attrsOfKind AT_SYCLIntelNumSimdWorkItems D1) = 1%nat ->
  AddSYCLIntelNumSimdWorkItemsAttr S D1 CI2 E2 = (D1, []).
Proof.
  intros HE HE2 Hrun Hone.
  destruct (IntegerArg_verify E v HE) as [Hdep HV].
  destruct (IntegerArg_verify E2 v HE2) as [Hdep2 HV2].
  unfold AddSYCLIntelNumSimdWorkItemsAttr in Hrun |- *.
  rewrite Hdep, HV in Hrun. rewrite Hdep2, HV2.
  simpl negb in *. cbv iota in *.
  destruct (v <=? 0) eqn:H1; [discriminate Hrun|].
  assert (Hcases :
    (exists DA, getAttr AT_SYCLIntelNumSimdWorkItems D = Some DA /\
                getConstantValue DA = Some v /\ D1 = D) \/
    D1 = addAttr (mkAttr (ciLoc CI) false
                    (SYCLIntelNumSimdWorkItemsAttr
                       (mkExpr (getExprLoc E) (ConstantExpr v)))) D).
  { destruct (getAttr AT_SYCLIntelNumSimdWorkItems D) as [DA|] eqn:H4;
      [destruct (getConstantValue DA) as [c|] eqn:H5|].
    - left. exists DA. inversion Hrun as [[HD Hds]].
      destruct (Z.eqb_spec v c) as [->|]; [|discriminate Hds]. auto.
    - right.
      destruct (getAttr AT_SYCLReqdWorkGroupSize D) as [RA|];
        [destruct (getReqdDims RA) as [[[RX RY] RZ]|];
         [destruct (CheckWorkGroupSize _ _ _ _); [discriminate Hrun|]|]|];
        now inversion Hrun.
    - right.
      destruct (getAttr AT_SYCLReqdWorkGroupSize D) as [RA|];
        [destruct (getReqdDims RA) as [[[RX RY] RZ]|];
         [destruct (CheckWorkGroupSize _ _ _ _); [discriminate Hrun|]|]|];
        now inversion Hrun. }
  clear Hrun. destruct Hcases as [[DA [H4 [H5 ->]]] | ->].
  - now rewrite H4, H5, Z.eqb_refl.
  - apply attach_single in Hone; [|reflexivity].
    rewrite getAttr_attached; [|reflexivity|exact Hone].
    unfold getConstantValue; simpl. now rewrite Z.eqb_refl.
Qed.

Lemma CheckAndConvertArg_value CI E v :
  IntegerArg E v ->
  CheckAndConvertArg CI E =
  if v <=? 0
  then (None, [Diag (getExprLoc E) err_attribute_requires_positive_integer
                    [ArgAttr (ciKind CI); ArgSelect 0]])
  else (Some (converted E v), []).
Proof.
  intros HE. destruct (IntegerArg_verify E v HE) as [Hdep HV].
  unfold CheckAndConvertArg. now rewrite Hdep, HV.
Qed.

(** The optional sizes as they arrive, with their values. *)
Definition IntegerOptArg (E : option Expr) (v : option Z) : Prop :=
  match E, v with
  | Some e, Some x => IntegerArg e x
  | None, None => True
  | _, _ => False
  end.

(** In the goal, the scrutinee of the outer match is the cross check that
    hypothesis [H] records as passed, up to the place of the arguments. *)
Ltac passed_check H :=
  match goal with
  | |- match ?c with _ => _ end = _ =>
      replace c with (@None Attr) by (symmetry; exact H)
  end.

Lemma max_work_group_size_twice S D D1 CI CI2 X Y Z X2 Y2 Z2 x y z :
  IntegerArg X x -> IntegerArg Y y -> IntegerArg Z z ->
  IntegerArg X2 x -> IntegerArg Y2 y -> IntegerArg Z2 z ->
  AddSYCLIntelMaxWorkGroupSizeAttr S D CI X Y Z = (D1, []) ->
  length (attrsOfKind AT_SYCLIntelMaxWorkGroupSize D1) = 1%nat ->
  AddSYCLIntelMaxWorkGroupSizeAttr S D1 CI2 X2 Y2 Z2 = (D1, []).
Proof.
  intros HX HY HZ HX2 HY2 HZ2 Hrun Hone.
  unfold AddSYCLIntelMaxWorkGroupSizeAttr in Hrun |- *.
  rewrite (CheckAndConvertArg_value CI X x HX),
          (CheckAndConvertArg_value CI Y y HY),
          (CheckAndConvertArg_value CI Z z HZ) in Hrun.
  rewrite (CheckAndConvertArg_value CI2 X2 x HX2),
          (CheckAndConvertArg_value CI2 Y2 y HY2),
          (CheckAndConvertArg_value CI2 Z2 z HZ2).
  destruct (x <=? 0); destruct (y <=? 0); destruct (z <=? 0);
    try discriminate Hrun.
  match type of Hrun with
  | match ?c with _ => _ end = _ => destruct c eqn:Hreqd
  end; [discriminate Hrun|].
  match type of Hrun with
  | match ?c with _ => _ end = _ => destruct c eqn:Hdim
  end; [discriminate Hrun|].
  assert (Hcases :
    (D1 = D /\ exists Ex EX EY EZ,
       getAttr AT_SYCLIntelMaxWorkGroupSize D = Some Ex /\
       getMaxDims Ex = Some (EX, EY, EZ) /\
       AnyWorkGroupSizesDiffer (Some (converted X x)) (Some (converted Y y))
         (Some (converted Z z)) (Some EX) (Some EY) (Some EZ) = false /\
       AllWorkGroupSizesSame (Some (converted X x)) (Some (converted Y y))
         (Some (converted Z z)) (Some EX) (Some EY) (Some EZ) = true) \/
    D1 = addAttr (mkAttr (ciLoc CI) false
                    (SYCLIntelMaxWorkGroupSizeAttr (converted X x)
                       (converted Y y) (converted Z z))) D).
  { destruct (getAttr AT_SYCLIntelMaxWorkGroupSize D) as [Ex|];
      [destruct (getMaxDims Ex) as [[[EX EY] EZ]|] eqn:Hd;
       [destruct (AnyWorkGroupSizesDiffer _ _ _ _ _ _) eqn:HAny;
        [discriminate Hrun|
         destruct (AllWorkGroupSizesSame _ _ _ _ _ _) eqn:HAll]|]|];
      try (right; now inversion Hrun).
    left. split; [now inversion Hrun|]. exists Ex, EX, EY, EZ.
    repeat split; auto. }
  clear Hrun.
  destruct Hcases as [[-> [Ex [EX [EY [EZ [Hget [Hdims [HAny HAll]]]]]]]] | ->].
  - passed_check Hreqd. passed_check Hdim. rewrite Hget, Hdims.
    replace (AnyWorkGroupSizesDiffer (Some (converted X2 x))
               (Some (converted Y2 y)) (Some (converted Z2 z))
               (Some EX) (Some EY) (Some EZ)) with false
      by (symmetry; exact HAny).
    replace (AllWorkGroupSizesSame (Some (converted X2 x))
               (Some (converted Y2 y)) (Some (converted Z2 z))
               (Some EX) (Some EY) (Some EZ)) with true
      by (symmetry; exact HAll).
    reflexivity.
  - apply attach_single in Hone; [|reflexivity].
    rewrite (getAttr_addAttr_other AT_SYCLReqdWorkGroupSize) by reflexivity.
    passed_check Hreqd.
    rewrite (getAttr_addAttr_other AT_SYCLIntelMaxGlobalWorkDim) by reflexivity.
    passed_check Hdim.
    rewrite getAttr_attached; [|reflexivity|exact Hone].
    unfold AnyWorkGroupSizesDiffer, AllWorkGroupSizesSame,
      AreArgValuesIdentical; simpl.
    now rewrite !Z.eqb_refl.
Qed.


Ltac convert_args CI CI2 Hrun :=
  repeat match goal with
         | H : IntegerArg ?E ?v |- _ =>
             first [ rewrite (CheckAndConvertArg_value CI E v H) in Hrun
                   | rewrite (CheckAndConvertArg_value CI2 E v H) ]
         end.

(** The [max_global_work_dim] diagnostics of the second run are empty when
    those of the first run ([Hds]) are. *)
Ltac dims_nil Hds :=
  let dsDim2 := fresh "dsDim2" in
  let Hd2 := fresh "Hd2" in
  set (dsDim2 := match getAttr AT_SYCLIntelMaxGlobalWorkDim _ with
                 | Some _ => _
                 | None => _
                 end);
  assert (Hd2 : dsDim2 = []) by
    (subst dsDim2; revert Hds;
     destruct (getAttr AT_SYCLIntelMaxGlobalWorkDim _) as [?a|]; [|reflexivity];
     destruct (getValue _) as [?MG|]; [|reflexivity];
     match goal with
     | |- (if ?c1 then _ else _) = _ -> (if ?c2 then _ else _) = _ =>
         change c2 with c1; destruct c1; [discriminate|reflexivity]
     end);
  rewrite Hd2; clear Hd2 dsDim2.

Lemma reqd_work_group_size_twice
    S D D1 CI CI2 X Y Z X2 Y2 Z2 x y z :
  IntegerArg X x -> IntegerOptArg Y y -> IntegerOptArg Z z ->
  IntegerArg X2 x -> IntegerOptArg Y2 y -> IntegerOptArg Z2 z ->
  AddSYCLReqdWorkGroupSizeAttr S D CI X Y Z = (D1, []) ->
  length (attrsOfKind AT_SYCLReqdWorkGroupSize D1) = 1%nat ->
  AddSYCLReqdWorkGroupSizeAttr S D1 CI2 X2 Y2 Z2 = (D1, []).
Proof.
  intros HX HY HZ HX2 HY2 HZ2 Hrun Hone.
  destruct Y as [Y|], y as [y|], Y2 as [Y2|]; simpl in HY, HY2;
    try contradiction;
    destruct Z as [Z|], z as [z|], Z2 as [Z2|]; simpl in HZ, HZ2;
    try contradiction.
  all: unfold AddSYCLReqdWorkGroupSizeAttr, CheckAndConvertOptArg in Hrun |- *.
  all: convert_args CI CI2 Hrun.
  all: repeat match goal with
              | |- context [?v <=? 0] => destruct (v <=? 0)
              end;
       try (simpl in Hrun; discriminate Hrun).
  all: cbv beta iota zeta in Hrun |- *.
  all: set (dsDim := match getAttr AT_SYCLIntelMaxGlobalWorkDim _ with
                     | Some _ => _
                     | None => _
                     end) in Hrun.
  all: match type of Hrun with
       | match ?c with _ => _ end = _ => destruct c eqn:Hmax
       end;
       [exfalso; inversion Hrun as [[HD Hd]]; destruct dsDim; discriminate Hd|].
  all: match type of Hrun with
       | match ?c with _ => _ end = _ => destruct c eqn:Hsimd
       end;
       [exfalso; inversion Hrun as [[HD Hd]]; destruct dsDim; discriminate Hd|].
  all: destruct (getAttr AT_SYCLReqdWorkGroupSize D) as [Ex|] eqn:Hget;
       [destruct (getReqdDims Ex) as [[[EX EY] EZ]|] eqn:Hdims;
        [destruct (AnyWorkGroupSizesDiffer _ _ _ _ _ _) eqn:HAny;
         [exfalso; inversion Hrun as [[HD Hd]]; destruct dsDim; discriminate Hd
         |destruct (AllWorkGroupSizesSame _ _ _ _ _ _) eqn:HAll]|]|].
  all: injection Hrun as HD Hds; subst dsDim.
  all: subst D1.
  all: rewrite ?(getAttr_addAttr_other AT_SYCLIntelMaxGlobalWorkDim),
               ?(getAttr_addAttr_other AT_SYCLIntelMaxWorkGroupSize),
               ?(getAttr_addAttr_other AT_SYCLIntelNumSimdWorkItems)
         by reflexivity.
  all: dims_nil Hds.
  all: passed_check Hmax; passed_check Hsimd.
  all: try (apply attach_single in Hone; [|reflexivity]).
  all: try congruence.
  all: rewrite ?Hget, ?Hdims, ?(getAttr_attached AT_SYCLReqdWorkGroupSize)
         by (reflexivity || assumption).
  all: cbn [getReqdDims attrData].
  all: first
         [ match goal with
           | |- context [AnyWorkGroupSizesDiffer ?a ?b ?c ?d ?e ?f] =>
               replace (AnyWorkGroupSizesDiffer a b c d e f) with false
                 by (symmetry; exact HAny)
           end;
           match goal with
           | |- context [AllWorkGroupSizesSame ?a ?b ?c ?d ?e ?f] =>
               replace (AllWorkGroupSizesSame a b c d e f) with true
                 by (symmetry; exact HAll)
           end;
           reflexivity
         | unfold AnyWorkGroupSizesDiffer, AllWorkGroupSizesSame,
             AreArgValuesIdentical; simpl;
           rewrite ?Z.eqb_refl; reflexivity ].
Qed.

Lemma memory_twice S D D1 CI CI2 Kind :
  handleSYCLIntelMemoryAttr S D CI Kind = (D1, []) ->
  length (attrsOfKind AT_SYCLIntelMemory D1) = 1%nat ->
  handleSYCLIntelMemoryAttr S D1 CI2 Kind = (D1, []).
Proof.
  intros Hrun Hone. unfold handleSYCLIntelMemoryAttr in Hrun.
  destruct Kind as [K|]; [|discriminate Hrun].
  assert (Hattached :
    forall X, addAttr (mkAttr (ciLoc CI) false (SYCLIntelMemoryAttr K)) X = D1 ->
    handleSYCLIntelMemoryAttr S D1 CI2 (Some K) = (D1, [])).
  { intros X HD1. rewrite <- HD1 in Hone |- *.
    apply attach_single in Hone; [|reflexivity].
    unfold handleSYCLIntelMemoryAttr.
    rewrite getAttr_attached; [|reflexivity|exact Hone].
    simpl. now destruct K. }
  destruct (getAttr AT_SYCLIntelMemory D) as [MA|] eqn:Hget;
    [destruct (negb (isImplicit MA)) eqn:Himp|].
  - unfold handleSYCLIntelMemoryAttr.
    destruct (attrData MA) eqn:Hdata;
      try (injection Hrun as HD; subst D1; now rewrite Hget, Himp, Hdata).
    destruct (negb (MemoryKind_eqb Kind K)) eqn:HK; [discriminate Hrun|].
    injection Hrun as HD. subst D1. now rewrite Hget, Himp, Hdata, HK.
  - rewrite CheckValid_dropAttr in Hrun.
    destruct (SYCLIsDevice S && CheckValidFPGAMemoryAttributesVar D);
      [discriminate Hrun|].
    injection Hrun as HD. exact (Hattached _ HD).
  - destruct (SYCLIsDevice S && CheckValidFPGAMemoryAttributesVar D);
      [discriminate Hrun|].
    injection Hrun as HD. exact (Hattached _ HD).
Qed.

(** The same decoration written a second time: same kind and same literal
    values, possibly at another place.  The kinds are those whose handler
    compares the arriving values with the instance present:
    [reqd_work_group_size], [max_work_group_size], [num_simd_work_items],
    [fpga_memory], [bankwidth] and [numbanks]. *)
Definition SameLiteral (A A2 : ParsedArgs) : Prop :=
  match A, A2 with
  | ReqdWorkGroupSizeArgs l, ReqdWorkGroupSizeArgs l2 =>
      exists vs, Forall2 IntegerArg l vs /\ Forall2 IntegerArg l2 vs
  | MaxWorkGroupSizeArgs X Y Z, MaxWorkGroupSizeArgs X2 Y2 Z2 =>
      exists x y z,
        (IntegerArg X x /\ IntegerArg Y y /\ IntegerArg Z z) /\
        (IntegerArg X2 x /\ IntegerArg Y2 y /\ IntegerArg Z2 z)
  | NumSimdWorkItemsArgs E, NumSimdWorkItemsArgs E2
  | BankWidthArgs E, BankWidthArgs E2
  | NumBanksArgs E, NumBanksArgs E2 =>
      exists v, IntegerArg E v /\ IntegerArg E2 v
  | MemoryArgs K, MemoryArgs K2 => K = K2
  | _, _ => False
  end.


Lemma SameLiteral_bank_width_8 :
  SameLiteral (BankWidthArgs (lit 2%nat 8)) (BankWidthArgs (lit 4%nat 8)).
Proof. exists 8. split; reflexivity. Defined.



(** ** A conflicting duplicate keeps the first value *)

(** The diagnostics of argument validation and of the cross checks between
    decorations, which come before the comparison with the instance
    present. *)
Definition isCheckDiag (id : DiagID) : bool :=
  match id with
  | err_expr_not_ice
  | err_attribute_requires_positive_integer
  | err_attribute_argument_not_power_of_two
  | err_fpga_attribute_incorrect_variable
  | err_bankbits_numbanks_conflicting
  | err_conflicting_sycl_function_attributes
  | err_sycl_x_y_z_arguments_must_be_one
  | err_sycl_num_kernel_wrong_reqd_wg_size
  | err_attribute_wrong_number_arguments => true
  | _ => false
  end.

Definition RejectedByCheck (ds : list Diagnostic) : Prop :=
  exists d, In d ds /\ isCheckDiag (diagID d) = true.

(** The duplicate diagnostic of a kind: an error for
    [reqd_work_group_size], a warning for the others. *)
Definition duplicateDiag (K : AttrKind) : DiagID :=
  match K with
  | AT_SYCLReqdWorkGroupSize => err_duplicate_attribute
  | _ => warn_duplicate_attribute
  end.

Definition ConstantSize (E : Expr) (v : Z) : Prop := asConstantExpr E = Some v.

(** The instance present holds known constant values and the arriving
    decoration of the same kind holds different known constant values.  For
    [fpga_memory] the instance present is a user-written one (an implicit
    default is replaced). *)
Definition DifferentKnownValues (Existing : Attr) (A : ParsedArgs) : Prop :=
  match attrData Existing, A with
  | SYCLIntelNumSimdWorkItemsAttr V, NumSimdWorkItemsArgs E
  | SYCLIntelBankWidthAttr V, BankWidthArgs E
  | SYCLIntelNumBanksAttr V, NumBanksArgs E =>
      exists c v, ConstantSize V c /\ IntegerArg E v /\ v <> c
  | SYCLIntelMaxWorkGroupSizeAttr EX EY EZ, MaxWorkGroupSizeArgs X Y Z =>
      exists cx cy cz x y z,
        (ConstantSize EX cx /\ ConstantSize EY cy /\ ConstantSize EZ cz) /\
        (IntegerArg X x /\ IntegerArg Y y /\ IntegerArg Z z) /\
        [x; y; z] <> [cx; cy; cz]
  | SYCLReqdWorkGroupSizeAttr EX EY EZ, ReqdWorkGroupSizeArgs args =>
      exists cs vs,
        DimValues ConstantSize EX EY EZ cs /\ Forall2 IntegerArg args vs /\
        vs <> cs
  | SYCLIntelMemoryAttr Kind', MemoryArgs (Some Kind) =>
      isImplicit Existing = false /\ Kind <> Kind'
  | _, _ => False
  end.

Lemma AnyWorkGroupSizesDiffer_values X Y Z vs EX EY EZ cs :
  DimValues ConstantSize X Y Z vs -> DimValues ConstantSize EX EY EZ cs ->
  vs <> cs ->
  AnyWorkGroupSizesDiffer (Some X) Y Z (Some EX) EY EZ = true.
Proof.
  unfold ConstantSize.
  intros HV HC Hne.
  destruct HV as [X x HX | X Y x y HX HY | X Y Z x y z HX HY HZ];
    destruct HC as [EX cx HEX | EX EY cx cy HEX HEY
                   | EX EY EZ cx cy cz HEX HEY HEZ];
    unfold AnyWorkGroupSizesDiffer, AreArgValuesIdentical;
    rewrite ?HX, ?HY, ?HZ, ?HEX, ?HEY, ?HEZ;
    repeat match goal with
           | |- context [?a =? ?b] => destruct (Z.eqb_spec a b)
           end;
    subst; simpl; try reflexivity; exfalso; apply Hne; reflexivity.
Qed.

Lemma In_last_two {A} (pre : list A) (a b : A) : In a (pre ++ [a; b]).
Proof. apply in_or_app. right. now left. Qed.

(** The arriving decoration is not attached, and the diagnostics end with the
    duplicate diagnostic at the arriving decoration and the note at the
    instance present, unless a check rejected the arriving decoration before
    the comparison. *)
Definition KeepsFirst (D : Decl) (CI : AttributeCommonInfo) (Existing : Attr)
    (o : Outcome) : Prop :=
  fst o = D /\
  (RejectedByCheck (snd o) \/
   exists pre,
     snd o = pre ++ [Diag (ciLoc CI) (duplicateDiag (ciKind CI))
                          [ArgAttr (ciKind CI)];
                     Diag (getLoc Existing) note_previous_attribute []]).

Ltac rejected_by_check :=
  split; [reflexivity|];
  left; eexists; split;
  [first [apply In_last_two | simpl; left; reflexivity]|reflexivity].

Lemma getConstantValue_known Ex V c :
  getValue Ex = Some V -> ConstantSize V c -> getConstantValue Ex = Some c.
Proof. unfold getConstantValue. now intros ->. Qed.

Lemma bank_width_conflict S D CI E Ex V c v :
  ciKind CI = AT_SYCLIntelBankWidth ->
  getAttr AT_SYCLIntelBankWidth D = Some Ex ->
  attrData Ex = SYCLIntelBankWidthAttr V ->
  ConstantSize V c -> IntegerArg E v -> v <> c ->
  KeepsFirst D CI Ex (AddSYCLIntelBankWidthAttr S D CI E).
Proof.
  intros HK Hget Hdata HV HE Hne.
  destruct (IntegerArg_verify E v HE) as [Hdep Hver].
  unfold AddSYCLIntelBankWidthAttr, KeepsFirst. rewrite Hdep, Hver.
  simpl negb. cbv iota.
  destruct (v <=? 0); [rejected_by_check|].
  destruct (negb (isPowerOf2 v)); [rejected_by_check|].
  destruct (SYCLIsDevice S && CheckValidFPGAMemoryAttributesVar D);
    [rejected_by_check|].
  rewrite Hget.
  rewrite (getConstantValue_known Ex V c);
    [|unfold getValue; now rewrite Hdata|exact HV].
  destruct (Z.eqb_spec v c) as [|_]; [contradiction|].
  split; [reflexivity|]. right. exists []. now rewrite HK.
Qed.

Lemma num_banks_conflict S D CI E Ex V c v :
  ciKind CI = AT_SYCLIntelNumBanks ->
  getAttr AT_SYCLIntelNumBanks D = Some Ex ->
  attrData Ex = SYCLIntelNumBanksAttr V ->
  ConstantSize V c -> IntegerArg E v -> v <> c ->
  KeepsFirst D CI Ex (AddSYCLIntelNumBanksAttr S D CI E).
Proof.
  intros HK Hget Hdata HV HE Hne.
  destruct (IntegerArg_verify E v HE) as [Hdep Hver].
  unfold AddSYCLIntelNumBanksAttr, KeepsFirst. rewrite Hdep, Hver.
  simpl negb. cbv iota.
  destruct (v <=? 0); [rejected_by_check|].
  destruct (negb (isPowerOf2 v)); [rejected_by_check|].
  match goal with
  | |- context [if ?c then _ else _] => destruct c; [rejected_by_check|]
  end.
  destruct (SYCLIsDevice S && CheckValidFPGAMemoryAttributesVar D);
    [rejected_by_check|].
  rewrite Hget.
  rewrite (getConstantValue_known Ex V c);
    [|unfold getValue; now rewrite Hdata|exact HV].
  destruct (Z.eqb_spec v c) as [|_]; [contradiction|].
  split; [reflexivity|]. right. exists []. now rewrite HK.
Qed.

Lemma num_simd_conflict S D CI E Ex V c v :
  ciKind CI = AT_SYCLIntelNumSimdWorkItems ->
  getAttr AT_SYCLIntelNumSimdWorkItems D = Some Ex ->
  attrData Ex = SYCLIntelNumSimdWorkItemsAttr V ->
  ConstantSize V c -> IntegerArg E v -> v <> c ->
  KeepsFirst D CI Ex (AddSYCLIntelNumSimdWorkItemsAttr S D CI E).
Proof.
  intros HK Hget Hdata HV HE Hne.
  destruct (IntegerArg_verify E v HE) as [Hdep Hver].
  unfold AddSYCLIntelNumSimdWorkItemsAttr, KeepsFirst. rewrite Hdep, Hver.
  simpl negb. cbv iota.
  destruct (v <=? 0); [rejected_by_check|].
  rewrite Hget.
  rewrite (getConstantValue_known Ex V c);
    [|unfold getValue; now rewrite Hdata|exact HV].
  destruct (Z.eqb_spec v c) as [|_]; [contradiction|].
  split; [reflexivity|]. right. exists []. now rewrite HK.
Qed.

Lemma max_work_group_size_conflict
    S D CI X Y Z Ex EX EY EZ cx cy cz x y z :
  ciKind CI = AT_SYCLIntelMaxWorkGroupSize ->
  getAttr AT_SYCLIntelMaxWorkGroupSize D = Some Ex ->
  attrData Ex = SYCLIntelMaxWorkGroupSizeAttr EX EY EZ ->
  ConstantSize EX cx -> ConstantSize EY cy -> ConstantSize EZ cz ->
  IntegerArg X x -> IntegerArg Y y -> IntegerArg Z z ->
  [x; y; z] <> [cx; cy; cz] ->
  KeepsFirst D CI Ex (AddSYCLIntelMaxWorkGroupSizeAttr S D CI X Y Z).
Proof.
  intros HK Hget Hdata HEX HEY HEZ HX HY HZ Hne.
  unfold AddSYCLIntelMaxWorkGroupSizeAttr, KeepsFirst.
  rewrite (CheckAndConvertArg_value CI X x HX),
          (CheckAndConvertArg_value CI Y y HY),
          (CheckAndConvertArg_value CI Z z HZ).
  destruct (x <=? 0); destruct (y <=? 0); destruct (z <=? 0);
    try rejected_by_check.
  match goal with
  | |- context [match ?c with Some _ => _ | None => _ end] =>
      destruct c; [rejected_by_check|]
  end.
  match goal with
  | |- context [match ?c with Some _ => _ | None => _ end] =>
      destruct c; [rejected_by_check|]
  end.
  rewrite Hget. unfold getMaxDims. rewrite Hdata.
  rewrite (AnyWorkGroupSizesDiffer_values (converted X x)
             (Some (converted Y y)) (Some (converted Z z)) [x; y; z]
             EX (Some EY) (Some EZ) [cx; cy; cz]);
    [|now constructor|now constructor|exact Hne].
  split; [reflexivity|]. right. exists []. now rewrite HK.
Qed.

Lemma reqd_work_group_size_conflict_dims
    S D CI X Y Z vs Ex EX EY EZ cs :
  ciKind CI = AT_SYCLReqdWorkGroupSize ->
  getAttr AT_SYCLReqdWorkGroupSize D = Some Ex ->
  attrData Ex = SYCLReqdWorkGroupSizeAttr EX EY EZ ->
  DimValues ConstantSize EX EY EZ cs ->
  DimValues IntegerArg X Y Z vs ->
  vs <> cs ->
  KeepsFirst D CI Ex (AddSYCLReqdWorkGroupSizeAttr S D CI X Y Z).
Proof.
  intros HK Hget Hdata HC HV Hne.
  assert (Hconv :
    (exists X' Y' Z',
       CheckAndConvertArg CI X = (Some X', []) /\
       CheckAndConvertOptArg CI Y = (Some Y', []) /\
       CheckAndConvertOptArg CI Z = (Some Z', []) /\
       DimValues ConstantSize X' Y' Z' vs) \/
    KeepsFirst D CI Ex (AddSYCLReqdWorkGroupSizeAttr S D CI X Y Z)).
  { unfold AddSYCLReqdWorkGroupSizeAttr, KeepsFirst, CheckAndConvertOptArg.
    destruct HV as [X x HX | X Y x y HX HY | X Y Z x y z HX HY HZ];
      rewrite ?(CheckAndConvertArg_value CI X x HX),
              ?(CheckAndConvertArg_value CI Y y HY),
              ?(CheckAndConvertArg_value CI Z z HZ);
      repeat match goal with
             | |- context [?v <=? 0] => destruct (v <=? 0)
             end;
      try (right; rejected_by_check);
      left; do 3 eexists; repeat split; constructor; reflexivity. }
  destruct Hconv as [[X' [Y' [Z' [HX [HY [HZ HV']]]]]]|Hdone]; [|exact Hdone].
  unfold AddSYCLReqdWorkGroupSizeAttr, KeepsFirst. rewrite HX, HY, HZ.
  cbv beta iota zeta.
  set (dsDim := match getAttr AT_SYCLIntelMaxGlobalWorkDim _ with
                | Some _ => _
                | None => _
                end).
  match goal with
  | |- context [match ?c with Some _ => _ | None => _ end] =>
      destruct c; [rejected_by_check|]
  end.
  match goal with
  | |- context [match ?c with Some _ => _ | None => _ end] =>
      destruct c; [rejected_by_check|]
  end.
  rewrite Hget. unfold getReqdDims. rewrite Hdata.
  rewrite (AnyWorkGroupSizesDiffer_values X' Y' Z' vs EX EY EZ cs HV' HC Hne).
  split; [reflexivity|]. right. exists dsDim. now rewrite HK.
Qed.

Lemma reqd_work_group_size_conflict S D CI args vs Ex EX EY EZ cs :
  ciKind CI = AT_SYCLReqdWorkGroupSize ->
  getAttr AT_SYCLReqdWorkGroupSize D = Some Ex ->
  attrData Ex = SYCLReqdWorkGroupSizeAttr EX EY EZ ->
  DimValues ConstantSize EX EY EZ cs ->
  Forall2 IntegerArg args vs ->
  vs <> cs ->
  KeepsFirst D CI Ex (handleSYCLReqdWorkGroupSize S D CI args).
Proof.
  intros HK Hget Hdata HC HV Hne. unfold handleSYCLReqdWorkGroupSize.
  destruct HV as [|X x l vs HX HV]; [unfold KeepsFirst; rejected_by_check|].
  destruct HV as [|Y y l vs HY HV].
  { apply (reqd_work_group_size_conflict_dims S D CI X None None [x]
             Ex EX EY EZ cs); auto. now constructor. }
  destruct HV as [|Z z l vs HZ HV].
  { apply (reqd_work_group_size_conflict_dims S D CI X (Some Y) None [x; y]
             Ex EX EY EZ cs); auto. now constructor. }
  destruct HV as [|W w l vs HW HV].
  { apply (reqd_work_group_size_conflict_dims S D CI X (Some Y) (Some Z)
             [x; y; z] Ex EX EY EZ cs); auto. now constructor. }
  unfold KeepsFirst. rejected_by_check.
Qed.

Lemma MemoryKind_eqb_neq a b : a <> b -> MemoryKind_eqb a b = false.
Proof. destruct a, b; intros H; try reflexivity; now contradiction H. Qed.

Lemma memory_conflict S D CI Ex Kind' Kind :
  ciKind CI = AT_SYCLIntelMemory ->
  getAttr AT_SYCLIntelMemory D = Some Ex ->
  attrData Ex = SYCLIntelMemoryAttr Kind' ->
  isImplicit Ex = false -> Kind <> Kind' ->
  KeepsFirst D CI Ex (handleSYCLIntelMemoryAttr S D CI (Some Kind)).
Proof.
  intros HK Hget Hdata Hexp Hne.
  unfold handleSYCLIntelMemoryAttr, KeepsFirst.
  rewrite Hget, Hexp, Hdata. simpl negb. cbv iota.
  rewrite (MemoryKind_eqb_neq Kind' Kind) by congruence. simpl.
  split; [reflexivity|]. right. exists []. now rewrite HK.
Qed.


Definition ParsedReqd222 : ParsedAttr :=
  mkParsedAttr 1%nat
    (ReqdWorkGroupSizeArgs [lit 2%nat 2; lit 3%nat 2; lit 4%nat 2]).

Definition ParsedReqd444 : ParsedAttr :=
  mkParsedAttr 5%nat
    (ReqdWorkGroupSizeArgs [lit 6%nat 4; lit 7%nat 4; lit 8%nat 4]).

Definition StoredReqd222 : Attr :=
  mkAttr 1%nat false
    (SYCLReqdWorkGroupSizeAttr (cst 2%nat 2) (Some (cst 3%nat 2))
                               (Some (cst 4%nat 2))).

Lemma Reqd444_differs :
  DifferentKnownValues StoredReqd222 (parsedArgs ParsedReqd444).
Proof.
  exists [2; 2; 2], [4; 4; 4]. split; [|split].
  - constructor; reflexivity.
  - repeat constructor.
  - discriminate.
Defined.



(** ** Comparing work-group sizes *)

Lemma AreArgValuesIdentical_sym L R :
  AreArgValuesIdentical L R = AreArgValuesIdentical R L.
Proof.
  unfold AreArgValuesIdentical.
  destruct L as [L|], R as [R|]; try reflexivity.
  destruct (asConstantExpr L), (asConstantExpr R); try reflexivity.
  now rewrite Z.eqb_sym.
Qed.

Lemma AnyWorkGroupSizesDiffer_sym LX LY LZ RX RY RZ :
  AnyWorkGroupSizesDiffer LX LY LZ RX RY RZ =
  AnyWorkGroupSizesDiffer RX RY RZ LX LY LZ.
Proof.
  unfold AnyWorkGroupSizesDiffer.
  now rewrite (AreArgValuesIdentical_sym LX), (AreArgValuesIdentical_sym LY),
    (AreArgValuesIdentical_sym LZ).
Qed.

Lemma AllWorkGroupSizesSame_sym LX LY LZ RX RY RZ :
  AllWorkGroupSizesSame LX LY LZ RX RY RZ =
  AllWorkGroupSizesSame RX RY RZ LX LY LZ.
Proof.
  unfold AllWorkGroupSizesSame.
  now rewrite (AreArgValuesIdentical_sym LX), (AreArgValuesIdentical_sym LY),
    (AreArgValuesIdentical_sym LZ).
Qed.

(** The argument is absent or a converted constant: it can be compared. *)
Definition Comparable (E : option Expr) : Prop := stillDependent E = false.

Lemma AreArgValuesIdentical_known L R :
  Comparable L -> Comparable R -> AreArgValuesIdentical L R <> Unknown.
Proof.
  unfold Comparable, stillDependent, asConstantExprOrNull, AreArgValuesIdentical.
  destruct L as [L|], R as [R|]; simpl; try discriminate;
    destruct (asConstantExpr L), (asConstantExpr R); simpl; try discriminate;
    destruct (_ =? _); discriminate.
Qed.

(** X1: the comparison of two work-group sizes does not depend on which side
    is which; the sizes are never reported both as differing and as all the
    same; and when every dimension on both sides is absent or a known
    constant, exactly one of the two reports holds, so that only an
    unresolved dimension can make the handlers keep both attributes. *)
Theorem work_group_size_comparison (LX LY LZ RX RY RZ : option Expr) :
  AnyWorkGroupSizesDiffer LX LY LZ RX RY RZ =
    AnyWorkGroupSizesDiffer RX RY RZ LX LY LZ /\
  AllWorkGroupSizesSame LX LY LZ RX RY RZ =
    AllWorkGroupSizesSame RX RY RZ LX LY LZ /\
  (AnyWorkGroupSizesDiffer LX LY LZ RX RY RZ = true ->
   AllWorkGroupSizesSame LX LY LZ RX RY RZ = false) /\
  (Forall Comparable [LX; LY; LZ; RX; RY; RZ] ->
   AllWorkGroupSizesSame LX LY LZ RX RY RZ =
     negb (AnyWorkGroupSizesDiffer LX LY LZ RX RY RZ)).
Proof.
  split; [apply AnyWorkGroupSizesDiffer_sym|].
  split; [apply AllWorkGroupSizesSame_sym|].
  unfold AnyWorkGroupSizesDiffer, AllWorkGroupSizesSame. split.
  - simpl.
    destruct (AreArgValuesIdentical LX RX), (AreArgValuesIdentical LY RY),
      (AreArgValuesIdentical LZ RZ); simpl; congruence.
  - intros H.
    repeat match goal with
           | H : Forall _ (_ :: _) |- _ => inversion H; clear H; subst
           end.
    pose proof (AreArgValuesIdentical_known LX RX) as HX.
    pose proof (AreArgValuesIdentical_known LY RY) as HY.
    pose proof (AreArgValuesIdentical_known LZ RZ) as HZ.
    simpl.
    destruct (AreArgValuesIdentical LX RX), (AreArgValuesIdentical LY RY),
      (AreArgValuesIdentical LZ RZ); simpl; try reflexivity;
      try (exfalso; now apply HX); try (exfalso; now apply HY);
      try (exfalso; now apply HZ).
Qed.

(** ** Which variables take the FPGA memory attributes *)

(** X2: [CheckValidFPGAMemoryAttributesVar] reports an error exactly for an
    implicit parameter, and for a variable or parameter whose type is neither
    a device_global nor const-qualified nor in the OpenCL constant address
    space and whose storage is neither static nor local; it never reports one
    for a field, a function or a non-type template parameter. *)
Theorem fpga_memory_attribute_subjects (D : Decl) :
  CheckValidFPGAMemoryAttributesVar D = true <->
  getKind D = KImplicitParam \/
  ((getKind D = KVar \/ getKind D = KParmVar) /\
   typeIsDeviceGlobal D = false /\ typeIsConstQualified D = false /\
   typeInOpenCLConstant D = false /\ storageIsStatic D = false /\
   hasLocalStorage D = false).
Proof.
  unfold CheckValidFPGAMemoryAttributesVar, isVarDecl, isFieldDecl.
  destruct (getKind D); simpl;
    destruct (typeIsDeviceGlobal D), (typeIsConstQualified D),
      (typeInOpenCLConstant D), (storageIsStatic D), (hasLocalStorage D);
    simpl; split; intros H; try discriminate; try reflexivity; auto;
    try (destruct H as [H|[[H|H] H']]; try discriminate;
         destruct H' as [? [? [? [? ?]]]]; discriminate);
    try (right; repeat split; auto).
Qed.

(** ** What a handler may do to the attributes of a declaration *)

(** The user-written attributes of a declaration, in order. *)
Definition explicitAttrs (D : Decl) : list Attr :=
  filter (fun A => negb (isImplicit A)) (attrs D).

(** The changes a handler makes besides attaching the arriving attribute:
    adding the implicit default memory, dropping an implicit memory or
    numbanks, synthesizing a numbanks. *)
Inductive Quiet : Decl -> Decl -> Prop :=
| QuietRefl D : Quiet D D
| QuietMemory D D' : Quiet (addImplicitMemory D) D' -> Quiet D D'
| QuietDrop K Ex D D' :
    K = AT_SYCLIntelMemory \/ K = AT_SYCLIntelNumBanks ->
    getAttr K D = Some Ex -> isImplicit Ex = true ->
    Quiet (dropAttr K D) D' -> Quiet D D'
| QuietSynth n D D' :
    getAttr AT_SYCLIntelNumBanks D = None ->
    Quiet (addAttr (ImplicitNumBanks n) D) D' -> Quiet D D'.

(** What the handler of a kind has established when it attaches. *)
Definition FitsStore (K : AttrKind) (Q : Decl) : Prop :=
  match K with
  | AT_SYCLIntelMemory => getAttr K Q = None
  | AT_SYCLIntelRegister =>
      forall Ex, getAttr K Q = Some Ex -> isImplicit Ex = true
  | AT_SYCLIntelNumBanks =>
      forall Ex, getAttr K Q = Some Ex -> isImplicit Ex = false
  | _ => True
  end.

Definition Attaches (S : Sema) (AL : ParsedAttr) (D D' : Decl) : Prop :=
  exists Q data,
    Quiet D Q /\ kindOf data = semanticKind S AL /\
    FitsStore (semanticKind S AL) Q /\
    D' = addAttr (mkAttr (parsedLoc AL) false data) Q.

Lemma Quiet_numBanksBase D : Quiet D (numBanksBase D).
Proof.
  apply QuietMemory. unfold numBanksBase.
  destruct (getAttr AT_SYCLIntelNumBanks (addImplicitMemory D)) as [NBA|] eqn:H;
    [destruct (isImplicit NBA) eqn:Hi|]; try apply QuietRefl.
  apply (QuietDrop AT_SYCLIntelNumBanks NBA);
    [now right|exact H|exact Hi|apply QuietRefl].
Qed.

Lemma getAttr_dropAttr_same K D : getAttr K (dropAttr K D) = None.
Proof.
  apply attrsOfKind_nil_getAttr, attrsOfKind_dropAttr_same.
Qed.

Lemma FitsStore_numBanksBase D : FitsStore AT_SYCLIntelNumBanks (numBanksBase D).
Proof.
  unfold numBanksBase. simpl.
  destruct (getAttr AT_SYCLIntelNumBanks (addImplicitMemory D)) as [NBA|] eqn:H;
    [destruct (isImplicit NBA) eqn:Hi|]; intros Ex HEx.
  - rewrite getAttr_dropAttr_same in HEx. discriminate.
  - congruence.
  - congruence.
Qed.

Ltac unchanged := left; simpl; apply QuietRefl.

Ltac attached Q :=
  right; eexists Q, _; simpl;
  split; [|split; [|split; [|reflexivity]]];
  [eauto using QuietRefl, QuietMemory | reflexivity | simpl; auto].

Lemma bank_width_shape S D loc E :
  let AL := mkParsedAttr loc (BankWidthArgs E) in
  let D' := fst (handleDeclAttribute S D AL) in
  Quiet D D' \/ Attaches S AL D D'.
Proof.
  intros AL D'. subst D'. unfold handleDeclAttribute; simpl.
  unfold AddSYCLIntelBankWidthAttr.
  destruct (negb (isValueDependent E));
    [destruct (VerifyIntegerConstantExpression E) as [ds|[E' v]]|];
    split_ifs; try unchanged; attached (addImplicitMemory D).
Qed.

Lemma num_banks_shape S D loc E :
  let AL := mkParsedAttr loc (NumBanksArgs E) in
  let D' := fst (handleDeclAttribute S D AL) in
  Quiet D D' \/ Attaches S AL D D'.
Proof.
  intros AL D'. subst D'. unfold handleDeclAttribute; simpl.
  assert (Hatt : forall E0,
             Attaches S AL D
               (addAttr (mkAttr loc false (SYCLIntelNumBanksAttr E0))
                        (numBanksBase D))).
  { intros E0. exists (numBanksBase D), (SYCLIntelNumBanksAttr E0).
    split; [apply Quiet_numBanksBase|]. split; [reflexivity|].
    split; [apply FitsStore_numBanksBase|reflexivity]. }
  unfold AddSYCLIntelNumBanksAttr. fold (numBanksBase D).
  destruct (negb (isValueDependent E));
    [destruct (VerifyIntegerConstantExpression E) as [ds|[E' v]]|];
    split_ifs; try unchanged; right; apply Hatt.
Qed.

Lemma num_simd_shape S D loc E :
  let AL := mkParsedAttr loc (NumSimdWorkItemsArgs E) in
  let D' := fst (handleDeclAttribute S D AL) in
  Quiet D D' \/ Attaches S AL D D'.
Proof.
  intros AL D'. subst D'. unfold handleDeclAttribute; simpl.
  unfold AddSYCLIntelNumSimdWorkItemsAttr.
  destruct (negb (isValueDependent E));
    [destruct (VerifyIntegerConstantExpression E) as [ds|[E' v]]|];
    repeat match goal with
           | |- context [if ?c then _ else _] => destruct c eqn:?
           | |- context [match ?c with Some _ => _ | None => _ end] =>
               destruct c eqn:?
           | |- context [let '(_, _) := ?c in _] => destruct c as [[? ?] ?]
           end; try unchanged; attached D.
Qed.

Ltac split_matches :=
  repeat match goal with
         | |- context [if ?c then _ else _] => destruct c eqn:?
         | |- context [match ?c with Some _ => _ | None => _ end] =>
             destruct c eqn:?
         | |- context [let '(_, _) := ?c in _] => destruct c as [? ?] eqn:?
         | |- context [match ?c with (_, _) => _ end] =>
             destruct c as [? ?] eqn:?
         end.

Lemma max_work_group_size_shape S D loc X Y Z :
  let AL := mkParsedAttr loc (MaxWorkGroupSizeArgs X Y Z) in
  let D' := fst (handleDeclAttribute S D AL) in
  Quiet D D' \/ Attaches S AL D D'.
Proof.
  intros AL D'. subst D'. unfold handleDeclAttribute; simpl.
  unfold AddSYCLIntelMaxWorkGroupSizeAttr.
  split_matches; try unchanged; attached D.
Qed.

Lemma reqd_work_group_size_add_shape S D loc X Y Z :
  let AL := mkParsedAttr loc (ReqdWorkGroupSizeArgs []) in
  let D' := fst (AddSYCLReqdWorkGroupSizeAttr S D (commonInfo AL) X Y Z) in
  Quiet D D' \/
  exists Q data,
    Quiet D Q /\ kindOf data = AT_SYCLReqdWorkGroupSize /\
    D' = addAttr (mkAttr loc false data) Q.
Proof.
  intros AL D'. subst D'. unfold AddSYCLReqdWorkGroupSizeAttr.
  split_matches; try unchanged;
    right; eexists D, _; simpl; (split; [apply QuietRefl|]);
    (split; [|reflexivity]); reflexivity.
Qed.

Lemma work_group_size_shape D loc args :
  let D' := fst (handleWorkGroupSize D (mkCI loc AT_SYCLReqdWorkGroupSize) args) in
  D' = D \/
  exists data,
    kindOf data = AT_ReqdWorkGroupSize /\ D' = addAttr (mkAttr loc false data) D.
Proof.
  intros D'. subst D'. unfold handleWorkGroupSize.
  destruct args as [|E0 [|E1 [|E2 [|E3 l]]]]; try (now left).
  destruct (checkWorkGroupSizes _ 0 [E0; E1; E2]) as [[[|X [|Y [|Z [|W l]]]]|] ds];
    try (now left).
  right. eexists. split; [|reflexivity]. reflexivity.
Qed.

Lemma reqd_work_group_size_shape S D loc args :
  let AL := mkParsedAttr loc (ReqdWorkGroupSizeArgs args) in
  let D' := fst (handleDeclAttribute S D AL) in
  Quiet D D' \/ Attaches S AL D D'.
Proof.
  intros AL D'. subst D'. unfold handleDeclAttribute; simpl.
  unfold handleReqdWorkGroupSize, Attaches, semanticKind, isSYCL. simpl parsedArgs.
  destruct (SYCLIsDevice S || SYCLIsHost S).
  - unfold handleSYCLReqdWorkGroupSize.
    assert (H : forall X Y Z,
               Quiet D (fst (AddSYCLReqdWorkGroupSizeAttr S D
                               (mkCI loc AT_SYCLReqdWorkGroupSize) X Y Z)) \/
               exists Q data,
                 Quiet D Q /\ kindOf data = AT_SYCLReqdWorkGroupSize /\
                 FitsStore AT_SYCLReqdWorkGroupSize Q /\
                 fst (AddSYCLReqdWorkGroupSizeAttr S D
                        (mkCI loc AT_SYCLReqdWorkGroupSize) X Y Z) =
                   addAttr (mkAttr loc false data) Q).
    { intros X Y Z.
      destruct (reqd_work_group_size_add_shape S D loc X Y Z)
        as [H|[Q [data [HQ [Hk HD]]]]]; [now left|right].
      exists Q, data. repeat split; assumption. }
    destruct args as [|X [|Y [|Z [|W l]]]]; try apply H; unchanged.
  - destruct (work_group_size_shape D loc args) as [H|[data [Hk H]]];
      unfold commonInfo, parsedKind; simpl; rewrite H.
    + left. apply QuietRefl.
    + right. exists D, data. repeat split; auto using QuietRefl.
Qed.

Lemma memory_shape S D loc Kind :
  let AL := mkParsedAttr loc (MemoryArgs Kind) in
  let D' := fst (handleDeclAttribute S D AL) in
  Quiet D D' \/ Attaches S AL D D'.
Proof.
  intros AL D'. subst D'. unfold handleDeclAttribute; simpl.
  unfold handleSYCLIntelMemoryAttr.
  destruct Kind as [Kind|]; [|unchanged].
  destruct (getAttr AT_SYCLIntelMemory D) as [MA|] eqn:HMA.
  - destruct (negb (isImplicit MA)) eqn:Hi.
    + destruct (attrData MA); split_matches; unchanged.
    + apply negb_false_iff in Hi. rewrite CheckValid_dropAttr.
      destruct (SYCLIsDevice S && CheckValidFPGAMemoryAttributesVar D).
      * left. simpl.
        apply (QuietDrop AT_SYCLIntelMemory MA);
          [now left|exact HMA|exact Hi|apply QuietRefl].
      * right. exists (dropAttr AT_SYCLIntelMemory D), (SYCLIntelMemoryAttr Kind).
        split; [apply (QuietDrop AT_SYCLIntelMemory MA);
                  [now left|exact HMA|exact Hi|apply QuietRefl]|].
        split; [reflexivity|]. split; [|reflexivity].
        simpl. apply getAttr_dropAttr_same.
  - destruct (SYCLIsDevice S && CheckValidFPGAMemoryAttributesVar D);
      [unchanged|].
    right. exists D, (SYCLIntelMemoryAttr Kind). simpl.
    repeat split; auto using QuietRefl.
Qed.

Lemma register_shape S D loc :
  let AL := mkParsedAttr loc RegisterArgs in
  let D' := fst (handleDeclAttribute S D AL) in
  Quiet D D' \/ Attaches S AL D D'.
Proof.
  intros AL D'. subst D'. unfold handleDeclAttribute; simpl.
  unfold handleSYCLIntelRegisterAttr.
  destruct (getAttr AT_SYCLIntelRegister D) as [Ex|] eqn:HEx.
  - destruct (negb (isImplicit Ex)) eqn:Hi; [unchanged|].
    apply negb_false_iff in Hi.
    split_matches; [unchanged|].
    right. exists D, SYCLIntelRegisterAttr.
    split; [apply QuietRefl|]. split; [reflexivity|]. split; [|reflexivity].
    intros Ex' H. change (getAttr AT_SYCLIntelRegister D = Some Ex') in H.
    congruence.
  - split_matches; [unchanged|].
    right. exists D, SYCLIntelRegisterAttr.
    split; [apply QuietRefl|]. split; [reflexivity|]. split; [|reflexivity].
    intros Ex' H. change (getAttr AT_SYCLIntelRegister D = Some Ex') in H.
    congruence.
Qed.

Lemma bank_bits_add_shape S D loc Exprs :
  let AL := mkParsedAttr loc (BankBitsArgs Exprs) in
  let D' := fst (AddSYCLIntelBankBitsAttr S D (commonInfo AL) Exprs) in
  Quiet D D' \/ Attaches S AL D D'.
Proof.
  intros AL D'. subst D'. unfold AddSYCLIntelBankBitsAttr.
  destruct (convertBankBitsArgs (commonInfo AL) Exprs)
    as [ds|[[Args Values] dep]]; [unchanged|].
  destruct (negb dep && (1 <? Z.of_nat (length Values)) &&
            negb (listIsConsecutive Values)); [unchanged|].
  destruct (getAttr AT_SYCLIntelNumBanks D) as [NBA|] eqn:HNBA.
  - split_matches; try unchanged; attached (addImplicitMemory D).
  - rewrite CheckValid_addAttr.
    destruct (SYCLIsDevice S && CheckValidFPGAMemoryAttributesVar D).
    + left. simpl. eapply QuietSynth; eauto using QuietRefl.
    + right. eexists _, _. simpl.
      split; [|split; [|split; [|reflexivity]]]; [|reflexivity|exact I].
      eapply QuietSynth; [exact HNBA|]. apply QuietMemory, QuietRefl.
Qed.

Lemma bank_bits_shape S D loc Exprs :
  let AL := mkParsedAttr loc (BankBitsArgs Exprs) in
  let D' := fst (handleDeclAttribute S D AL) in
  Quiet D D' \/ Attaches S AL D D'.
Proof.
  intros AL D'. subst D'. unfold handleDeclAttribute; simpl.
  unfold handleSYCLIntelBankBitsAttr.
  destruct (length Exprs <? 1)%nat; [unchanged|].
  pose proof (bank_bits_add_shape S D loc Exprs) as H. cbv zeta in H.
  fold AL in H.
  destruct (AddSYCLIntelBankBitsAttr S D (commonInfo AL) Exprs) as [D1 ds].
  exact H.
Qed.

(** A handler leaves the declaration as it is up to implicit attributes, or
    it appends the arriving attribute to such a declaration. *)
Lemma handler_shape S D AL :
  Quiet D (fst (handleDeclAttribute S D AL)) \/
  Attaches S AL D (fst (handleDeclAttribute S D AL)).
Proof.
  destruct AL as [loc A]. destruct A.
  - apply reqd_work_group_size_shape.
  - apply max_work_group_size_shape.
  - apply num_simd_shape.
  - apply memory_shape.
  - apply register_shape.
  - apply bank_width_shape.
  - apply num_banks_shape.
  - apply bank_bits_shape.
Qed.

(** ** The invariant of the attribute store *)

(** What holds of the attributes of a declaration the handlers have worked
    on: at most one [fpga_memory] and at most one [fpga_register]; the only
    implicit attributes are the default memory and a synthesized [numbanks];
    and a synthesized [numbanks] is the only [numbanks]. *)
Definition StoreInvariant (D : Decl) : Prop :=
  (length (attrsOfKind AT_SYCLIntelMemory D) <= 1)%nat /\
  (length (attrsOfKind AT_SYCLIntelRegister D) <= 1)%nat /\
  (forall A, In A (attrs D) -> isImplicit A = true ->
             A = ImplicitDefaultMemory \/ exists n, A = ImplicitNumBanks n) /\
  (forall A, In A (attrs D) -> isa AT_SYCLIntelNumBanks A = true ->
             isImplicit A = true -> attrsOfKind AT_SYCLIntelNumBanks D = [A]).

Lemma attrsOfKind_dropAttr_other K K' D :
  K <> K' -> attrsOfKind K (dropAttr K' D) = attrsOfKind K D.
Proof.
  intros Hne. unfold attrsOfKind, dropAttr; simpl.
  induction (attrs D) as [|A l IH]; simpl; [reflexivity|].
  destruct (isa K' A) eqn:HA; simpl.
  - rewrite (isa_other K' K A) by congruence. exact IH.
  - destruct (isa K A); now rewrite IH.
Qed.

Lemma attrsOfKind_addAttr_other K A D :
  isa K A = false -> attrsOfKind K (addAttr A D) = attrsOfKind K D.
Proof. intros H. rewrite attrsOfKind_addAttr, H. apply app_nil_r. Qed.

Lemma In_dropAttr A K D : In A (attrs (dropAttr K D)) -> In A (attrs D).
Proof. unfold dropAttr; simpl. intros H. now apply filter_In in H. Qed.

Lemma In_addAttr A B D : In A (attrs (addAttr B D)) -> In A (attrs D) \/ A = B.
Proof.
  unfold addAttr; simpl. intros H. apply in_app_or in H.
  destruct H as [H|[H|[]]]; auto.
Qed.

Lemma explicitAttrs_addAttr A D :
  explicitAttrs (addAttr A D) =
  explicitAttrs D ++ (if isImplicit A then [] else [A]).
Proof.
  unfold explicitAttrs, addAttr; simpl. rewrite filter_app. simpl.
  now destruct (isImplicit A).
Qed.

Lemma explicitAttrs_addImplicitMemory D :
  explicitAttrs (addImplicitMemory D) = explicitAttrs D.
Proof.
  unfold addImplicitMemory. destruct (hasAttr AT_SYCLIntelMemory D);
    [reflexivity|]. rewrite explicitAttrs_addAttr. apply app_nil_r.
Qed.

(** Dropping a kind whose attributes are all implicit keeps the user-written
    attributes. *)
Lemma explicitAttrs_dropAttr K D :
  Forall (fun A => isImplicit A = true) (attrsOfKind K D) ->
  explicitAttrs (dropAttr K D) = explicitAttrs D.
Proof.
  unfold explicitAttrs, attrsOfKind, dropAttr; simpl.
  induction (attrs D) as [|A l IH]; simpl; [reflexivity|].
  destruct (isa K A) eqn:HA; simpl; intros H.
  - inversion H as [|? ? HiA Hl]; subst. rewrite HiA. simpl. now apply IH.
  - destruct (isImplicit A); simpl; now rewrite IH.
Qed.

Lemma attrsOfKind_In K D A : In A (attrsOfKind K D) -> In A (attrs D) /\ isa K A = true.
Proof. unfold attrsOfKind. apply filter_In. Qed.

Lemma getAttr_In K D A : getAttr K D = Some A -> In A (attrs D) /\ isa K A = true.
Proof. unfold getAttr. apply find_some. Qed.

Lemma StoreInvariant_addImplicitMemory D :
  StoreInvariant D -> StoreInvariant (addImplicitMemory D).
Proof.
  intros [H1 [H2 [H3 H4]]]. unfold addImplicitMemory, hasAttr.
  destruct (getAttr AT_SYCLIntelMemory D) as [MA|] eqn:HMA;
    [repeat split; assumption|].
  repeat split.
  - rewrite attrsOfKind_addAttr, (getAttr_None_attrsOfKind _ _ HMA). simpl. lia.
  - now rewrite attrsOfKind_addAttr_other by reflexivity.
  - intros A HA Hi. apply In_addAttr in HA. destruct HA as [HA|HA]; auto.
  - intros A HA Hk Hi. rewrite attrsOfKind_addAttr_other by reflexivity.
    apply In_addAttr in HA. destruct HA as [HA|HA]; [now apply H4|].
    subst. discriminate Hk.
Qed.

Lemma StoreInvariant_dropAttr K D :
  K = AT_SYCLIntelMemory \/ K = AT_SYCLIntelNumBanks ->
  StoreInvariant D -> StoreInvariant (dropAttr K D).
Proof.
  intros HK [H1 [H2 [H3 H4]]]. repeat split.
  - destruct HK; subst.
    + rewrite attrsOfKind_dropAttr_same. simpl. lia.
    + now rewrite attrsOfKind_dropAttr_other by discriminate.
  - rewrite attrsOfKind_dropAttr_other; [assumption|].
    destruct HK; subst; discriminate.
  - intros A HA. apply H3. now apply In_dropAttr in HA.
  - intros A HA Hk Hi. destruct HK; subst.
    + rewrite attrsOfKind_dropAttr_other by discriminate.
      apply H4; auto. now apply In_dropAttr in HA.
    + exfalso.
      assert (Hin : In A (attrsOfKind AT_SYCLIntelNumBanks
                            (dropAttr AT_SYCLIntelNumBanks D))).
      { apply filter_In. now split. }
      now rewrite attrsOfKind_dropAttr_same in Hin.
Qed.

Lemma StoreInvariant_synth n D :
  getAttr AT_SYCLIntelNumBanks D = None ->
  StoreInvariant D -> StoreInvariant (addAttr (ImplicitNumBanks n) D).
Proof.
  intros Hnone [H1 [H2 [H3 H4]]]. repeat split.
  - now rewrite attrsOfKind_addAttr_other by reflexivity.
  - now rewrite attrsOfKind_addAttr_other by reflexivity.
  - intros A HA Hi. apply In_addAttr in HA. destruct HA as [HA|HA]; eauto.
  - intros A HA Hk Hi.
    rewrite attrsOfKind_addAttr, (getAttr_None_attrsOfKind _ _ Hnone). simpl.
    apply In_addAttr in HA. destruct HA as [HA|HA]; [|now subst].
    exfalso.
    assert (Hin : In A (attrsOfKind AT_SYCLIntelNumBanks D))
      by (apply filter_In; now split).
    now rewrite (getAttr_None_attrsOfKind _ _ Hnone) in Hin.
Qed.

(** Under the invariant, the attributes of a kind whose first one is implicit
    are all implicit (there is only that one). *)
Lemma implicit_first_alone K Ex D :
  K = AT_SYCLIntelMemory \/ K = AT_SYCLIntelNumBanks ->
  StoreInvariant D -> getAttr K D = Some Ex -> isImplicit Ex = true ->
  attrsOfKind K D = [Ex].
Proof.
  intros HK [H1 [_ [_ H4]]] Hget Hi.
  destruct (getAttr_In _ _ _ Hget) as [Hin Hk].
  destruct HK; subst.
  - destruct (getAttr_Some_attrsOfKind _ _ _ Hget) as [l Hl].
    rewrite Hl in *. destruct l; [reflexivity|simpl in H1; lia].
  - now apply H4.
Qed.

Lemma Quiet_keeps D D' :
  Quiet D D' -> StoreInvariant D ->
  StoreInvariant D' /\ explicitAttrs D' = explicitAttrs D.
Proof.
  induction 1 as [D|D D' _ IH|K Ex D D' HK Hget Hi _ IH|n D D' Hnone _ IH];
    intros HD.
  - now split.
  - destruct (IH (StoreInvariant_addImplicitMemory D HD)) as [H1 H2].
    split; [exact H1|]. now rewrite H2, explicitAttrs_addImplicitMemory.
  - destruct (IH (StoreInvariant_dropAttr K D HK HD)) as [H1 H2].
    split; [exact H1|]. rewrite H2. apply explicitAttrs_dropAttr.
    rewrite (implicit_first_alone K Ex D HK HD Hget Hi). now constructor.
  - destruct (IH (StoreInvariant_synth n D Hnone HD)) as [H1 H2].
    split; [exact H1|]. rewrite H2, explicitAttrs_addAttr. apply app_nil_r.
Qed.

Lemma StoreInvariant_attach K loc data Q :
  kindOf data = K -> FitsStore K Q -> StoreInvariant Q ->
  StoreInvariant (addAttr (mkAttr loc false data) Q).
Proof.
  intros Hk Hfit [H1 [H2 [H3 H4]]].
  assert (Hisa : forall K', isa K' (mkAttr loc false data) = AttrKind_eqb K K').
  { intros K'. unfold isa; simpl. now rewrite Hk. }
  repeat split.
  - rewrite attrsOfKind_addAttr, Hisa.
    destruct (AttrKind_eqb K AT_SYCLIntelMemory) eqn:HK.
    + apply AttrKind_eqb_eq in HK. subst K. rewrite HK in Hfit. simpl in Hfit.
      rewrite (getAttr_None_attrsOfKind _ _ Hfit). simpl. lia.
    + now rewrite app_nil_r.
  - rewrite attrsOfKind_addAttr, Hisa.
    destruct (AttrKind_eqb K AT_SYCLIntelRegister) eqn:HK.
    + apply AttrKind_eqb_eq in HK. subst K. rewrite HK in Hfit. simpl in Hfit.
      destruct (getAttr AT_SYCLIntelRegister Q) as [Ex|] eqn:HEx.
      * exfalso. destruct (getAttr_In _ _ _ HEx) as [Hin Hreg].
        destruct (H3 Ex Hin (Hfit Ex eq_refl)) as [->|[n ->]]; discriminate Hreg.
      * rewrite (getAttr_None_attrsOfKind _ _ HEx). simpl. lia.
    + now rewrite app_nil_r.
  - intros A HA Hi. apply In_addAttr in HA. destruct HA as [HA|HA]; auto.
    subst. discriminate Hi.
  - intros A HA Hnb Hi. apply In_addAttr in HA.
    destruct HA as [HA|HA]; [|subst; discriminate Hi].
    pose proof (H4 A HA Hnb Hi) as Hone.
    rewrite attrsOfKind_addAttr, Hisa, Hone.
    destruct (AttrKind_eqb K AT_SYCLIntelNumBanks) eqn:HK; [|reflexivity].
    exfalso. apply AttrKind_eqb_eq in HK. subst K. rewrite HK in Hfit.
    simpl in Hfit.
    assert (Hget : getAttr AT_SYCLIntelNumBanks Q = Some A).
    { destruct (getAttr AT_SYCLIntelNumBanks Q) as [B|] eqn:HB.
      - destruct (getAttr_Some_attrsOfKind _ _ _ HB) as [l Hl]. congruence.
      - rewrite (getAttr_None_attrsOfKind _ _ HB) in Hone. discriminate. }
    rewrite (Hfit A Hget) in Hi. discriminate.
Qed.

Lemma handler_keeps_invariant S D AL :
  StoreInvariant D -> StoreInvariant (fst (handleDeclAttribute S D AL)).
Proof.
  intros HD.
  destruct (handler_shape S D AL) as [H|[Q [data [HQ [Hk [Hfit HD']]]]]].
  - now apply (Quiet_keeps D).
  - rewrite HD'. apply (StoreInvariant_attach (semanticKind S AL)); auto.
    now apply (Quiet_keeps D).
Qed.

Lemma process_keeps_invariant S D AL :
  StoreInvariant D -> StoreInvariant (fst (ProcessDeclAttribute S D AL)).
Proof.
  intros HD. unfold ProcessDeclAttribute.
  destruct (checkCommonAttributeFeatures D AL) as [rejected ds].
  destruct rejected; [exact HD|]. now apply handler_keeps_invariant.
Qed.

(** X3: the handlers keep the invariant of the attribute store: however
    many attributes are processed on a declaration, in whatever order and in
    whatever compilation mode, it never carries more than one [fpga_memory]
    or more than one [fpga_register], its implicit attributes are only the
    default memory and a synthesized [numbanks], and a synthesized [numbanks]
    never stands beside another [numbanks].  (Stated for the argument lists
    on which the C++ of the [bank_bits] handler is defined.) *)
Theorem handlers_keep_store_invariant
    (S : Sema) (D : Decl) (AttrList : list ParsedAttr)
    (Hdef : forallb definedArgs AttrList = true)
    (HD : StoreInvariant D) :
  StoreInvariant (ProcessDeclAttributeList S D AttrList).
Proof.
  clear Hdef. unfold ProcessDeclAttributeList. revert D HD.
  induction AttrList as [|AL ALs IH]; intros D HD; simpl; [exact HD|].
  apply IH. now apply process_keeps_invariant.
Qed.

Lemma StoreInvariant_no_attrs D : attrs D = [] -> StoreInvariant D.
Proof.
  intros H. unfold StoreInvariant, attrsOfKind. rewrite H. simpl.
  repeat split; try lia; intros A [].
Defined.

(** X4: a handler never removes or alters a user-written attribute: on a
    declaration that satisfies the store invariant, the user-written
    attributes after handling one more attribute are those before, in the
    same order, followed by at most one new attribute, which is of the class
    the arriving attribute is turned into (for [reqd_work_group_size], the
    SYCL class in a SYCL compilation and the OpenCL class outside) and
    located where the arriving attribute was written.  (Stated for the
    arguments on which the C++ of the [bank_bits] handler is defined.) *)
Theorem handlers_keep_explicit_attributes
    (S : Sema) (D : Decl) (AL : ParsedAttr)
    (Hdef : definedArgs AL = true) (HD : StoreInvariant D) :
  let D' := fst (handleDeclAttribute S D AL) in
  explicitAttrs D' = explicitAttrs D \/
  exists data,
    kindOf data = semanticKind S AL /\
    explicitAttrs D' = explicitAttrs D ++ [mkAttr (parsedLoc AL) false data].
Proof.
  clear Hdef. intros D'. subst D'.
  destruct (handler_shape S D AL) as [H|[Q [data [HQ [Hk [Hfit HD']]]]]].
  - left. now apply (Quiet_keeps D).
  - right. exists data. split; [exact Hk|].
    rewrite HD', explicitAttrs_addAttr. simpl.
    now rewrite (proj2 (Quiet_keeps D Q HQ HD)).
Qed.

(** [bank_bits(0,1)], [numbanks(4)], [fpga_memory], [bankwidth(8)] and
    [reqd_work_group_size(2,2,2)] on a local variable. *)
Definition FiveAttributes : list ParsedAttr :=
  [mkParsedAttr 1%nat (BankBitsArgs [lit 2%nat 0; lit 3%nat 1]);
   mkParsedAttr 4%nat (NumBanksArgs (lit 5%nat 4));
   mkParsedAttr 6%nat (MemoryArgs (Some MemMLAB));
   mkParsedAttr 7%nat (BankWidthArgs (lit 8%nat 8));
   mkParsedAttr 9%nat
     (ReqdWorkGroupSizeArgs [lit 10%nat 2; lit 11%nat 2; lit 12%nat 2])].

Lemma handlers_keep_store_invariant_witness :
  StoreInvariant (ProcessDeclAttributeList DeviceSema LocalVar FiveAttributes) /\
  StoreInvariant (ProcessDeclAttributeList NonSYCLSema LocalVar FiveAttributes).
Proof.
  split.
  - exact (handlers_keep_store_invariant DeviceSema LocalVar FiveAttributes
             eq_refl (StoreInvariant_no_attrs LocalVar eq_refl)).
  - exact (handlers_keep_store_invariant NonSYCLSema LocalVar FiveAttributes
             eq_refl (StoreInvariant_no_attrs LocalVar eq_refl)).
Defined.

Lemma handlers_keep_explicit_attributes_witness :
  let D' := fst (handleDeclAttribute DeviceSema AfterBankBits01
                   (mkParsedAttr 4%nat (NumBanksArgs (lit 5%nat 4)))) in
  explicitAttrs D' = explicitAttrs AfterBankBits01 \/
  exists data,
    kindOf data = AT_SYCLIntelNumBanks /\
    explicitAttrs D' =
      explicitAttrs AfterBankBits01 ++ [mkAttr 4%nat false data].
Proof.
  apply (handlers_keep_explicit_attributes DeviceSema AfterBankBits01
           (mkParsedAttr 4%nat (NumBanksArgs (lit 5%nat 4))) eq_refl).
  unfold AfterBankBits01.
  apply (handler_keeps_invariant DeviceSema LocalVar
           (mkParsedAttr 1%nat (BankBitsArgs [lit 2%nat 0; lit 3%nat 1]))).
  apply StoreInvariant_no_attrs. reflexivity.
Defined.

(** ** [max_global_work_dim(0)] wants all work-group sizes to be one *)

(** Some specified size is not one. *)
Definition NotAllOne (vs : list Z) : Prop := Exists (fun v => v <> 1) vs.

Lemma NotAllOne_cons v vs : NotAllOne (v :: vs) <-> v <> 1 \/ NotAllOne vs.
Proof. apply Exists_cons. Qed.

Lemma NotAllOne_nil : NotAllOne [] <-> False.
Proof. apply Exists_nil. Qed.

Lemma InvalidWorkGroupSizeAttrs_spec MG mg X Y Z vs :
  ConstantSize MG mg -> DimValues ConstantSize X Y Z vs ->
  InvalidWorkGroupSizeAttrs MG X Y Z = true <-> mg = 0 /\ NotAllOne vs.
Proof.
  unfold ConstantSize. intros HMG HD. unfold InvalidWorkGroupSizeAttrs.
  rewrite HMG.
  destruct HD as [X x HX | X Y x y HX HY | X Y Z x y z HX HY HZ];
    rewrite HX; unfold stillDependent, asConstantExprOrNull, isNull, knownNotOne;
    try rewrite HY; try rewrite HZ; cbn [negb andb orb]; cbv iota;
    rewrite andb_true_iff, ?orb_true_iff, ?negb_true_iff, ?Z.eqb_eq, ?Z.eqb_neq,
      ?NotAllOne_cons, NotAllOne_nil; intuition discriminate.
Qed.

Lemma AreAllArgsOne_spec X Y Z vs :
  DimValues ConstantSize X Y Z vs ->
  AreAllArgsOne [Some X; Y; Z] = OneArgResult.NotEqualToOne <-> NotAllOne vs.
Proof.
  unfold ConstantSize. intros HD.
  destruct HD as [X x HX | X Y x y HX HY | X Y Z x y z HX HY HZ];
    cbn [AreAllArgsOne]; rewrite HX; try rewrite HY; try rewrite HZ;
    rewrite ?NotAllOne_cons, NotAllOne_nil;
    repeat match goal with
           | |- context [?a =? 1] => destruct (Z.eqb_spec a 1); cbn [negb]; cbv iota
           end; intuition (try discriminate; try congruence).
Qed.

(** X5: when the value of [max_global_work_dim] and every specified
    work-group size are known constants, the check made when a size attribute
    arrives ([InvalidWorkGroupSizeAttrs]) and the check made when
    [max_global_work_dim] arrives ([AreAllArgsOne]) agree: the first fires
    exactly when the value is 0 and some specified size is not 1, the second
    exactly when some specified size is not 1. *)
Theorem sizes_must_be_one_checks_agree
    (MG XDim : Expr) (YDim ZDim : option Expr) (mg : Z) (vs : list Z)
    (HMG : ConstantSize MG mg) (HD : DimValues ConstantSize XDim YDim ZDim vs) :
  (InvalidWorkGroupSizeAttrs MG XDim YDim ZDim = true <->
   mg = 0 /\ NotAllOne vs) /\
  (AreAllArgsOne [Some XDim; YDim; ZDim] = OneArgResult.NotEqualToOne <->
   NotAllOne vs).
Proof.
  split.
  - now apply InvalidWorkGroupSizeAttrs_spec.
  - now apply AreAllArgsOne_spec.
Qed.

Lemma ConstantSize_cst loc v : ConstantSize (cst loc v) v.
Proof. reflexivity. Defined.

Lemma sizes_must_be_one_checks_agree_witness :
  (InvalidWorkGroupSizeAttrs (cst 1%nat 0) (cst 2%nat 1) (Some (cst 3%nat 4)) None
     = true <-> 0 = 0 /\ NotAllOne [1; 4]) /\
  (AreAllArgsOne [Some (cst 2%nat 1); Some (cst 3%nat 4); None]
     = OneArgResult.NotEqualToOne <-> NotAllOne [1; 4]).
Proof.
  apply (sizes_must_be_one_checks_agree (cst 1%nat 0) (cst 2%nat 1)
           (Some (cst 3%nat 4)) None 0 [1; 4]).
  - apply ConstantSize_cst.
  - apply Dims2; apply ConstantSize_cst.
Defined.

(** X6: [max_global_work_dim] takes the values 0 to 3: a non-dependent
    integer argument outside this range is rejected with the range diagnostic
    at the argument and nothing is attached; a value from 1 to 3 on a
    declaration without [max_global_work_dim] is attached, converted to a
    constant, without a diagnostic. *)
Theorem max_global_work_dim_range
    (D : Decl) (CI : AttributeCommonInfo) (E : Expr) (v : Z)
    (HE : IntegerArg E v) :
  (v < 0 \/ 3 < v ->
   AddSYCLIntelMaxGlobalWorkDimAttr D CI E =
     (D, [err_attribute_argument_out_of_range (getExprLoc E) (ciKind CI) 0 3])) /\
  (1 <= v <= 3 -> getAttr AT_SYCLIntelMaxGlobalWorkDim D = None ->
   AddSYCLIntelMaxGlobalWorkDimAttr D CI E =
     (addAttr (mkAttr (ciLoc CI) false
                 (SYCLIntelMaxGlobalWorkDimAttr (converted E v))) D, [])).
Proof.
  destruct (IntegerArg_verify E v HE) as [Hdep Hver].
  unfold AddSYCLIntelMaxGlobalWorkDimAttr. rewrite Hdep, Hver. cbn [negb].
  cbv iota. split.
  - intros Hv.
    assert (H : (v <? 0) || (v >? 3) = true).
    { rewrite Z.gtb_ltb. apply orb_true_iff.
      destruct Hv; [left|right]; now apply Z.ltb_lt. }
    rewrite H. reflexivity.
  - intros Hv Hnone.
    assert (H : (v <? 0) || (v >? 3) = false).
    { rewrite Z.gtb_ltb. apply orb_false_iff. split; apply Z.ltb_ge; lia. }
    rewrite H, Hnone.
    destruct (Z.eqb_spec v 0); [lia|reflexivity].
Qed.

Lemma max_global_work_dim_range_witness :
  AddSYCLIntelMaxGlobalWorkDimAttr KernelFunction
    (mkCI 1%nat AT_SYCLIntelMaxGlobalWorkDim) (lit 2%nat 4) =
    (KernelFunction,
     [err_attribute_argument_out_of_range 2%nat AT_SYCLIntelMaxGlobalWorkDim
        0 3]) /\
  AddSYCLIntelMaxGlobalWorkDimAttr KernelFunction
    (mkCI 1%nat AT_SYCLIntelMaxGlobalWorkDim) (lit 2%nat 3) =
    (addAttr (mkAttr 1%nat false (SYCLIntelMaxGlobalWorkDimAttr (cst 2%nat 3)))
       KernelFunction, []).
Proof.
  split.
  - apply (proj1 (max_global_work_dim_range KernelFunction
                    (mkCI 1%nat AT_SYCLIntelMaxGlobalWorkDim) (lit 2%nat 4) 4
                    eq_refl)).
    right. lia.
  - apply (proj2 (max_global_work_dim_range KernelFunction
                    (mkCI 1%nat AT_SYCLIntelMaxGlobalWorkDim) (lit 2%nat 3) 3
                    eq_refl)); [lia|reflexivity].
Defined.

Lemma KnownSize_ConstantSize P Q :
  (forall E v, P E v -> Q E v) ->
  forall X Y Z vs, DimValues P X Y Z vs -> DimValues Q X Y Z vs.
Proof. intros H X Y Z vs HD. destruct HD; constructor; auto. Qed.

Lemma KnownSize_constant E v : KnownSize E v -> ConstantSize E v.
Proof. now intros [H _]. Qed.

(** The arguments of [reqd_work_group_size] as the handler converts them. *)
Lemma CheckAndConvert_dims CI X Y Z vs :
  DimValues ArrivingSize X Y Z vs ->
  exists X' Y' Z',
    CheckAndConvertArg CI X = (Some X', []) /\
    CheckAndConvertOptArg CI Y = (Some Y', []) /\
    CheckAndConvertOptArg CI Z = (Some Z', []) /\
    DimValues KnownSize X' Y' Z' vs.
Proof.
  intros HR.
  destruct HR as [X x HX' | X Y x y HX' HY' | X Y Z x y z HX' HY' HZ'].
  - exists (converted X x), None, None.
    rewrite (CheckAndConvertArg_ok CI X x HX').
    repeat split; try reflexivity.
    constructor. now apply converted_KnownSize.
  - exists (converted X x), (Some (converted Y y)), None.
    unfold CheckAndConvertOptArg.
    rewrite (CheckAndConvertArg_ok CI X x HX'),
            (CheckAndConvertArg_ok CI Y y HY').
    repeat split; try reflexivity.
    constructor; now apply converted_KnownSize.
  - exists (converted X x), (Some (converted Y y)), (Some (converted Z z)).
    unfold CheckAndConvertOptArg.
    rewrite (CheckAndConvertArg_ok CI X x HX'),
            (CheckAndConvertArg_ok CI Y y HY'),
            (CheckAndConvertArg_ok CI Z z HZ').
    repeat split; try reflexivity.
    constructor; now apply converted_KnownSize.
Qed.

(** X7: [max_global_work_dim(0)] and a [max_work_group_size] whose known
    sizes are not all one are never both attached by the handlers, whichever
    arrives second: the arriving [max_work_group_size] is rejected by a check,
    and the arriving [max_global_work_dim(0)] is rejected with the diagnostic
    located at the [max_work_group_size] already present. *)
Theorem max_global_work_dim_zero_excludes_sizes
    (S : Sema) (D : Decl) (CI : AttributeCommonInfo) :
  (forall MGA MG XDim YDim ZDim x y z,
     getAttr AT_SYCLIntelMaxGlobalWorkDim D = Some MGA ->
     attrData MGA = SYCLIntelMaxGlobalWorkDimAttr MG ->
     ConstantSize MG 0 ->
     ArrivingSize XDim x -> ArrivingSize YDim y -> ArrivingSize ZDim z ->
     NotAllOne [x; y; z] ->
     fst (AddSYCLIntelMaxWorkGroupSizeAttr S D CI XDim YDim ZDim) = D /\
     RejectedByCheck (snd (AddSYCLIntelMaxWorkGroupSizeAttr S D CI XDim YDim ZDim))) /\
  (forall MA MX MY MZ vs E,
     getAttr AT_SYCLIntelMaxWorkGroupSize D = Some MA ->
     attrData MA = SYCLIntelMaxWorkGroupSizeAttr MX MY MZ ->
     DimValues ConstantSize MX (Some MY) (Some MZ) vs ->
     NotAllOne vs ->
     IntegerArg E 0 ->
     (forall Ex, getAttr AT_SYCLIntelMaxGlobalWorkDim D = Some Ex ->
                 getConstantValue Ex = None) ->
     AddSYCLIntelMaxGlobalWorkDimAttr D CI E =
       (D, [Plain (Diag (getLoc MA) err_sycl_x_y_z_arguments_must_be_one
                        [ArgAttr AT_SYCLIntelMaxWorkGroupSize;
                         ArgAttr (ciKind CI)])])).
Proof.
  split.
  - intros MGA MG X Y Z x y z Hget Hdata HMG HX HY HZ Hnot.
    assert (H : exists ds,
               AddSYCLIntelMaxWorkGroupSizeAttr S D CI X Y Z = (D, ds) /\
               RejectedByCheck ds).
    { unfold AddSYCLIntelMaxWorkGroupSizeAttr.
      rewrite (CheckAndConvertArg_ok CI X x HX),
              (CheckAndConvertArg_ok CI Y y HY),
              (CheckAndConvertArg_ok CI Z z HZ).
      assert (Hinv : InvalidWorkGroupSizeAttrs MG (converted X x)
                       (Some (converted Y y)) (Some (converted Z z)) = true).
      { apply (InvalidWorkGroupSizeAttrs_spec MG 0 _ _ _ [x; y; z] HMG).
        - constructor; reflexivity.
        - now split. }
      rewrite Hget. unfold getValue. rewrite Hdata, Hinv.
      match goal with
      | |- context [match ?c with Some _ => _ | None => _ end] => destruct c
      end; eexists; (split; [reflexivity|]); unfold RejectedByCheck;
        eexists; (split; [left; reflexivity|reflexivity]). }
    destruct H as [ds [Hrun Hds]]. rewrite Hrun. now split.
  - intros MA MX MY MZ vs E Hget Hdata Hdims Hnot HE Hnodup.
    destruct (IntegerArg_verify E 0 HE) as [Hdep Hver].
    unfold AddSYCLIntelMaxGlobalWorkDimAttr. rewrite Hdep, Hver.
    cbn [negb Z.ltb Z.gtb Z.compare orb Z.eqb]. cbv iota.
    assert (Hone : checkWorkGroupSizesAreOne D (ciKind CI) =
                   (true, [Diag (getLoc MA) err_sycl_x_y_z_arguments_must_be_one
                                [ArgAttr AT_SYCLIntelMaxWorkGroupSize;
                                 ArgAttr (ciKind CI)]])).
    { unfold checkWorkGroupSizesAreOne, checkWorkGroupSizeAttrExpr.
      rewrite Hget. unfold getDims. rewrite Hdata.
      rewrite (proj2 (AreAllArgsOne_spec MX (Some MY) (Some MZ) vs Hdims) Hnot).
      reflexivity. }
    rewrite Hone.
    destruct (getAttr AT_SYCLIntelMaxGlobalWorkDim D) as [Ex|] eqn:HEx;
      [rewrite (Hnodup Ex eq_refl)|]; reflexivity.
Qed.

(** A kernel function with [max_global_work_dim(0)], and one with
    [max_work_group_size(2,2,2)]. *)
Definition Dim0 : Attr :=
  mkAttr 1%nat false (SYCLIntelMaxGlobalWorkDimAttr (cst 2%nat 0)).

Definition WithDim0 : Decl := addAttr Dim0 KernelFunction.

Lemma NotAllOne_222 : NotAllOne [2; 2; 2].
Proof. apply Exists_cons_hd. discriminate. Defined.

Lemma max_global_work_dim_zero_excludes_sizes_witness :
  (fst (AddSYCLIntelMaxWorkGroupSizeAttr DeviceSema WithDim0
          (mkCI 5%nat AT_SYCLIntelMaxWorkGroupSize)
          (lit 6%nat 2) (lit 7%nat 2) (lit 8%nat 2)) = WithDim0 /\
   RejectedByCheck
     (snd (AddSYCLIntelMaxWorkGroupSizeAttr DeviceSema WithDim0
             (mkCI 5%nat AT_SYCLIntelMaxWorkGroupSize)
             (lit 6%nat 2) (lit 7%nat 2) (lit 8%nat 2)))) /\
  AddSYCLIntelMaxGlobalWorkDimAttr WithMax222
    (mkCI 5%nat AT_SYCLIntelMaxGlobalWorkDim) (lit 6%nat 0) =
    (WithMax222,
     [Plain (Diag 1%nat err_sycl_x_y_z_arguments_must_be_one
                  [ArgAttr AT_SYCLIntelMaxWorkGroupSize;
                   ArgAttr AT_SYCLIntelMaxGlobalWorkDim])]).
Proof.
  split.
  - apply (proj1 (max_global_work_dim_zero_excludes_sizes DeviceSema WithDim0
                    (mkCI 5%nat AT_SYCLIntelMaxWorkGroupSize))
             Dim0 (cst 2%nat 0) (lit 6%nat 2) (lit 7%nat 2) (lit 8%nat 2) 2 2 2).
    + reflexivity.
    + reflexivity.
    + reflexivity.
    + split; [reflexivity|exact SizeValue_2].
    + split; [reflexivity|exact SizeValue_2].
    + split; [reflexivity|exact SizeValue_2].
    + exact NotAllOne_222.
  - apply (proj2 (max_global_work_dim_zero_excludes_sizes DeviceSema WithMax222
                    (mkCI 5%nat AT_SYCLIntelMaxGlobalWorkDim))
             Max222 (cst 2%nat 2) (cst 3%nat 2) (cst 4%nat 2) [2; 2; 2]
             (lit 6%nat 0)).
    + reflexivity.
    + reflexivity.
    + constructor; reflexivity.
    + exact NotAllOne_222.
    + reflexivity.
    + intros Ex H. discriminate H.
Defined.

(** X8: a [reqd_work_group_size] whose sizes are not all one, arriving on a
    declaration with [max_global_work_dim(0)] and no other work-group-size
    attribute, is diagnosed by [AddSYCLReqdWorkGroupSizeAttr] and attached
    all the same (the handler does not return after the diagnostic), whereas
    [MergeSYCLReqdWorkGroupSizeAttr] diagnoses the same attribute and drops
    it. *)
Theorem reqd_size_not_one_is_diagnosed_and_attached
    (S : Sema) (D : Decl) (CI : AttributeCommonInfo)
    (MGA : Attr) (MG XDim : Expr) (YDim ZDim : option Expr) (vs : list Z)
    (Hget : getAttr AT_SYCLIntelMaxGlobalWorkDim D = Some MGA)
    (Hdata : attrData MGA = SYCLIntelMaxGlobalWorkDimAttr MG)
    (HMG : ConstantSize MG 0)
    (Hargs : DimValues ArrivingSize XDim YDim ZDim vs)
    (Hnot : NotAllOne vs)
    (Hmax : getAttr AT_SYCLIntelMaxWorkGroupSize D = None)
    (Hsimd : getAttr AT_SYCLIntelNumSimdWorkItems D = None)
    (Hreqd : getAttr AT_SYCLReqdWorkGroupSize D = None) :
  exists XC YC ZC,
    DimValues KnownSize XC YC ZC vs /\
    AddSYCLReqdWorkGroupSizeAttr S D CI XDim YDim ZDim =
      (addAttr (mkAttr (ciLoc CI) false (SYCLReqdWorkGroupSizeAttr XC YC ZC)) D,
       [Diag (ciLoc CI) err_sycl_x_y_z_arguments_must_be_one
             [ArgAttr (ciKind CI); ArgAttr AT_SYCLIntelMaxGlobalWorkDim]]) /\
    MergeSYCLReqdWorkGroupSizeAttr S D
      (mkAttr (ciLoc CI) false (SYCLReqdWorkGroupSizeAttr XC YC ZC)) =
      (None,
       [Diag (ciLoc CI) err_sycl_x_y_z_arguments_must_be_one
             [ArgAttr AT_SYCLReqdWorkGroupSize;
              ArgAttr AT_SYCLIntelMaxGlobalWorkDim]]).
Proof.
  destruct (CheckAndConvert_dims CI XDim YDim ZDim vs Hargs)
    as [XC [YC [ZC [HcX [HcY [HcZ HK]]]]]].
  exists XC, YC, ZC. split; [exact HK|].
  assert (Hinv : InvalidWorkGroupSizeAttrs MG XC YC ZC = true).
  { apply (InvalidWorkGroupSizeAttrs_spec MG 0 XC YC ZC vs HMG).
    - exact (KnownSize_ConstantSize _ _ KnownSize_constant _ _ _ _ HK).
    - now split. }
  split.
  - unfold AddSYCLReqdWorkGroupSizeAttr. rewrite HcX, HcY, HcZ.
    rewrite Hget, Hmax, Hsimd, Hreqd. unfold getValue. rewrite Hdata, Hinv.
    reflexivity.
  - unfold MergeSYCLReqdWorkGroupSizeAttr. cbn [attrData getLoc].
    rewrite Hget. unfold getValue. rewrite Hdata, Hinv, Hdata. reflexivity.
Qed.

Lemma reqd_size_not_one_is_diagnosed_and_attached_witness :
  exists XC YC ZC,
    DimValues KnownSize XC YC ZC [2; 2; 2] /\
    AddSYCLReqdWorkGroupSizeAttr DeviceSema WithDim0
      (mkCI 5%nat AT_SYCLReqdWorkGroupSize)
      (lit 6%nat 2) (Some (lit 7%nat 2)) (Some (lit 8%nat 2)) =
      (addAttr (mkAttr 5%nat false (SYCLReqdWorkGroupSizeAttr XC YC ZC)) WithDim0,
       [Diag 5%nat err_sycl_x_y_z_arguments_must_be_one
             [ArgAttr AT_SYCLReqdWorkGroupSize;
              ArgAttr AT_SYCLIntelMaxGlobalWorkDim]]) /\
    MergeSYCLReqdWorkGroupSizeAttr DeviceSema WithDim0
      (mkAttr 5%nat false (SYCLReqdWorkGroupSizeAttr XC YC ZC)) =
      (None,
       [Diag 5%nat err_sycl_x_y_z_arguments_must_be_one
             [ArgAttr AT_SYCLReqdWorkGroupSize;
              ArgAttr AT_SYCLIntelMaxGlobalWorkDim]]).
Proof.
  apply (reqd_size_not_one_is_diagnosed_and_attached DeviceSema WithDim0
           (mkCI 5%nat AT_SYCLReqdWorkGroupSize) Dim0 (cst 2%nat 0)
           (lit 6%nat 2) (Some (lit 7%nat 2)) (Some (lit 8%nat 2)) [2; 2; 2]).
  - reflexivity.
  - reflexivity.
  - reflexivity.
  - constructor; (split; [reflexivity|exact SizeValue_2]).
  - exact NotAllOne_222.
  - reflexivity.
  - reflexivity.
  - reflexivity.
Defined.

(** ** Merging the attributes of a redeclaration *)

(** An argument as a handler stores it: still value dependent, or converted
    to a constant (strictly positive for the work-group-size attributes). *)
Definition Stored (E : Expr) : Prop :=
  isValueDependent E = true \/ exists v, asConstantExpr E = Some v /\ 0 < v.

Definition StoredOpt (E : option Expr) : Prop :=
  match E with Some E => Stored E | None => True end.

Lemma Stored_cases E :
  Stored E ->
  isValueDependent E = true \/
  exists v, 0 < v /\ isValueDependent E = false /\
            VerifyIntegerConstantExpression E = inr (E, v) /\
            asConstantExpr E = Some v.
Proof.
  intros [H|[v [H Hv]]]; [now left|right]. exists v.
  unfold asConstantExpr in *. unfold isValueDependent,
    VerifyIntegerConstantExpression.
  destruct E as [loc k]. simpl in *. destruct k; inversion H; subst. auto.
Qed.

Lemma CheckAndConvertArg_stored CI E :
  Stored E -> CheckAndConvertArg CI E = (Some E, []).
Proof.
  intros H. unfold CheckAndConvertArg.
  destruct (Stored_cases E H) as [Hd|[v [Hv [Hd [Hver _]]]]]; rewrite Hd; simpl.
  - reflexivity.
  - rewrite Hver. destruct (Z.leb_spec v 0); [lia|reflexivity].
Qed.

Lemma CheckAndConvertOptArg_stored CI E :
  StoredOpt E -> CheckAndConvertOptArg CI E = (Some E, []).
Proof.
  destruct E as [E|]; simpl; intros H; [|reflexivity].
  now rewrite CheckAndConvertArg_stored.
Qed.

Lemma addAttr_neq A D : addAttr A D <> D.
Proof.
  intros H. apply (f_equal (fun D => length (attrs D))) in H.
  unfold addAttr in H; simpl in H. rewrite length_app in H. simpl in H. lia.
Qed.

Ltac merge_leaf :=
  split; intros Heq; try reflexivity; try discriminate Heq;
  try (exfalso; injection Heq as Heq; first
         [ now apply addAttr_neq in Heq
         | symmetry in Heq; now apply addAttr_neq in Heq ]).

(** X9: for [num_simd_work_items], [max_work_group_size] and
    [reqd_work_group_size], merging the attribute of a redeclaration agrees
    with writing the attribute on the declaration itself: the merge function
    returns the attribute (a copy, with the same arguments and location, and
    no diagnostic) exactly when the [Add...Attr] function attaches it without
    a diagnostic.  For [num_simd_work_items] and [reqd_work_group_size] the
    merge function emits no diagnostic exactly when [Add...Attr] emits none;
    for [max_work_group_size], whose merge function compares with the
    attribute present before it makes the cross checks, it emits none
    whenever [Add...Attr] emits none. *)
Theorem merge_agrees_with_add
    (S : Sema) (D : Decl) (CI : AttributeCommonInfo) (A : Attr) :
  (forall Value,
     attrData A = SYCLIntelNumSimdWorkItemsAttr Value -> Stored Value ->
     (MergeSYCLIntelNumSimdWorkItemsAttr D A =
        (Some (mkAttr (getLoc A) false (attrData A)), []) <->
      AddSYCLIntelNumSimdWorkItemsAttr S D CI Value =
        (addAttr (mkAttr (ciLoc CI) false (attrData A)) D, [])) /\
     (snd (MergeSYCLIntelNumSimdWorkItemsAttr D A) = [] <->
      snd (AddSYCLIntelNumSimdWorkItemsAttr S D CI Value) = [])) /\
  (forall XDim YDim ZDim,
     attrData A = SYCLIntelMaxWorkGroupSizeAttr XDim YDim ZDim ->
     Stored XDim -> Stored YDim -> Stored ZDim ->
     (MergeSYCLIntelMaxWorkGroupSizeAttr S D A =
        (Some (mkAttr (getLoc A) false (attrData A)), []) <->
      AddSYCLIntelMaxWorkGroupSizeAttr S D CI XDim YDim ZDim =
        (addAttr (mkAttr (ciLoc CI) false (attrData A)) D, [])) /\
     (snd (AddSYCLIntelMaxWorkGroupSizeAttr S D CI XDim YDim ZDim) = [] ->
      snd (MergeSYCLIntelMaxWorkGroupSizeAttr S D A) = [])) /\
  (forall XDim YDim ZDim,
     attrData A = SYCLReqdWorkGroupSizeAttr XDim YDim ZDim ->
     Stored XDim -> StoredOpt YDim -> StoredOpt ZDim ->
     (MergeSYCLReqdWorkGroupSizeAttr S D A =
        (Some (mkAttr (getLoc A) false (attrData A)), []) <->
      AddSYCLReqdWorkGroupSizeAttr S D CI XDim YDim ZDim =
        (addAttr (mkAttr (ciLoc CI) false (attrData A)) D, [])) /\
     (snd (MergeSYCLReqdWorkGroupSizeAttr S D A) = [] <->
      snd (AddSYCLReqdWorkGroupSizeAttr S D CI XDim YDim ZDim) = [])).
Proof.
  split; [|split].
  - intros V Hdata HV.
    unfold MergeSYCLIntelNumSimdWorkItemsAttr, AddSYCLIntelNumSimdWorkItemsAttr.
    rewrite Hdata.
    destruct (Stored_cases V HV) as [Hd|[v [Hv [Hd [Hver HV']]]]]; rewrite Hd;
      cbn [negb]; cbv iota.
    + assert (HV' : asConstantExpr V = None).
      { unfold isValueDependent in Hd. unfold asConstantExpr.
        destruct (exprKind V); try discriminate; reflexivity. }
      unfold CheckWorkGroupSize. rewrite HV'.
      destruct (getAttr AT_SYCLIntelNumSimdWorkItems D) as [DA|];
        [destruct (getConstantValue DA) as [c|]|];
        split_matches; cbn [fst snd]; split; merge_leaf.
    + rewrite Hver, HV'. destruct (Z.leb_spec v 0); [lia|].
      destruct (getAttr AT_SYCLIntelNumSimdWorkItems D) as [DA|];
        [destruct (getConstantValue DA) as [c|]|];
        try (rewrite (Z.eqb_sym c v));
        split_matches; cbn [fst snd]; split; merge_leaf.
  - intros X Y Z Hdata HX HY HZ.
    unfold MergeSYCLIntelMaxWorkGroupSizeAttr, AddSYCLIntelMaxWorkGroupSizeAttr.
    rewrite Hdata.
    rewrite (CheckAndConvertArg_stored CI X HX),
            (CheckAndConvertArg_stored CI Y HY),
            (CheckAndConvertArg_stored CI Z HZ).
    destruct (getAttr AT_SYCLIntelMaxWorkGroupSize D) as [DA|];
      [destruct (getMaxDims DA) as [[[DX DY] DZ]|];
       [rewrite (AnyWorkGroupSizesDiffer_sym (Some DX) (Some DY) (Some DZ)),
                (AllWorkGroupSizesSame_sym (Some DX) (Some DY) (Some DZ))|]|];
      split_matches; cbn [fst snd]; split; try merge_leaf;
      intros Heq; try reflexivity; discriminate Heq.
  - intros X Y Z Hdata HX HY HZ.
    unfold MergeSYCLReqdWorkGroupSizeAttr, AddSYCLReqdWorkGroupSizeAttr.
    rewrite Hdata.
    rewrite (CheckAndConvertArg_stored CI X HX),
            (CheckAndConvertOptArg_stored CI Y HY),
            (CheckAndConvertOptArg_stored CI Z HZ).
    destruct (getAttr AT_SYCLReqdWorkGroupSize D) as [DA|];
      [destruct (getReqdDims DA) as [[[DX DY] DZ]|];
       [rewrite (AnyWorkGroupSizesDiffer_sym (Some DX) DY DZ),
                (AllWorkGroupSizesSame_sym (Some DX) DY DZ)|]|];
      split_matches; try congruence; cbn [fst snd app]; split; merge_leaf.
Qed.

Lemma Stored_cst loc v : 0 < v -> Stored (cst loc v).
Proof. intros H. right. exists v. now split. Defined.

Lemma merge_agrees_with_add_witness :
  (MergeSYCLReqdWorkGroupSizeAttr DeviceSema WithMax222 Reqd444 =
     (Some (mkAttr (getLoc Reqd444) false (attrData Reqd444)), []) <->
   AddSYCLReqdWorkGroupSizeAttr DeviceSema WithMax222
     (mkCI 9%nat AT_SYCLReqdWorkGroupSize)
     (cst 2%nat 4) (Some (cst 3%nat 4)) (Some (cst 4%nat 4)) =
     (addAttr (mkAttr 9%nat false (attrData Reqd444)) WithMax222, [])) /\
  (snd (MergeSYCLReqdWorkGroupSizeAttr DeviceSema WithMax222 Reqd444) = [] <->
   snd (AddSYCLReqdWorkGroupSizeAttr DeviceSema WithMax222
          (mkCI 9%nat AT_SYCLReqdWorkGroupSize)
          (cst 2%nat 4) (Some (cst 3%nat 4)) (Some (cst 4%nat 4))) = []).
Proof.
  apply (proj2 (proj2 (merge_agrees_with_add DeviceSema WithMax222
                         (mkCI 9%nat AT_SYCLReqdWorkGroupSize) Reqd444))
           (cst 2%nat 4) (Some (cst 3%nat 4)) (Some (cst 4%nat 4))).
  - reflexivity.
  - apply Stored_cst. lia.
  - apply Stored_cst. lia.
  - apply Stored_cst. lia.
Defined.

Lemma checkWorkGroupSizeAttrExpr_cases AttrTy D AL :
  (exists A,
     checkWorkGroupSizeAttrExpr AttrTy D AL =
       (true, [Diag (getLoc A) err_sycl_x_y_z_arguments_must_be_one
                    [ArgAttr (kindOf (attrData A)); ArgAttr AL]]) /\
     forall AL',
       checkWorkGroupSizeAttrExpr AttrTy D AL' =
         (true, [Diag (getLoc A) err_sycl_x_y_z_arguments_must_be_one
                      [ArgAttr (kindOf (attrData A)); ArgAttr AL']])) \/
  (forall AL', checkWorkGroupSizeAttrExpr AttrTy D AL' = (false, [])).
Proof.
  unfold checkWorkGroupSizeAttrExpr.
  destruct (getAttr AttrTy D) as [A|]; [|now right].
  destruct (getDims A) as [Args|]; [|now right].
  destruct (AreAllArgsOne Args); try (now right).
  left. exists A. split; [reflexivity|]. intros AL'. reflexivity.
Qed.

(** Whether the sizes present are diagnosed does not depend on the attribute
    the diagnostic names. *)
Lemma checkWorkGroupSizesAreOne_cases D AL AL' :
  (exists d d',
     checkWorkGroupSizesAreOne D AL = (true, [d]) /\
     checkWorkGroupSizesAreOne D AL' = (true, [d'])) \/
  (checkWorkGroupSizesAreOne D AL = (false, []) /\
   checkWorkGroupSizesAreOne D AL' = (false, [])).
Proof.
  unfold checkWorkGroupSizesAreOne.
  destruct (checkWorkGroupSizeAttrExpr_cases AT_SYCLIntelMaxWorkGroupSize D AL)
    as [[A [H1 H2]]|H1].
  - left. rewrite H1, (H2 AL'). eauto.
  - rewrite (H1 AL), (H1 AL').
    destruct (checkWorkGroupSizeAttrExpr_cases AT_SYCLReqdWorkGroupSize D AL)
      as [[A [H3 H4]]|H3].
    + left. rewrite H3, (H4 AL'). eauto.
    + right. now rewrite (H3 AL), (H3 AL').
Qed.

(** The value of [max_global_work_dim] as the handler stores it: still value
    dependent, or a constant from 0 to 3. *)
Definition StoredDim (E : Expr) : Prop :=
  isValueDependent E = true \/ exists v, asConstantExpr E = Some v /\ 0 <= v <= 3.

(** X10: merging the [max_global_work_dim] of a redeclaration agrees with
    writing it on the declaration: [MergeSYCLIntelMaxGlobalWorkDimAttr]
    returns the attribute, without a diagnostic, exactly when
    [AddSYCLIntelMaxGlobalWorkDimAttr] attaches it without a diagnostic, and
    it emits no diagnostic exactly when the latter emits none. *)
Theorem merge_max_global_work_dim_agrees_with_add
    (D : Decl) (CI : AttributeCommonInfo) (A : Attr) (Value : Expr)
    (Hdata : attrData A = SYCLIntelMaxGlobalWorkDimAttr Value)
    (HV : StoredDim Value) :
  (MergeSYCLIntelMaxGlobalWorkDimAttr D A =
     (Some (mkAttr (getLoc A) false (attrData A)), []) <->
   AddSYCLIntelMaxGlobalWorkDimAttr D CI Value =
     (addAttr (mkAttr (ciLoc CI) false (attrData A)) D, [])) /\
  (snd (MergeSYCLIntelMaxGlobalWorkDimAttr D A) = [] <->
   snd (AddSYCLIntelMaxGlobalWorkDimAttr D CI Value) = []).
Proof.
  unfold MergeSYCLIntelMaxGlobalWorkDimAttr, AddSYCLIntelMaxGlobalWorkDimAttr.
  rewrite Hdata.
  destruct HV as [Hd|[v [HV Hv]]].
  - assert (HV' : asConstantExpr Value = None).
    { unfold isValueDependent in Hd. unfold asConstantExpr.
      destruct (exprKind Value); try discriminate; reflexivity. }
    rewrite Hd, HV'. cbn [negb]. cbv iota.
    destruct (getAttr AT_SYCLIntelMaxGlobalWorkDim D) as [DA|];
      [destruct (getConstantValue DA) as [c|]|];
      cbn [fst snd]; split; merge_leaf.
  - assert (Hd : isValueDependent Value = false).
    { unfold asConstantExpr in HV. unfold isValueDependent.
      destruct (exprKind Value); try discriminate; reflexivity. }
    assert (Hver : VerifyIntegerConstantExpression Value = inr (Value, v)).
    { unfold asConstantExpr in HV. unfold VerifyIntegerConstantExpression.
      destruct Value as [loc k]. simpl in *. destruct k; inversion HV.
      reflexivity. }
    rewrite Hd, Hver, HV. cbn [negb]. cbv iota.
    assert (H : (v <? 0) || (v >? 3) = false).
    { rewrite Z.gtb_ltb. apply orb_false_iff. split; apply Z.ltb_ge; lia. }
    rewrite H.
    destruct (checkWorkGroupSizesAreOne_cases D
                (kindOf (SYCLIntelMaxGlobalWorkDimAttr Value)) (ciKind CI))
      as [[d [d' [H1 H2]]]|[H1 H2]]; rewrite H1, H2;
      (destruct (getAttr AT_SYCLIntelMaxGlobalWorkDim D) as [DA|];
       [destruct (getConstantValue DA) as [c|]|]);
      try (rewrite (Z.eqb_sym c v));
      split_matches; try congruence; cbn [fst snd map]; split; merge_leaf.
Qed.

Lemma merge_max_global_work_dim_agrees_with_add_witness :
  (MergeSYCLIntelMaxGlobalWorkDimAttr WithMax222 Dim0 =
     (Some (mkAttr (getLoc Dim0) false (attrData Dim0)), []) <->
   AddSYCLIntelMaxGlobalWorkDimAttr WithMax222
     (mkCI 9%nat AT_SYCLIntelMaxGlobalWorkDim) (cst 2%nat 0) =
     (addAttr (mkAttr 9%nat false (attrData Dim0)) WithMax222, [])) /\
  (snd (MergeSYCLIntelMaxGlobalWorkDimAttr WithMax222 Dim0) = [] <->
   snd (AddSYCLIntelMaxGlobalWorkDimAttr WithMax222
          (mkCI 9%nat AT_SYCLIntelMaxGlobalWorkDim) (cst 2%nat 0)) = []).
Proof.
  apply (merge_max_global_work_dim_agrees_with_add WithMax222
           (mkCI 9%nat AT_SYCLIntelMaxGlobalWorkDim) Dim0 (cst 2%nat 0)).
  - reflexivity.
  - right. exists 0. split; [reflexivity|lia].
Defined.

(** Both values are known constants and they differ. *)
Definition KnownDifferent (D : Decl) (K : AttrKind) (Value : Expr) : Prop :=
  exists DeclAttr c a,
    getAttr K D = Some DeclAttr /\ getConstantValue DeclAttr = Some c /\
    asConstantExpr Value = Some a /\ a <> c.

(** X11: [MergeSYCLIntelBankWidthAttr] and [MergeSYCLIntelNumBanksAttr] drop
    the attribute of a redeclaration only when it and the first attribute of
    the kind on the declaration are known constants with different values;
    in every other case, equal known values included, they return a copy of
    it (same location, same value) and emit no diagnostic. *)
Theorem merge_keeps_unless_known_different (D : Decl) (A : Attr) :
  (forall Value,
     attrData A = SYCLIntelBankWidthAttr Value ->
     (fst (MergeSYCLIntelBankWidthAttr D A) = None <->
      KnownDifferent D AT_SYCLIntelBankWidth Value) /\
     (~ KnownDifferent D AT_SYCLIntelBankWidth Value ->
      MergeSYCLIntelBankWidthAttr D A =
        (Some (mkAttr (getLoc A) false (attrData A)), []))) /\
  (forall Value,
     attrData A = SYCLIntelNumBanksAttr Value ->
     (fst (MergeSYCLIntelNumBanksAttr D A) = None <->
      KnownDifferent D AT_SYCLIntelNumBanks Value) /\
     (~ KnownDifferent D AT_SYCLIntelNumBanks Value ->
      MergeSYCLIntelNumBanksAttr D A =
        (Some (mkAttr (getLoc A) false (attrData A)), []))).
Proof.
  split; intros V Hdata;
    unfold MergeSYCLIntelBankWidthAttr, MergeSYCLIntelNumBanksAttr,
      KnownDifferent; rewrite Hdata;
    match goal with
    | |- context [getAttr ?K D] => destruct (getAttr K D) as [DA|] eqn:HDA
    end;
    try destruct (getConstantValue DA) as [c|] eqn:Hc;
    try destruct (asConstantExpr V) as [a|] eqn:Ha;
    try destruct (Z.eqb_spec c a) as [Heq|Hne]; cbn [negb fst]; cbv iota;
    (split; [split|]);
    match goal with
    | |- Some _ = None -> _ => intros H; discriminate H
    | |- None = None -> _ =>
        intros _; exists DA, c, a; repeat split; congruence
    | |- (exists _, _) -> None = None => reflexivity
    | |- (exists _, _) -> Some _ = None =>
        intros [DA' [c' [a' [H1 [H2 [H3 H4]]]]]]; congruence
    | |- ~ _ -> (Some _, _) = _ => reflexivity
    | |- ~ _ -> (None, _) = _ =>
        intros H; exfalso; apply H; exists DA, c, a; repeat split; congruence
    end.
Qed.

(** A local variable with [bankwidth(8)], onto which the [bankwidth(8)] of a
    redeclaration is merged. *)
Definition BankWidth8 : Attr :=
  mkAttr 1%nat false (SYCLIntelBankWidthAttr (cst 2%nat 8)).

Definition WithBankWidth8 : Decl := addAttr BankWidth8 LocalVar.

Lemma merge_keeps_unless_known_different_witness :
  MergeSYCLIntelBankWidthAttr WithBankWidth8
    (mkAttr 3%nat false (SYCLIntelBankWidthAttr (cst 4%nat 8))) =
    (Some (mkAttr 3%nat false (SYCLIntelBankWidthAttr (cst 4%nat 8))), []).
Proof.
  apply (proj2 (proj1 (merge_keeps_unless_known_different WithBankWidth8
                         (mkAttr 3%nat false
                            (SYCLIntelBankWidthAttr (cst 4%nat 8))))
                  (cst 4%nat 8) eq_refl)).
  intros [DA [c [a [H1 [H2 [H3 H4]]]]]].
  inversion H1; subst DA. inversion H2; subst c. inversion H3; subst a.
  now apply H4.
Defined.

(** ** [bank_bits] and the [numbanks] present *)

(** A list of bank bits that passes the checks of the list itself: the
    arguments are non-negative and, when there are two or more, consecutive
    as the handler holds them, in [int64_t]s (below 2^63 these are the
    arguments themselves). *)
Definition AcceptableBits (Values : list Z) : Prop :=
  Forall (fun v => 0 <= v) Values /\
  ((length Values <= 1)%nat \/ Consecutive (storedBits Values)).

Lemma AcceptableBits_list Values :
  AcceptableBits Values ->
  negb false && (1 <? Z.of_nat (length (storedBits Values))) &&
    negb (listIsConsecutive (storedBits Values)) = false.
Proof.
  unfold storedBits at 1. rewrite length_map.
  intros [_ [Hshort|Hcons]].
  - destruct (Z.ltb_spec 1 (Z.of_nat (length Values))); [lia|reflexivity].
  - destruct (Z.ltb_spec 1 (Z.of_nat (length Values))) as [Hl|Hl];
      [|reflexivity].
    rewrite (proj2 (listIsConsecutive_spec (storedBits Values)
                      ltac:(unfold storedBits; rewrite length_map; lia)) Hcons).
    reflexivity.
Qed.

(** X12: a handler that rejects the arriving attribute because the
    declaration is not a valid variable for the FPGA memory attributes
    (device compilation) may already have changed the implicit attributes:
    a rejected [bank_bits] with fewer than 32 acceptable arguments leaves the
    [numbanks] it synthesized on the declaration, and a rejected
    [fpga_memory] has dropped the implicit default memory. *)
Theorem rejected_attribute_leaves_implicit_changes
    (S : Sema) (D : Decl) (CI : AttributeCommonInfo)
    (Hdev : SYCLIsDevice S = true)
    (Hvar : CheckValidFPGAMemoryAttributesVar D = true) :
  (forall Exprs Values,
     getAttr AT_SYCLIntelNumBanks D = None ->
     Forall2 IntegerArg Exprs Values -> AcceptableBits Values ->
     (length Exprs < 32)%nat ->
     AddSYCLIntelBankBitsAttr S D CI Exprs =
       (addAttr (ImplicitNumBanks (length Exprs)) D,
        [Diag (ciLoc CI) err_fpga_attribute_incorrect_variable
              [ArgAttr (ciKind CI); ArgSelect 1]])) /\
  (forall MA Kind,
     getAttr AT_SYCLIntelMemory D = Some MA -> isImplicit MA = true ->
     handleSYCLIntelMemoryAttr S D CI (Some Kind) =
       (dropAttr AT_SYCLIntelMemory D,
        [Diag (ciLoc CI) err_fpga_attribute_incorrect_variable
              [ArgAttr (ciKind CI); ArgSelect 1]])).
Proof.
  split.
  - intros Exprs Values Hnone Hargs Hok _.
    unfold AddSYCLIntelBankBitsAttr.
    rewrite (convertBankBitsArgs_nonneg CI Exprs Values Hargs (proj1 Hok)).
    rewrite (AcceptableBits_list Values Hok).
    rewrite Hnone, CheckValid_addAttr, Hdev, Hvar.
    rewrite (constantArgs_length _ _ Hargs). reflexivity.
  - intros MA Kind Hget Himp. unfold handleSYCLIntelMemoryAttr.
    rewrite Hget, Himp, CheckValid_dropAttr, Hdev, Hvar. reflexivity.
Qed.

(** A variable at namespace scope that is neither const nor static. *)
Definition GlobalVar : Decl := mkDecl KVar false false false false false [].

Lemma AcceptableBits_0_1 : AcceptableBits [0; 1].
Proof.
  split; [repeat constructor; lia|]. right. left.
  change (storedBits [0; 1]) with [0; 1].
  intros i a b Ha Hb. destruct i as [|[|i]]; simpl in *; try discriminate.
  inversion Ha; inversion Hb; subst. reflexivity.
Defined.

Lemma rejected_attribute_leaves_implicit_changes_witness :
  AddSYCLIntelBankBitsAttr DeviceSema GlobalVar
    (mkCI 1%nat AT_SYCLIntelBankBits) [lit 2%nat 0; lit 3%nat 1] =
    (addAttr (ImplicitNumBanks 2) GlobalVar,
     [Diag 1%nat err_fpga_attribute_incorrect_variable
           [ArgAttr AT_SYCLIntelBankBits; ArgSelect 1]]) /\
  handleSYCLIntelMemoryAttr DeviceSema (addAttr ImplicitDefaultMemory GlobalVar)
    (mkCI 1%nat AT_SYCLIntelMemory) (Some MemMLAB) =
    (dropAttr AT_SYCLIntelMemory (addAttr ImplicitDefaultMemory GlobalVar),
     [Diag 1%nat err_fpga_attribute_incorrect_variable
           [ArgAttr AT_SYCLIntelMemory; ArgSelect 1]]).
Proof.
  split.
  - exact (proj1 (rejected_attribute_leaves_implicit_changes DeviceSema
                    GlobalVar (mkCI 1%nat AT_SYCLIntelBankBits)
                    eq_refl eq_refl)
             [lit 2%nat 0; lit 3%nat 1] [0; 1]
             eq_refl IntegerArgs_0_1 AcceptableBits_0_1 ltac:(simpl; lia)).
  - exact (proj2 (rejected_attribute_leaves_implicit_changes DeviceSema
                    (addAttr ImplicitDefaultMemory GlobalVar)
                    (mkCI 1%nat AT_SYCLIntelMemory) eq_refl eq_refl)
             ImplicitDefaultMemory MemMLAB eq_refl eq_refl).
Defined.

(** X13: a [bank_bits] with acceptable arguments arriving on a declaration
    whose first [numbanks] evaluates to a strictly positive value [v], be it
    written by the user or synthesized from an earlier [bank_bits], is
    diagnosed as conflicting and not attached when the number of its
    arguments is not [ceil(log2 v)], and attached (on a valid variable) when
    it is. *)
Theorem bank_bits_agrees_with_numbanks
    (S : Sema) (D : Decl) (CI : AttributeCommonInfo)
    (Exprs : list Expr) (Values : list Z) (NBA : Attr) (E : Expr) (v : Z)
    (Hget : getAttr AT_SYCLIntelNumBanks D = Some NBA)
    (Hdata : attrData NBA = SYCLIntelNumBanksAttr E)
    (HE : IntegerArg E v) (Hv : 0 < v)
    (Hargs : Forall2 IntegerArg Exprs Values)
    (Hok : AcceptableBits Values) :
  (Z.of_nat (length Exprs) <> Z.log2_up v ->
   AddSYCLIntelBankBitsAttr S D CI Exprs =
     (D, [Diag (ciLoc CI) err_bankbits_numbanks_conflicting []])) /\
  (Z.of_nat (length Exprs) = Z.log2_up v -> Eligible S D ->
   AddSYCLIntelBankBitsAttr S D CI Exprs =
     (addAttr (mkAttr (ciLoc CI) false
                 (SYCLIntelBankBitsAttr (constantArgs Exprs Values)))
        (addImplicitMemory D), [])).
Proof.
  destruct (IntegerArg_verify E v HE) as [Hdep _].
  unfold AddSYCLIntelBankBitsAttr.
  rewrite (convertBankBitsArgs_nonneg CI Exprs Values Hargs (proj1 Hok)).
  rewrite (AcceptableBits_list Values Hok).
  rewrite Hget. unfold getValue. rewrite Hdata, Hdep. cbn [negb]. cbv iota.
  unfold IntegerArg in HE. rewrite HE.
  rewrite (constantArgs_length _ _ Hargs), (ceilLogBase2_log2_up v Hv).
  split.
  - intros Hne. destruct (Z.eqb_spec (Z.of_nat (length Exprs)) (Z.log2_up v));
      [contradiction|reflexivity].
  - intros Heq Hel. unfold Eligible in Hel.
    destruct (Z.eqb_spec (Z.of_nat (length Exprs)) (Z.log2_up v));
      [|contradiction].
    cbn [negb]. cbv iota. rewrite Hel. reflexivity.
Qed.

(** [bank_bits(0,1)] on a local variable synthesized [numbanks = 4]; a second
    [bank_bits] with three bits conflicts with it. *)
Lemma AcceptableBits_2_3_4 : AcceptableBits [2; 3; 4].
Proof.
  split; [repeat constructor; lia|]. right. left.
  change (storedBits [2; 3; 4]) with [2; 3; 4].
  intros i a b Ha Hb. destruct i as [|[|[|i]]]; simpl in *; try discriminate;
    inversion Ha; inversion Hb; subst; reflexivity.
Defined.

Lemma bank_bits_agrees_with_numbanks_witness :
  AddSYCLIntelBankBitsAttr DeviceSema AfterBankBits01
    (mkCI 5%nat AT_SYCLIntelBankBits) [lit 6%nat 2; lit 7%nat 3; lit 8%nat 4] =
    (AfterBankBits01,
     [Diag 5%nat err_bankbits_numbanks_conflicting []]).
Proof.
  apply (proj1 (bank_bits_agrees_with_numbanks DeviceSema AfterBankBits01
                  (mkCI 5%nat AT_SYCLIntelBankBits)
                  [lit 6%nat 2; lit 7%nat 3; lit 8%nat 4] [2; 3; 4]
                  (ImplicitNumBanks 2)
                  (mkExpr 0%nat (IntegerLiteral (implicitNumBanksValue 2))) 4
                  eq_refl eq_refl eq_refl eq_refl
                  ltac:(repeat constructor) AcceptableBits_2_3_4)).
  discriminate.
Defined.

(** ** The consecutive check read backwards *)

Lemma StepsBy_rev step l : StepsBy step l -> StepsBy (- step) (rev l).
Proof.
  intros H i a b Ha Hb. rewrite nth_error_rev in Ha, Hb.
  destruct (Nat.ltb_spec (Datatypes.S i) (length l)) as [Hi|Hi];
    [|discriminate Hb].
  destruct (Nat.ltb_spec i (length l)) as [Hi'|Hi']; [|lia].
  replace (length l - Datatypes.S i)%nat
    with (Datatypes.S (length l - Datatypes.S (Datatypes.S i)))%nat in Ha by lia.
  pose proof (H _ _ _ Hb Ha). lia.
Qed.

Lemma Consecutive_rev l : Consecutive l <-> Consecutive (rev l).
Proof.
  assert (H : forall l, Consecutive l -> Consecutive (rev l)).
  { intros l0 [H|H]; [right|left]; apply StepsBy_rev in H; exact H. }
  split; [apply H|]. intros Hr. apply H in Hr. now rewrite rev_involutive in Hr.
Qed.

Lemma StepsBy_nth step a l i x :
  StepsBy step (a :: l) -> nth_error (a :: l) i = Some x ->
  x = a + Z.of_nat i * step.
Proof.
  revert x. induction i as [|i IH]; intros x H Hx.
  - simpl in Hx. inversion Hx. lia.
  - destruct (nth_error (a :: l) i) as [y|] eqn:Hy.
    + rewrite (H i y x Hy Hx), (IH y H eq_refl). lia.
    + exfalso. apply nth_error_None in Hy.
      assert (nth_error (a :: l) (Datatypes.S i) <> None) by congruence.
      apply nth_error_Some in H0. lia.
Qed.

Lemma StepsBy_NoDup step l : step <> 0 -> StepsBy step l -> NoDup l.
Proof.
  intros Hs H. destruct l as [|a l]; [constructor|].
  apply NoDup_nth_error. intros i j Hi Hij.
  destruct (nth_error (a :: l) i) as [x|] eqn:Hx.
  - symmetry in Hij.
    pose proof (StepsBy_nth step a l i x H Hx).
    pose proof (StepsBy_nth step a l j x H Hij). nia.
  - apply nth_error_None in Hx. lia.
Qed.

(** X14: the consecutive check of [bank_bits] accepts a list of values
    exactly when it accepts the list read backwards, and a list it accepts
    never repeats a value. *)
Theorem consecutive_check_is_reversible (Values : list Z) :
  listIsConsecutive (rev Values) = listIsConsecutive Values /\
  (listIsConsecutive Values = true -> NoDup Values).
Proof.
  destruct (Nat.le_gt_cases 2 (length Values)) as [Hlen|Hlen].
  - assert (Hrev : (2 <= length (rev Values))%nat) by now rewrite length_rev.
    split.
    + destruct (listIsConsecutive Values) eqn:H.
      * apply (listIsConsecutive_spec _ Hrev).
        apply (proj1 (Consecutive_rev Values)).
        now apply listIsConsecutive_spec.
      * destruct (listIsConsecutive (rev Values)) eqn:Hr; [|reflexivity].
        apply (listIsConsecutive_spec _ Hrev) in Hr.
        apply (proj2 (Consecutive_rev Values)) in Hr.
        apply (listIsConsecutive_spec _ Hlen) in Hr. congruence.
    + intros H. apply (listIsConsecutive_spec _ Hlen) in H.
      destruct H as [H|H]; eapply StepsBy_NoDup; try exact H; lia.
  - destruct Values as [|a [|b l]]; simpl in Hlen; try lia.
    + split; [reflexivity|constructor].
    + split; [reflexivity|]. intros _. repeat constructor. intros [].
Qed.

(** ** Every size is validated *)

(** The diagnostic of an argument that must be strictly positive. *)
Definition positiveDiag (CI : AttributeCommonInfo) (E : Expr) (v : Z)
  : list Diagnostic :=
  if v <=? 0 then
    [Diag (getExprLoc E) err_attribute_requires_positive_integer
          [ArgAttr (ciKind CI); ArgSelect 0]]
  else [].

Lemma CheckAndConvertArg_integer CI E v :
  IntegerArg E v ->
  CheckAndConvertArg CI E =
    (if v <=? 0 then None else Some (converted E v), positiveDiag CI E v).
Proof.
  intros HE. destruct (IntegerArg_verify E v HE) as [Hdep Hver].
  unfold CheckAndConvertArg, positiveDiag. rewrite Hdep, Hver. simpl.
  now destruct (v <=? 0).
Qed.

(** X15: the work-group-size handlers validate all their arguments before
    they bail out: when some size of [max_work_group_size] or of a
    three-argument [reqd_work_group_size] is not strictly positive, nothing
    is attached and one diagnostic is emitted for each such size, located at
    that argument, in the order X, Y, Z. *)
Theorem every_size_is_validated
    (S : Sema) (D : Decl) (CI : AttributeCommonInfo)
    (XDim YDim ZDim : Expr) (x y z : Z)
    (HX : IntegerArg XDim x) (HY : IntegerArg YDim y) (HZ : IntegerArg ZDim z)
    (Hbad : x <= 0 \/ y <= 0 \/ z <= 0) :
  AddSYCLIntelMaxWorkGroupSizeAttr S D CI XDim YDim ZDim =
    (D, positiveDiag CI XDim x ++ positiveDiag CI YDim y ++
        positiveDiag CI ZDim z) /\
  AddSYCLReqdWorkGroupSizeAttr S D CI XDim (Some YDim) (Some ZDim) =
    (D, positiveDiag CI XDim x ++ positiveDiag CI YDim y ++
        positiveDiag CI ZDim z).
Proof.
  unfold AddSYCLIntelMaxWorkGroupSizeAttr, AddSYCLReqdWorkGroupSizeAttr,
    CheckAndConvertOptArg.
  rewrite (CheckAndConvertArg_integer CI XDim x HX),
          (CheckAndConvertArg_integer CI YDim y HY),
          (CheckAndConvertArg_integer CI ZDim z HZ).
  destruct (Z.leb_spec x 0), (Z.leb_spec y 0), (Z.leb_spec z 0);
    try lia; split; reflexivity.
Qed.

Lemma every_size_is_validated_witness :
  AddSYCLIntelMaxWorkGroupSizeAttr DeviceSema KernelFunction
    (mkCI 1%nat AT_SYCLIntelMaxWorkGroupSize)
    (lit 2%nat 0) (lit 3%nat 4) (lit 4%nat (-1)) =
    (KernelFunction,
     [Diag 2%nat err_attribute_requires_positive_integer
           [ArgAttr AT_SYCLIntelMaxWorkGroupSize; ArgSelect 0];
      Diag 4%nat err_attribute_requires_positive_integer
           [ArgAttr AT_SYCLIntelMaxWorkGroupSize; ArgSelect 0]]) /\
  AddSYCLReqdWorkGroupSizeAttr DeviceSema KernelFunction
    (mkCI 1%nat AT_SYCLIntelMaxWorkGroupSize)
    (lit 2%nat 0) (Some (lit 3%nat 4)) (Some (lit 4%nat (-1))) =
    (KernelFunction,
     [Diag 2%nat err_attribute_requires_positive_integer
           [ArgAttr AT_SYCLIntelMaxWorkGroupSize; ArgSelect 0];
      Diag 4%nat err_attribute_requires_positive_integer
           [ArgAttr AT_SYCLIntelMaxWorkGroupSize; ArgSelect 0]]).
Proof.
  apply (every_size_is_validated DeviceSema KernelFunction
           (mkCI 1%nat AT_SYCLIntelMaxWorkGroupSize)
           (lit 2%nat 0) (lit 3%nat 4) (lit 4%nat (-1)) 0 4 (-1)
           eq_refl eq_refl eq_refl).
  left. lia.
Defined.

(** ** Required and maximal sizes outside SYCL device mode *)

(** X16: outside SYCL device compilation [CheckMaxAllowedWorkGroupSize] does
    not reorder the required sizes: with all sizes known, it reports a
    conflict exactly when the first required size exceeds Z, or the second
    exceeds Y, or the third exceeds X of [max_work_group_size]. *)
Theorem sizes_compared_as_written_outside_device_mode
    (S : Sema) (RX : Expr) (RY RZ : option Expr) (R : list Z)
    (MX MY MZ : Expr) (mx my mz : Z)
    (Hhost : SYCLIsDevice S = false)
    (HR : DimValues KnownSize RX RY RZ R)
    (HMX : KnownSize MX mx) (HMY : KnownSize MY my) (HMZ : KnownSize MZ mz) :
  CheckMaxAllowedWorkGroupSize S RX RY RZ MX MY MZ = true <->
  Exists (fun p => fst p > snd p) (combine R [mz; my; mx]).
Proof.
  destruct HMX as [HMX Hmx], HMY as [HMY Hmy], HMZ as [HMZ Hmz].
  unfold CheckMaxAllowedWorkGroupSize.
  rewrite HMX, HMY, HMZ, Hhost.
  destruct HR as [X x [HX Hx] | X Y x y [HX Hx] [HY Hy]
                 | X Y Z x y z [HX Hx] [HY Hy] [HZ Hz]];
    rewrite HX; unfold stillDependent, asConstantExprOrNull, isNull;
    try rewrite HY; try rewrite HZ; simpl;
    rewrite ?Exists_cons_iff, ?Exists_nil_iff, ?orb_true_iff; simpl;
    unfold SizeValue in *; rewrite !getZExtValue_small by lia;
    rewrite ?Z.gtb_ltb, ?Z.ltb_lt; intuition (try discriminate; try lia).
Qed.

Definition HostSema : Sema := mkSema false true.

Lemma KnownSize_cst loc v : SizeValue v -> KnownSize (cst loc v) v.
Proof. intros H. split; [reflexivity|exact H]. Defined.

Lemma SizeValue_1 : SizeValue 1.
Proof. split; reflexivity. Defined.

(** [reqd_work_group_size(1,1,4)] against [max_work_group_size(4,2,2)]:
    no conflict as written (1 <= 2, 1 <= 2, 4 <= 4). *)
Lemma sizes_compared_as_written_outside_device_mode_witness :
  CheckMaxAllowedWorkGroupSize HostSema
    (cst 1%nat 1) (Some (cst 2%nat 1)) (Some (cst 3%nat 4))
    (cst 4%nat 4) (cst 5%nat 2) (cst 6%nat 2) = true <->
  Exists (fun p => fst p > snd p) (combine [1; 1; 4] [2; 2; 4]).
Proof.
  apply (sizes_compared_as_written_outside_device_mode HostSema
           (cst 1%nat 1) (Some (cst 2%nat 1)) (Some (cst 3%nat 4)) [1; 1; 4]
           (cst 4%nat 4) (cst 5%nat 2) (cst 6%nat 2) 4 2 2 eq_refl).
  - constructor; apply KnownSize_cst; try exact SizeValue_1; exact SizeValue_4.
  - apply KnownSize_cst, SizeValue_4.
  - apply KnownSize_cst, SizeValue_2.
  - apply KnownSize_cst, SizeValue_2.
Defined.

(** ** Sizes that are not resolved yet *)

Lemma dependent_not_constant E :
  isValueDependent E = true -> asConstantExpr E = None.
Proof.
  unfold isValueDependent, asConstantExpr.
  destruct (exprKind E); try discriminate; reflexivity.
Qed.

Definition isDependentOpt (E : option Expr) : bool :=
  match E with Some E => isValueDependent E | None => false end.

Lemma isDependentOpt_still E :
  isDependentOpt E = true -> stillDependent E = true.
Proof.
  destruct E as [E|]; simpl; [|discriminate]. intros H.
  unfold stillDependent. simpl. now rewrite (dependent_not_constant E H).
Qed.

(** The cross checks report nothing while one of the sizes is unresolved. *)
Lemma cross_checks_wait S Other X Y Z MX MY MZ :
  isValueDependent X || isDependentOpt Y || isDependentOpt Z = true ->
  InvalidWorkGroupSizeAttrs Other X Y Z = false /\
  CheckMaxAllowedWorkGroupSize S X Y Z MX MY MZ = false /\
  CheckWorkGroupSize Other X Y Z = false.
Proof.
  intros H. unfold InvalidWorkGroupSizeAttrs, CheckMaxAllowedWorkGroupSize,
    CheckWorkGroupSize.
  destruct (isValueDependent X) eqn:HX.
  - rewrite (dependent_not_constant X HX).
    repeat split; destruct (asConstantExpr Other); try reflexivity.
  - destruct (isDependentOpt Y) eqn:HY.
    + rewrite (isDependentOpt_still Y HY). simpl.
      repeat split; repeat match goal with
                           | |- context [match ?c with Some _ => _ | None => _ end] =>
                               destruct c
                           end; reflexivity.
    + simpl in H. rewrite (isDependentOpt_still Z H), orb_true_r.
      repeat split; repeat match goal with
                           | |- context [match ?c with Some _ => _ | None => _ end] =>
                               destruct c
                           end; reflexivity.
Qed.

Lemma max_check_waits S RX RY RZ MX MY MZ :
  isValueDependent MX || isValueDependent MY || isValueDependent MZ = true ->
  CheckMaxAllowedWorkGroupSize S RX RY RZ MX MY MZ = false.
Proof.
  intros H. unfold CheckMaxAllowedWorkGroupSize.
  destruct (isValueDependent MX) eqn:HX;
    [rewrite (dependent_not_constant MX HX)|
     destruct (isValueDependent MY) eqn:HY;
     [rewrite (dependent_not_constant MY HY)|
      simpl in H; rewrite (dependent_not_constant MZ H)]];
    repeat match goal with
           | |- context [match ?c with Some _ => _ | None => _ end] => destruct c
           end; reflexivity.
Qed.

(** X17: while one of its sizes is value dependent, a [max_work_group_size]
    or [reqd_work_group_size] whose other sizes are stored values is attached
    without any cross check against the other work-group attributes of the
    declaration, provided no attribute of its own kind is present: the
    checks are left to the instantiation. *)
Theorem unresolved_sizes_are_attached_unchecked
    (S : Sema) (D : Decl) (CI : AttributeCommonInfo) :
  (forall XDim YDim ZDim,
     Stored XDim -> Stored YDim -> Stored ZDim ->
     isValueDependent XDim || isValueDependent YDim ||
       isValueDependent ZDim = true ->
     getAttr AT_SYCLIntelMaxWorkGroupSize D = None ->
     AddSYCLIntelMaxWorkGroupSizeAttr S D CI XDim YDim ZDim =
       (addAttr (mkAttr (ciLoc CI) false
                   (SYCLIntelMaxWorkGroupSizeAttr XDim YDim ZDim)) D, [])) /\
  (forall XDim YDim ZDim,
     Stored XDim -> StoredOpt YDim -> StoredOpt ZDim ->
     isValueDependent XDim || isDependentOpt YDim ||
       isDependentOpt ZDim = true ->
     getAttr AT_SYCLReqdWorkGroupSize D = None ->
     AddSYCLReqdWorkGroupSizeAttr S D CI XDim YDim ZDim =
       (addAttr (mkAttr (ciLoc CI) false
                   (SYCLReqdWorkGroupSizeAttr XDim YDim ZDim)) D, [])).
Proof.
  split.
  - intros X Y Z HX HY HZ Hdep Hnone.
    unfold AddSYCLIntelMaxWorkGroupSizeAttr.
    rewrite (CheckAndConvertArg_stored CI X HX),
            (CheckAndConvertArg_stored CI Y HY),
            (CheckAndConvertArg_stored CI Z HZ), Hnone.
    assert (Hinv : forall MG,
               InvalidWorkGroupSizeAttrs MG X (Some Y) (Some Z) = false).
    { intros MG.
      exact (proj1 (cross_checks_wait S MG X (Some Y) (Some Z) X X X Hdep)). }
    destruct (getAttr AT_SYCLReqdWorkGroupSize D) as [RA|];
      [destruct (getReqdDims RA) as [[[RX RY] RZ]|];
       [rewrite (max_check_waits S RX RY RZ X Y Z Hdep)|]|];
      (destruct (getAttr AT_SYCLIntelMaxGlobalWorkDim D) as [MA|];
       [destruct (getValue MA) as [MG|]; [rewrite (Hinv MG)|]|]);
      reflexivity.
  - intros X Y Z HX HY HZ Hdep Hnone.
    unfold AddSYCLReqdWorkGroupSizeAttr.
    rewrite (CheckAndConvertArg_stored CI X HX),
            (CheckAndConvertOptArg_stored CI Y HY),
            (CheckAndConvertOptArg_stored CI Z HZ), Hnone.
    assert (Hwait : forall Other MX MY MZ,
               InvalidWorkGroupSizeAttrs Other X Y Z = false /\
               CheckMaxAllowedWorkGroupSize S X Y Z MX MY MZ = false /\
               CheckWorkGroupSize Other X Y Z = false).
    { intros. now apply cross_checks_wait. }
    destruct (getAttr AT_SYCLIntelMaxGlobalWorkDim D) as [MA|];
      [destruct (getValue MA) as [MG|];
       [rewrite (proj1 (Hwait MG X X X))|]|];
      (destruct (getAttr AT_SYCLIntelMaxWorkGroupSize D) as [XA|];
       [destruct (getMaxDims XA) as [[[MX MY] MZ]|];
        [rewrite (proj1 (proj2 (Hwait X MX MY MZ)))|]|]);
      (destruct (getAttr AT_SYCLIntelNumSimdWorkItems D) as [NA|];
       [destruct (getValue NA) as [NS|];
        [rewrite (proj2 (proj2 (Hwait NS X X X)))|]|]);
      reflexivity.
Qed.

Definition templateArg (loc : SourceLocation) (p : nat) : Expr :=
  mkExpr loc (ValueDependent p).

(** [reqd_work_group_size(N, 8)] on a kernel function that carries
    [max_work_group_size(2,2,2)]: attached, although 8 exceeds 2. *)
Lemma unresolved_sizes_are_attached_unchecked_witness :
  AddSYCLReqdWorkGroupSizeAttr DeviceSema WithMax222
    (mkCI 5%nat AT_SYCLReqdWorkGroupSize)
    (templateArg 6%nat 0) (Some (cst 7%nat 8)) None =
    (addAttr (mkAttr 5%nat false
                (SYCLReqdWorkGroupSizeAttr (templateArg 6%nat 0) (Some (cst 7%nat 8))
                                           None)) WithMax222, []).
Proof.
  apply (proj2 (unresolved_sizes_are_attached_unchecked DeviceSema WithMax222
                  (mkCI 5%nat AT_SYCLReqdWorkGroupSize))
           (templateArg 6%nat 0) (Some (cst 7%nat 8)) None).
  - left. reflexivity.
  - apply Stored_cst. lia.
  - exact I.
  - reflexivity.
  - reflexivity.
Defined.

(** ** The variable check belongs to device compilation *)

(** No diagnostic about the kind of variable. *)
Definition NoVariableDiag (ds : list Diagnostic) : Prop :=
  Forall (fun d => diagID d <> err_fpga_attribute_incorrect_variable) ds.

Lemma NoVariableDiag_verify E ds :
  VerifyIntegerConstantExpression E = inl ds -> NoVariableDiag ds.
Proof.
  unfold VerifyIntegerConstantExpression.
  destruct (exprKind E); intros H; inversion H; subst;
    repeat constructor; discriminate.
Qed.

Lemma NoVariableDiag_convert CI E :
  NoVariableDiag (snd (CheckAndConvertArg CI E)).
Proof.
  unfold CheckAndConvertArg.
  destruct (negb (isValueDependent E)); [|constructor].
  destruct (VerifyIntegerConstantExpression E) as [ds|[E' v]] eqn:HV.
  - exact (NoVariableDiag_verify E ds HV).
  - destruct (v <=? 0); repeat constructor; discriminate.
Qed.

Lemma NoVariableDiag_convertOpt CI E :
  NoVariableDiag (snd (CheckAndConvertOptArg CI E)).
Proof.
  unfold CheckAndConvertOptArg. destruct E as [E|]; [|constructor].
  pose proof (NoVariableDiag_convert CI E) as H.
  destruct (CheckAndConvertArg CI E) as [[E'|] ds]; exact H.
Qed.

Lemma NoVariableDiag_bits CI Exprs ds :
  convertBankBitsArgs CI Exprs = inl ds -> NoVariableDiag ds.
Proof.
  revert ds. induction Exprs as [|E l IH]; intros ds; simpl; [discriminate|].
  destruct (negb (isValueDependent E)).
  - destruct (VerifyIntegerConstantExpression E) as [ds'|[E' v]] eqn:HV.
    + intros H. inversion H; subst. exact (NoVariableDiag_verify E ds HV).
    + destruct (v <? 0).
      * intros H. inversion H. repeat constructor. discriminate.
      * destruct (convertBankBitsArgs CI l) as [ds'|[[? ?] ?]];
          intros H; inversion H; subst. now apply IH.
  - destruct (convertBankBitsArgs CI l) as [ds'|[[? ?] ?]];
      intros H; inversion H; subst. now apply IH.
Qed.

Ltac no_variable_diag :=
  cbn [snd];
  repeat first
    [ apply Forall_nil
    | apply Forall_cons; [discriminate|]
    | apply Forall_app; split
    | assumption
    | match goal with
      | H : VerifyIntegerConstantExpression _ = inl ?ds |- NoVariableDiag ?ds =>
          exact (NoVariableDiag_verify _ _ H)
      | H : convertBankBitsArgs _ _ = inl ?ds |- NoVariableDiag ?ds =>
          exact (NoVariableDiag_bits _ _ _ H)
      end ];
  unfold NoVariableDiag;
  repeat first
    [ apply Forall_nil
    | apply Forall_cons; [discriminate|]
    | apply Forall_app; split
    | assumption ].

Lemma NoVariableDiag_sizes AL i args :
  NoVariableDiag (snd (checkWorkGroupSizes AL i args)).
Proof.
  revert i. induction args as [|E l IH]; intros i; simpl; [constructor|].
  unfold checkUInt32Argument.
  destruct (EvaluateAsInt E) as [v|]; [|repeat constructor; discriminate].
  destruct (2 ^ 32 <=? v); [repeat constructor; discriminate|].
  destruct (true && (v <? 0)); [repeat constructor; discriminate|].
  destruct (toUnsigned v =? 0); [repeat constructor; discriminate|].
  specialize (IH (Datatypes.S i)).
  destruct (checkWorkGroupSizes AL (Datatypes.S i) l) as [[ws|] ds]; exact IH.
Qed.

Lemma NoVariableDiag_work_group_size D AL args :
  NoVariableDiag (snd (handleWorkGroupSize D AL args)).
Proof.
  unfold handleWorkGroupSize.
  destruct args as [|E0 [|E1 [|E2 [|E3 l]]]];
    try (no_variable_diag; fail).
  pose proof (NoVariableDiag_sizes AL 0 [E0; E1; E2]) as H.
  destruct (checkWorkGroupSizes AL 0 [E0; E1; E2])
    as [[[|X [|Y [|Z [|W l]]]]|] ds]; try exact H.
  cbn [snd]. destruct (getAttr AT_ReqdWorkGroupSize D) as [Ex|];
    [destruct (attrData Ex)|]; split_matches; no_variable_diag.
Qed.

Lemma host_no_variable_diag S D AL :
  SYCLIsDevice S = false -> NoVariableDiag (snd (handleDeclAttribute S D AL)).
Proof.
  intros Hhost. destruct AL as [loc A]. unfold handleDeclAttribute.
  cbn [parsedArgs]. destruct A.
  - unfold handleReqdWorkGroupSize.
    destruct (SYCLIsDevice S || SYCLIsHost S);
      [|apply NoVariableDiag_work_group_size].
    unfold handleSYCLReqdWorkGroupSize.
    assert (H : forall X Y Z,
               NoVariableDiag (snd (AddSYCLReqdWorkGroupSizeAttr S D
                 (commonInfo (mkParsedAttr loc (ReqdWorkGroupSizeArgs args)))
                 X Y Z))).
    { intros X Y Z. unfold AddSYCLReqdWorkGroupSizeAttr.
      pose proof (NoVariableDiag_convert
                    (commonInfo (mkParsedAttr loc (ReqdWorkGroupSizeArgs args))) X).
      pose proof (NoVariableDiag_convertOpt
                    (commonInfo (mkParsedAttr loc (ReqdWorkGroupSizeArgs args))) Y).
      pose proof (NoVariableDiag_convertOpt
                    (commonInfo (mkParsedAttr loc (ReqdWorkGroupSizeArgs args))) Z).
      destruct (CheckAndConvertArg _ X) as [XC dsX].
      destruct (CheckAndConvertOptArg _ Y) as [YC dsY].
      destruct (CheckAndConvertOptArg _ Z) as [ZC dsZ].
      cbn [snd] in *.
      split_matches; no_variable_diag. }
    destruct args as [|X [|Y [|Z [|W l]]]]; try apply H;
      repeat constructor; discriminate.
  - unfold AddSYCLIntelMaxWorkGroupSizeAttr.
    pose proof (NoVariableDiag_convert
                  (commonInfo (mkParsedAttr loc (MaxWorkGroupSizeArgs X Y Z))) X).
    pose proof (NoVariableDiag_convert
                  (commonInfo (mkParsedAttr loc (MaxWorkGroupSizeArgs X Y Z))) Y).
    pose proof (NoVariableDiag_convert
                  (commonInfo (mkParsedAttr loc (MaxWorkGroupSizeArgs X Y Z))) Z).
    destruct (CheckAndConvertArg _ X) as [XC dsX].
    destruct (CheckAndConvertArg _ Y) as [YC dsY].
    destruct (CheckAndConvertArg _ Z) as [ZC dsZ].
    cbn [snd] in *.
    split_matches; no_variable_diag.
  - unfold AddSYCLIntelNumSimdWorkItemsAttr.
    destruct (negb (isValueDependent E));
      [destruct (VerifyIntegerConstantExpression E) as [ds|[E' v]] eqn:HV|];
      split_matches; no_variable_diag.
  - unfold handleSYCLIntelMemoryAttr. rewrite Hhost. cbn [andb].
    destruct Kind as [Kind|]; [|no_variable_diag].
    destruct (getAttr AT_SYCLIntelMemory D) as [MA|];
      [destruct (negb (isImplicit MA)); [destruct (attrData MA)|]|];
      split_matches; no_variable_diag.
  - unfold handleSYCLIntelRegisterAttr. rewrite Hhost. cbn [andb].
    split_matches; no_variable_diag.
  - unfold AddSYCLIntelBankWidthAttr. rewrite Hhost. cbn [andb].
    destruct (negb (isValueDependent E));
      [destruct (VerifyIntegerConstantExpression E) as [ds|[E' v]] eqn:HV|];
      split_matches; no_variable_diag.
  - unfold AddSYCLIntelNumBanksAttr. rewrite Hhost. cbn [andb].
    destruct (negb (isValueDependent E));
      [destruct (VerifyIntegerConstantExpression E) as [ds|[E' v]] eqn:HV|];
      split_matches; no_variable_diag.
  - unfold handleSYCLIntelBankBitsAttr, checkForDuplicateAttribute.
    assert (H : NoVariableDiag
                  (snd (AddSYCLIntelBankBitsAttr S D
                     (commonInfo (mkParsedAttr loc (BankBitsArgs args))) args))).
    { unfold AddSYCLIntelBankBitsAttr. rewrite Hhost. cbn [andb].
      destruct (convertBankBitsArgs _ args) as [ds|[[Args Values] dp]] eqn:HC;
        split_matches; no_variable_diag. }
    destruct (AddSYCLIntelBankBitsAttr S D _ args) as [D1 ds1]. cbn [snd] in H.
    split_matches; no_variable_diag.
Qed.

(** The FPGA memory attributes whose single argument may be value
    dependent. *)
Definition dependentArgument (AL : ParsedAttr) : bool :=
  match parsedArgs AL with
  | BankWidthArgs E | NumBanksArgs E => isValueDependent E
  | _ => false
  end.

Definition isFPGAMemoryAttribute (K : AttrKind) : bool :=
  match K with
  | AT_SYCLIntelMemory | AT_SYCLIntelRegister | AT_SYCLIntelBankWidth
  | AT_SYCLIntelNumBanks | AT_SYCLIntelBankBits => true
  | _ => false
  end.

Lemma length_attrsOfKind_dropAttr K K' D :
  (length (attrsOfKind K (dropAttr K' D)) <= length (attrsOfKind K D))%nat.
Proof.
  unfold attrsOfKind, dropAttr; simpl.
  induction (attrs D) as [|A l IH]; simpl; [lia|].
  destruct (isa K' A); simpl; destruct (isa K A); simpl; lia.
Qed.

Ltac same_count := cbn [fst]; apply Nat.le_refl.

Lemma device_rejects_on_invalid_variable S D AL :
  SYCLIsDevice S = true -> CheckValidFPGAMemoryAttributesVar D = true ->
  isFPGAMemoryAttribute (parsedKind AL) = true ->
  dependentArgument AL = false ->
  (length (attrsOfKind (parsedKind AL) (fst (handleDeclAttribute S D AL))) <=
   length (attrsOfKind (parsedKind AL) D))%nat.
Proof.
  intros Hdev Hvar HK Hdep. destruct AL as [loc A].
  unfold handleDeclAttribute, parsedKind, dependentArgument in *.
  cbn [parsedArgs] in *. destruct A; try discriminate HK.
  - unfold handleSYCLIntelMemoryAttr. rewrite CheckValid_dropAttr, Hdev, Hvar.
    cbn [andb]. destruct Kind as [Kind|]; [|same_count].
    destruct (getAttr AT_SYCLIntelMemory D) as [MA|];
      [destruct (negb (isImplicit MA)); [destruct (attrData MA)|]|];
      split_matches; try same_count.
    cbn [fst]. apply length_attrsOfKind_dropAttr.
  - unfold handleSYCLIntelRegisterAttr. rewrite Hdev, Hvar.
    rewrite orb_true_r. cbn [andb].
    split_matches; same_count.
  - unfold AddSYCLIntelBankWidthAttr. rewrite Hdev, Hvar, Hdep. cbn [andb negb].
    destruct (VerifyIntegerConstantExpression E) as [ds|[E' v]];
      split_matches; same_count.
  - unfold AddSYCLIntelNumBanksAttr. rewrite Hdev, Hvar, Hdep. cbn [andb negb].
    destruct (VerifyIntegerConstantExpression E) as [ds|[E' v]];
      split_matches; same_count.
  - unfold handleSYCLIntelBankBitsAttr.
    assert (H : (length (attrsOfKind AT_SYCLIntelBankBits
                   (fst (AddSYCLIntelBankBitsAttr S D
                      (commonInfo (mkParsedAttr loc (BankBitsArgs args))) args)))
                 <= length (attrsOfKind AT_SYCLIntelBankBits D))%nat).
    { unfold AddSYCLIntelBankBitsAttr.
      destruct (convertBankBitsArgs _ args) as [ds|[[Args Values] dp]];
        [same_count|].
      cbv zeta beta. rewrite ?CheckValid_addAttr, Hdev, Hvar. cbn [andb].
      split_matches; try same_count.
      cbn [fst]. rewrite attrsOfKind_addAttr_other by reflexivity.
      apply Nat.le_refl. }
    destruct (AddSYCLIntelBankBitsAttr S D _ args) as [D1 ds1]. cbn [fst] in H.
    split_matches; try same_count. exact H.
Qed.

(** X18: whether a declaration is a valid variable for the FPGA memory
    attributes matters in device compilation only.  Outside it (host
    compilation, or no SYCL at all) no handler emits the diagnostic about the
    kind of variable.  In device compilation, on a declaration the check
    rejects, handling [fpga_memory], [fpga_register], [bank_bits], or a
    [bankwidth] or [numbanks] whose argument is not value dependent, never
    adds an attribute of that kind; a [bankwidth] whose argument is value
    dependent is attached without the check, whatever the declaration.
    (Stated for the arguments on which the C++ of the [bank_bits] handler is
    defined.) *)
Theorem variable_check_is_for_device_compilation
    (S : Sema) (D : Decl) (AL : ParsedAttr)
    (Hdef : definedArgs AL = true) :
  (SYCLIsDevice S = false ->
   NoVariableDiag (snd (handleDeclAttribute S D AL))) /\
  (SYCLIsDevice S = true -> CheckValidFPGAMemoryAttributesVar D = true ->
   isFPGAMemoryAttribute (parsedKind AL) = true ->
   dependentArgument AL = false ->
   (length (attrsOfKind (parsedKind AL) (fst (handleDeclAttribute S D AL))) <=
    length (attrsOfKind (parsedKind AL) D))%nat) /\
  (forall E, parsedArgs AL = BankWidthArgs E -> isValueDependent E = true ->
   handleDeclAttribute S D AL =
     (addAttr (mkAttr (parsedLoc AL) false (SYCLIntelBankWidthAttr E))
        (addImplicitMemory D), [])).
Proof.
  clear Hdef.
  split; [apply host_no_variable_diag|].
  split; [apply device_rejects_on_invalid_variable|].
  intros E HA HE. unfold handleDeclAttribute. rewrite HA.
  unfold AddSYCLIntelBankWidthAttr. rewrite HE. reflexivity.
Qed.

(** [bank_bits(0,1)] on a variable at namespace scope: in device
    compilation it is not attached; outside SYCL no diagnostic is about the
    kind of variable. *)
Lemma variable_check_is_for_device_compilation_witness :
  (length (attrsOfKind AT_SYCLIntelBankBits
             (fst (handleDeclAttribute DeviceSema GlobalVar
                     (mkParsedAttr 1%nat
                        (BankBitsArgs [lit 2%nat 0; lit 3%nat 1])))))
   <= length (attrsOfKind AT_SYCLIntelBankBits GlobalVar))%nat /\
  NoVariableDiag
    (snd (handleDeclAttribute NonSYCLSema GlobalVar
            (mkParsedAttr 1%nat (BankBitsArgs [lit 2%nat 0; lit 3%nat 1])))).
Proof.
  split.
  - exact (proj1 (proj2 (variable_check_is_for_device_compilation DeviceSema
                           GlobalVar
                           (mkParsedAttr 1%nat
                              (BankBitsArgs [lit 2%nat 0; lit 3%nat 1]))
                           eq_refl))
             eq_refl eq_refl eq_refl eq_refl).
  - exact (proj1 (variable_check_is_for_device_compilation NonSYCLSema
                    GlobalVar
                    (mkParsedAttr 1%nat
                       (BankBitsArgs [lit 2%nat 0; lit 3%nat 1]))
                    eq_refl)
             eq_refl).
Defined.

(** ** Attribute names *)

Lemma equals_spec a b : equals a b = true <-> a = b.
Proof.
  revert b. induction a as [|x a IH]; intros [|y b]; simpl;
    try (split; [discriminate|discriminate]); [tauto|].
  rewrite andb_true_iff, IH. split.
  - intros [H1 H2]. apply Ascii.eqb_eq in H1. now subst.
  - intros H. inversion H; subst. split; [apply Ascii.eqb_refl|reflexivity].
Qed.

Lemma starts_with_spec s p : starts_with s p = true <-> exists t, s = p ++ t.
Proof.
  unfold starts_with. rewrite andb_true_iff, Nat.leb_le, equals_spec. split.
  - intros [_ H]. exists (skipn (length p) s).
    pose proof (firstn_skipn (length p) s) as F. rewrite H in F.
    now symmetry.
  - intros [t ->]. rewrite length_app. split; [lia|].
    rewrite firstn_app, Nat.sub_diag, firstn_all. simpl. apply app_nil_r.
Qed.

Lemma ends_with_spec s p : ends_with s p = true <-> exists t, s = t ++ p.
Proof.
  unfold ends_with. rewrite andb_true_iff, Nat.leb_le, equals_spec. split.
  - intros [_ H]. exists (firstn (length s - length p) s).
    pose proof (firstn_skipn (length s - length p) s) as F. rewrite H in F.
    now symmetry.
  - intros [t ->]. rewrite length_app. split; [lia|].
    replace (length t + length p - length p)%nat with (length t + 0)%nat by lia.
    now rewrite skipn_app, Nat.add_0_r, skipn_all, Nat.sub_diag.
Qed.

Definition underscored (s : StringRef) : StringRef :=
  ["_"; "_"]%char ++ s ++ ["_"; "_"]%char.

Lemma normalizeName_underscored s :
  s <> [] -> normalizeName (underscored s) = (s, true).
Proof.
  intros Hs. unfold normalizeName.
  assert (Hlen : (4 <? length (underscored s))%nat = true).
  { apply Nat.ltb_lt. unfold underscored. rewrite !length_app. simpl.
    destruct s; [contradiction|simpl; lia]. }
  assert (Hst : starts_with (underscored s) ["_"; "_"]%char = true).
  { apply starts_with_spec. now exists (s ++ ["_"; "_"]%char). }
  assert (Hen : ends_with (underscored s) ["_"; "_"]%char = true).
  { apply ends_with_spec. exists (["_"; "_"]%char ++ s).
    unfold underscored. now rewrite app_assoc. }
  rewrite Hlen, Hst, Hen. simpl. f_equal.
  unfold drop_back, drop_front, underscored. simpl.
  rewrite length_app. simpl.
  replace (length s + 2 - 2)%nat with (length s + 0)%nat by lia.
  now rewrite firstn_app, Nat.add_0_r, firstn_all, Nat.sub_diag, app_nil_r.
Qed.

(** X19: [normalizeName] undoes the double underscores and nothing else:
    [__foo__] becomes [foo] for every non-empty [foo]; when the normalization
    is applied the name was the result between double underscores and the
    result is not empty; and when it is not applied the name is returned as
    it is. *)
Theorem normalizeName_round_trip (AttrName : StringRef) :
  (AttrName <> [] -> normalizeName (underscored AttrName) = (AttrName, true)) /\
  (forall r, normalizeName AttrName = (r, true) ->
             AttrName = underscored r /\ r <> []) /\
  (forall r, normalizeName AttrName = (r, false) -> r = AttrName).
Proof.
  split; [apply normalizeName_underscored|]. split.
  - intros r. unfold normalizeName.
    destruct (4 <? length AttrName)%nat eqn:Hlen; [|intros H; inversion H].
    destruct (starts_with AttrName ["_"; "_"]%char) eqn:Hst;
      [|intros H; inversion H].
    destruct (ends_with AttrName ["_"; "_"]%char) eqn:Hen;
      [|intros H; inversion H].
    simpl. intros H. inversion H as [Hr]. clear H.
    apply Nat.ltb_lt in Hlen.
    apply starts_with_spec in Hst. destruct Hst as [t Ht].
    apply ends_with_spec in Hen. destruct Hen as [u Hu].
    assert (Htlen : (2 < length t)%nat).
    { rewrite Ht in Hlen. simpl in Hlen. lia. }
    assert (Htu : exists m, t = m ++ ["_"; "_"]%char).
    { exists (firstn (length t - 2) t).
      assert (Hs : skipn (length t - 2) t = ["_"; "_"]%char).
      { assert (H1 : skipn (length AttrName - 2) AttrName = ["_"; "_"]%char).
        { rewrite Hu at 2. rewrite Hu, length_app. simpl.
          replace (length u + 2 - 2)%nat with (length u + 0)%nat by lia.
          now rewrite skipn_app, Nat.add_0_r, skipn_all, Nat.sub_diag. }
        rewrite Ht in H1. simpl length in H1.
        replace (Datatypes.S (Datatypes.S (length t)) - 2)%nat
          with (2 + (length t - 2))%nat in H1 by lia.
        simpl in H1. exact H1. }
      pose proof (firstn_skipn (length t - 2) t) as F. rewrite Hs in F.
      now symmetry. }
    destruct Htu as [m Hm]. subst t.
    unfold drop_back, drop_front. rewrite Ht. simpl.
    rewrite length_app. simpl.
    replace (length m + 2 - 2)%nat with (length m + 0)%nat by lia.
    rewrite firstn_app, Nat.add_0_r, firstn_all, Nat.sub_diag. simpl.
    rewrite app_nil_r. split; [reflexivity|].
    intros ->. rewrite length_app in Htlen. simpl in Htlen. lia.
  - intros r. unfold normalizeName.
    destruct (_ && _ && _); intros H; inversion H; reflexivity.
Qed.

(** ** Machine modes *)

Ltac char_cases c :=
  repeat match goal with
         | |- context [Ascii.eqb c ?k] =>
             destruct (Ascii.eqb_spec c k); [subst c|]
         end.

(** X20: the two-letter machine modes [parseModeAttrArg] knows.  Called with
    a width of zero, it yields a width other than zero exactly for Q, H, S,
    D, X or T followed by I, F or C, and for K or I followed by F or C; the
    mode is not an integer mode exactly when the second letter is F or C,
    and complex exactly when it is C; an explicit floating-point type is
    named exactly when the first letter is K, T or I.  A mode string whose
    length is not 2, 4, 7 or 11 leaves everything as it was. *)
Theorem two_letter_machine_modes (TI : TargetInfo) (c0 c1 : ascii) :
  let M := parseModeAttrArg TI [c0; c1] 0 in
  (DestWidth M <> 0 <->
   (In c0 ["Q"; "H"; "S"; "D"; "X"; "T"]%char /\ In c1 ["I"; "F"; "C"]%char) \/
   (In c0 ["K"; "I"]%char /\ In c1 ["F"; "C"]%char)) /\
  (IntegerMode M = false <-> In c1 ["F"; "C"]%char) /\
  (ComplexMode M = true <-> c1 = "C"%char) /\
  (ExplicitType M <> NoFloat <-> In c0 ["K"; "T"; "I"]%char) /\
  (forall Str w,
     ~ In (length Str) [2; 4; 7; 11]%nat ->
     parseModeAttrArg TI Str w = mkModeArg w true false NoFloat).
Proof.
  cbv zeta. unfold parseModeAttrArg.
  split; [|split; [|split; [|split]]].
  - split.
    + char_cases c0; char_cases c1; simpl; intros H;
        try (exfalso; now apply H);
        try (left; split; simpl; tauto); try (right; split; simpl; tauto).
    + char_cases c0; char_cases c1; simpl;
        intros [[H0 H1]|[H0 H1]]; simpl in H0, H1; try discriminate;
        repeat match goal with
               | H : _ \/ _ |- _ => destruct H
               | H : False |- _ => destruct H
               end; congruence.
  - split.
    + char_cases c0; char_cases c1; simpl; intros H; try discriminate H; tauto.
    + char_cases c0; char_cases c1; simpl; intros H; try reflexivity;
        repeat match goal with
               | H : _ \/ _ |- _ => destruct H
               | H : False |- _ => destruct H
               end; congruence.
  - split.
    + char_cases c0; char_cases c1; simpl; intros H; try discriminate H;
        reflexivity.
    + intros ->. char_cases c0; reflexivity.
  - split.
    + char_cases c0; char_cases c1; simpl; intros H;
        try (exfalso; now apply H); tauto.
    + char_cases c0; char_cases c1; simpl; intros H;
        repeat match goal with
               | H : _ \/ _ |- _ => destruct H
               | H : False |- _ => destruct H
               end; try congruence; discriminate.
  - intros Str w Hlen.
    destruct Str
      as [|a0 [|a1 [|a2 [|a3 [|a4 [|a5 [|a6 [|a7 [|a8 [|a9 [|a10 [|a11 Str]]]]]]]]]]]];
      try reflexivity; exfalso; apply Hlen; simpl; tauto.
Qed.

(** ** [num_simd_work_items] divides the fastest size *)

(** X21: with all values known and the fastest (last specified) required
    size below 2^32, the handlers accept [num_simd_work_items(n)] next to
    [reqd_work_group_size] exactly when [n] evenly divides that size,
    whichever of the two arrives second: otherwise the arriving attribute is
    diagnosed, with a note at the other attribute, and not attached. *)
Theorem num_simd_divides_fastest_size
    (S : Sema) (D : Decl) (CI : AttributeCommonInfo) :
  (forall RA RX RY RZ R E n,
     getAttr AT_SYCLReqdWorkGroupSize D = Some RA ->
     attrData RA = SYCLReqdWorkGroupSizeAttr RX RY RZ ->
     DimValues KnownSize RX RY RZ R -> last R 0 < 2 ^ 32 ->
     ArrivingSize E n ->
     getAttr AT_SYCLIntelNumSimdWorkItems D = None ->
     AddSYCLIntelNumSimdWorkItemsAttr S D CI E =
       if last R 0 mod n =? 0 then
         (addAttr (mkAttr (ciLoc CI) false
                     (SYCLIntelNumSimdWorkItemsAttr (converted E n))) D, [])
       else
         (D, [Diag (ciLoc CI) err_sycl_num_kernel_wrong_reqd_wg_size
                   [ArgAttr (ciKind CI); ArgAttr AT_SYCLReqdWorkGroupSize];
              Diag (getLoc RA) note_conflicting_attribute []])) /\
  (forall NA NE n RX RY RZ R,
     getAttr AT_SYCLIntelNumSimdWorkItems D = Some NA ->
     attrData NA = SYCLIntelNumSimdWorkItemsAttr NE ->
     KnownSize NE n ->
     DimValues ArrivingSize RX RY RZ R -> last R 0 < 2 ^ 32 ->
     getAttr AT_SYCLIntelMaxGlobalWorkDim D = None ->
     getAttr AT_SYCLIntelMaxWorkGroupSize D = None ->
     getAttr AT_SYCLReqdWorkGroupSize D = None ->
     exists XC YC ZC,
       DimValues KnownSize XC YC ZC R /\
       AddSYCLReqdWorkGroupSizeAttr S D CI RX RY RZ =
         if last R 0 mod n =? 0 then
           (addAttr (mkAttr (ciLoc CI) false
                       (SYCLReqdWorkGroupSizeAttr XC YC ZC)) D, [])
         else
           (D, [Diag (getLoc NA) err_sycl_num_kernel_wrong_reqd_wg_size
                     [ArgAttr AT_SYCLIntelNumSimdWorkItems; ArgAttr (ciKind CI)];
                Diag (ciLoc CI) note_conflicting_attribute []])).
Proof.
  split.
  - intros RA RX RY RZ R E n Hget Hdata HR Hlast HE Hnone.
    destruct (IntegerArg_verify E n (proj1 HE)) as [Hdep Hver].
    pose proof (CheckWorkGroupSize_spec (converted E n) n RX RY RZ R
                  (converted_KnownSize E n HE) HR Hlast) as Hspec.
    unfold AddSYCLIntelNumSimdWorkItemsAttr. rewrite Hdep, Hver.
    cbn [negb]. cbv iota.
    destruct HE as [_ [Hpos _]]. destruct (Z.leb_spec n 0); [lia|].
    rewrite Hnone, Hget. unfold getReqdDims. rewrite Hdata.
    fold (converted E n).
    destruct (Z.eqb_spec (last R 0 mod n) 0) as [Hz|Hz].
    + destruct (CheckWorkGroupSize (converted E n) RX RY RZ) eqn:Hc;
        [|reflexivity].
      exfalso. now apply (proj1 Hspec).
    + rewrite (proj2 Hspec Hz), ?Hdata. reflexivity.
  - intros NA NE n RX RY RZ R Hget Hdata HN HR Hlast Hdim Hmax Hreqd.
    destruct (CheckAndConvert_dims CI RX RY RZ R HR)
      as [XC [YC [ZC [HcX [HcY [HcZ HK]]]]]].
    exists XC, YC, ZC. split; [exact HK|].
    pose proof (CheckWorkGroupSize_spec NE n XC YC ZC R HN HK Hlast) as Hspec.
    unfold AddSYCLReqdWorkGroupSizeAttr. rewrite HcX, HcY, HcZ.
    rewrite Hdim, Hmax, Hget, Hreqd. unfold getValue. rewrite Hdata.
    destruct (Z.eqb_spec (last R 0 mod n) 0) as [Hz|Hz].
    + destruct (CheckWorkGroupSize NE XC YC ZC) eqn:Hc; [|reflexivity].
      exfalso. now apply (proj1 Hspec).
    + rewrite (proj2 Hspec Hz), ?Hdata. reflexivity.
Qed.

(** A kernel function with [reqd_work_group_size(4,4,16)], on which
    [num_simd_work_items(5)] is rejected and [num_simd_work_items(4)]
    accepted. *)
Definition Reqd4416 : Attr :=
  mkAttr 1%nat false
    (SYCLReqdWorkGroupSizeAttr (cst 2%nat 4) (Some (cst 3%nat 4))
                               (Some (cst 4%nat 16))).

Definition WithReqd4416 : Decl := addAttr Reqd4416 KernelFunction.

Lemma SizeValue_16 : SizeValue 16.
Proof. split; reflexivity. Defined.

Lemma SizeValue_5 : SizeValue 5.
Proof. split; reflexivity. Defined.

Lemma num_simd_divides_fastest_size_witness :
  AddSYCLIntelNumSimdWorkItemsAttr DeviceSema WithReqd4416
    (mkCI 5%nat AT_SYCLIntelNumSimdWorkItems) (lit 6%nat 5) =
    (WithReqd4416,
     [Diag 5%nat err_sycl_num_kernel_wrong_reqd_wg_size
           [ArgAttr AT_SYCLIntelNumSimdWorkItems;
            ArgAttr AT_SYCLReqdWorkGroupSize];
      Diag 1%nat note_conflicting_attribute []]) /\
  AddSYCLIntelNumSimdWorkItemsAttr DeviceSema WithReqd4416
    (mkCI 5%nat AT_SYCLIntelNumSimdWorkItems) (lit 6%nat 4) =
    (addAttr (mkAttr 5%nat false (SYCLIntelNumSimdWorkItemsAttr (cst 6%nat 4)))
       WithReqd4416, []).
Proof.
  split.
  - apply (proj1 (num_simd_divides_fastest_size DeviceSema WithReqd4416
                    (mkCI 5%nat AT_SYCLIntelNumSimdWorkItems))
             Reqd4416 (cst 2%nat 4) (Some (cst 3%nat 4)) (Some (cst 4%nat 16))
             [4; 4; 16] (lit 6%nat 5) 5 eq_refl eq_refl).
    + constructor; apply KnownSize_cst; try exact SizeValue_4;
        exact SizeValue_16.
    + reflexivity.
    + split; [reflexivity|exact SizeValue_5].
    + reflexivity.
  - apply (proj1 (num_simd_divides_fastest_size DeviceSema WithReqd4416
                    (mkCI 5%nat AT_SYCLIntelNumSimdWorkItems))
             Reqd4416 (cst 2%nat 4) (Some (cst 3%nat 4)) (Some (cst 4%nat 16))
             [4; 4; 16] (lit 6%nat 4) 4 eq_refl eq_refl).
    + constructor; apply KnownSize_cst; try exact SizeValue_4;
        exact SizeValue_16.
    + reflexivity.
    + split; [reflexivity|exact SizeValue_4].
    + reflexivity.
Defined.

(** ** Deferred validation of value-dependent arguments *)

(** No decoration of the declaration is pending. *)
Definition Resolved (D : Decl) : Prop :=
  Forall (fun A => isPending A = false) (attrs D).

Lemma filter_none {A} (f : A -> bool) (l : list A) :
  Forall (fun x => f x = false) l -> filter f l = [].
Proof.
  induction 1 as [|x l Hx _ IH]; simpl; [reflexivity|]. now rewrite Hx.
Qed.

Lemma filter_all {A} (f : A -> bool) (l : list A) :
  Forall (fun x => f x = false) l -> filter (fun x => negb (f x)) l = l.
Proof.
  induction 1 as [|x l Hx _ IH]; simpl; [reflexivity|]. rewrite Hx. simpl.
  now f_equal.
Qed.

Lemma setAttrs_addAttr A D : setAttrs (addAttr A D) (attrs D) = D.
Proof. destruct D; reflexivity. Qed.

Lemma Resolved_addAttr A D :
  isPending A = false -> Resolved D -> Resolved (addAttr A D).
Proof.
  unfold Resolved, addAttr; simpl. intros HA H.
  apply Forall_app. split; [exact H|]. now repeat constructor.
Qed.

Lemma Resolved_addImplicitMemory D : Resolved D -> Resolved (addImplicitMemory D).
Proof.
  unfold addImplicitMemory. intros H.
  destruct (hasAttr AT_SYCLIntelMemory D); [exact H|].
  now apply Resolved_addAttr.
Qed.

Lemma Resolved_dropAttr K D : Resolved D -> Resolved (dropAttr K D).
Proof.
  unfold Resolved, dropAttr; simpl. intros H.
  rewrite Forall_forall in *. intros A HA. apply filter_In in HA. now apply H.
Qed.

Lemma Resolved_numBanksBase D : Resolved D -> Resolved (numBanksBase D).
Proof.
  intros H. unfold numBanksBase.
  destruct (getAttr _ _) as [NBA|]; [destruct (isImplicit NBA)|];
    try apply Resolved_dropAttr; now apply Resolved_addImplicitMemory.
Qed.

(** Instantiating a resolved declaration to which one pending decoration was
    added re-runs the validation of that decoration on the declaration. *)
Lemma on_instantiated_single S sigma X A :
  Resolved X -> isPending A = true ->
  on_instantiated S sigma (addAttr A X) = revalidate S sigma A X.
Proof.
  intros HX HA. unfold on_instantiated.
  change (attrs (addAttr A X)) with (attrs X ++ [A]).
  rewrite !filter_app, (filter_none _ _ HX), (filter_all _ _ HX).
  simpl. rewrite HA. simpl. rewrite app_nil_r, setAttrs_addAttr.
  destruct (revalidate S sigma A X) as [D2 ds]. now rewrite app_nil_r.
Qed.

(** The handlers of [bankwidth] and [numbanks] on the declaration the
    deferred attachment left: the implicit attributes it added or dropped
    change neither the diagnostics nor the user-written attributes. *)
Lemma AddSYCLIntelBankWidthAttr_memory S D CI E :
  snd (AddSYCLIntelBankWidthAttr S (addImplicitMemory D) CI E) =
  snd (AddSYCLIntelBankWidthAttr S D CI E) /\
  explicitAttrs (fst (AddSYCLIntelBankWidthAttr S (addImplicitMemory D) CI E)) =
  explicitAttrs (fst (AddSYCLIntelBankWidthAttr S D CI E)).
Proof.
  unfold AddSYCLIntelBankWidthAttr.
  rewrite CheckValid_addImplicitMemory.
  rewrite getAttr_addImplicitMemory by discriminate.
  destruct (VerifyIntegerConstantExpression E) as [ds|[E' v]];
    split_ifs; simpl; split; try reflexivity;
    rewrite ?explicitAttrs_addAttr, ?explicitAttrs_addImplicitMemory;
    reflexivity.
Qed.

Lemma StoreInvariant_implicit_numbanks D NBA :
  StoreInvariant D ->
  getAttr AT_SYCLIntelNumBanks D = Some NBA -> isImplicit NBA = true ->
  getConstantValue NBA = None /\
  Forall (fun A => isImplicit A = true) (attrsOfKind AT_SYCLIntelNumBanks D).
Proof.
  intros HD Hget Hi.
  rewrite (implicit_first_alone AT_SYCLIntelNumBanks NBA D (or_intror eq_refl)
             HD Hget Hi).
  split; [|now repeat constructor].
  destruct HD as [_ [_ [H3 _]]].
  destruct (getAttr_In _ _ _ Hget) as [Hin Hk].
  destruct (H3 NBA Hin Hi) as [->|[n ->]]; [discriminate Hk|reflexivity].
Qed.

Lemma AddSYCLIntelNumBanksAttr_base S D CI E :
  StoreInvariant D ->
  snd (AddSYCLIntelNumBanksAttr S (numBanksBase D) CI E) =
  snd (AddSYCLIntelNumBanksAttr S D CI E) /\
  explicitAttrs (fst (AddSYCLIntelNumBanksAttr S (numBanksBase D) CI E)) =
  explicitAttrs (fst (AddSYCLIntelNumBanksAttr S D CI E)).
Proof.
  intros HD. unfold numBanksBase.
  rewrite getAttr_addImplicitMemory by discriminate.
  destruct (getAttr AT_SYCLIntelNumBanks D) as [NBA|] eqn:HNB;
    [destruct (isImplicit NBA) eqn:Himp|].
  - (* the implicit numbanks was dropped *)
    destruct (StoreInvariant_implicit_numbanks D NBA HD HNB Himp) as [Hnc Hall].
    assert (Hdrop : forall X, explicitAttrs
                      (dropAttr AT_SYCLIntelNumBanks (addImplicitMemory X)) =
                    explicitAttrs (dropAttr AT_SYCLIntelNumBanks X)).
    { intros X. unfold explicitAttrs, dropAttr, addImplicitMemory; simpl.
      destruct (hasAttr AT_SYCLIntelMemory X); [reflexivity|].
      simpl. rewrite filter_app. simpl. rewrite filter_app. simpl.
      now rewrite app_nil_r. }
    unfold AddSYCLIntelNumBanksAttr.
    rewrite !CheckValid_dropAttr, !CheckValid_addImplicitMemory.
    rewrite !getAttr_dropAttr_other by discriminate.
    rewrite !getAttr_addImplicitMemory by discriminate.
    rewrite getAttr_dropAttr_same, HNB, Hnc, Himp.
    destruct (VerifyIntegerConstantExpression E) as [ds|[E' v]];
      split_ifs; simpl; split; try reflexivity;
      rewrite ?explicitAttrs_addAttr, ?explicitAttrs_addImplicitMemory, ?Hdrop,
              ?(explicitAttrs_dropAttr _ _ Hall);
      reflexivity.
  - (* an explicit numbanks stays *)
    unfold AddSYCLIntelNumBanksAttr.
    rewrite !CheckValid_addImplicitMemory.
    rewrite !getAttr_addImplicitMemory by discriminate.
    rewrite HNB, Himp.
    destruct (VerifyIntegerConstantExpression E) as [ds|[E' v]];
      split_ifs; simpl; split; try reflexivity;
      rewrite ?explicitAttrs_addAttr, ?explicitAttrs_addImplicitMemory;
      reflexivity.
  - unfold AddSYCLIntelNumBanksAttr.
    rewrite !CheckValid_addImplicitMemory.
    rewrite !getAttr_addImplicitMemory by discriminate.
    rewrite HNB.
    destruct (VerifyIntegerConstantExpression E) as [ds|[E' v]];
      split_ifs; simpl; split; try reflexivity;
      rewrite ?explicitAttrs_addAttr, ?explicitAttrs_addImplicitMemory;
      reflexivity.
Qed.

(** Deferral of one single-argument decoration, written at [loc] with the
    argument [Dep] referring to a template parameter: attaching it emits
    nothing and stores the unresolved expression; instantiating the
    declaration then emits the same diagnostics, and leaves the same
    user-written attributes, as attaching the decoration with the concrete
    value [Lit] directly. *)
Definition DeferredLikeLiteral (S : Sema) (sigma : Substitution) (D : Decl)
    (Add : Decl -> AttributeCommonInfo -> Expr -> Decl * list RangeDiagnostic)
    (K : AttrKind) (mk : Expr -> AttrData) (loc : SourceLocation)
    (Dep Lit : Expr) : Prop :=
  let CI := mkCI loc K in
  snd (Add D CI Dep) = [] /\
  In (mkAttr loc false (mk Dep)) (attrs (fst (Add D CI Dep))) /\
  snd (on_instantiated S sigma (fst (Add D CI Dep))) = snd (Add D CI Lit) /\
  explicitAttrs (fst (on_instantiated S sigma (fst (Add D CI Dep)))) =
  explicitAttrs (fst (Add D CI Lit)).

Section SingleArgument.
Variables (S : Sema) (sigma : Substitution) (D : Decl).
Variables (loc l : SourceLocation) (p : nat).
Hypothesis Hres : Resolved D.

Let Dep := mkExpr l (ValueDependent p).
Let Lit := mkExpr l (IntegerLiteral (sigma p)).

Lemma In_addAttr_new A X : In A (attrs (addAttr A X)).
Proof. unfold addAttr; simpl. apply in_or_app. right. now left. Qed.

Lemma deferred_bank_width :
  DeferredLikeLiteral S sigma D
    (fun D CI E => plain (AddSYCLIntelBankWidthAttr S D CI E))
    AT_SYCLIntelBankWidth SYCLIntelBankWidthAttr loc Dep Lit.
Proof.
  unfold DeferredLikeLiteral.
  change (AddSYCLIntelBankWidthAttr S D (mkCI loc AT_SYCLIntelBankWidth) Dep)
    with (addAttr (mkAttr loc false (SYCLIntelBankWidthAttr Dep))
                  (addImplicitMemory D), @nil Diagnostic).
  cbn [plain fst snd map]. split; [reflexivity|].
  split; [apply In_addAttr_new|].
  rewrite on_instantiated_single
    by (try apply Resolved_addImplicitMemory; trivial).
  change (revalidate S sigma (mkAttr loc false (SYCLIntelBankWidthAttr Dep))
                     (addImplicitMemory D))
    with (plain (AddSYCLIntelBankWidthAttr S (addImplicitMemory D)
                   (mkCI loc AT_SYCLIntelBankWidth) Lit)).
  cbn [plain fst snd].
  destruct (AddSYCLIntelBankWidthAttr_memory S D
              (mkCI loc AT_SYCLIntelBankWidth) Lit) as [H1 H2].
  now rewrite H1, H2.
Qed.

Lemma deferred_num_banks :
  StoreInvariant D ->
  DeferredLikeLiteral S sigma D
    (fun D CI E => plain (AddSYCLIntelNumBanksAttr S D CI E))
    AT_SYCLIntelNumBanks SYCLIntelNumBanksAttr loc Dep Lit.
Proof.
  intros HD. unfold DeferredLikeLiteral.
  change (AddSYCLIntelNumBanksAttr S D (mkCI loc AT_SYCLIntelNumBanks) Dep)
    with (addAttr (mkAttr loc false (SYCLIntelNumBanksAttr Dep))
                  (numBanksBase D), @nil Diagnostic).
  cbn [plain fst snd map]. split; [reflexivity|].
  split; [apply In_addAttr_new|].
  rewrite on_instantiated_single;
    [|now apply Resolved_numBanksBase|reflexivity].
  change (revalidate S sigma (mkAttr loc false (SYCLIntelNumBanksAttr Dep))
                     (numBanksBase D))
    with (plain (AddSYCLIntelNumBanksAttr S (numBanksBase D)
                   (mkCI loc AT_SYCLIntelNumBanks) Lit)).
  cbn [plain fst snd].
  destruct (AddSYCLIntelNumBanksAttr_base S D
              (mkCI loc AT_SYCLIntelNumBanks) Lit HD) as [H1 H2].
  now rewrite H1, H2.
Qed.

Lemma deferred_num_simd :
  DeferredLikeLiteral S sigma D
    (fun D CI E => plain (AddSYCLIntelNumSimdWorkItemsAttr S D CI E))
    AT_SYCLIntelNumSimdWorkItems SYCLIntelNumSimdWorkItemsAttr loc Dep Lit.
Proof.
  unfold DeferredLikeLiteral.
  change (AddSYCLIntelNumSimdWorkItemsAttr S D
            (mkCI loc AT_SYCLIntelNumSimdWorkItems) Dep)
    with (addAttr (mkAttr loc false (SYCLIntelNumSimdWorkItemsAttr Dep)) D,
          @nil Diagnostic).
  cbn [plain fst snd map]. split; [reflexivity|].
  split; [apply In_addAttr_new|].
  rewrite on_instantiated_single by trivial.
  split; reflexivity.
Qed.

Lemma deferred_max_global_work_dim :
  DeferredLikeLiteral S sigma D AddSYCLIntelMaxGlobalWorkDimAttr
    AT_SYCLIntelMaxGlobalWorkDim SYCLIntelMaxGlobalWorkDimAttr loc Dep Lit.
Proof.
  unfold DeferredLikeLiteral.
  change (AddSYCLIntelMaxGlobalWorkDimAttr D
            (mkCI loc AT_SYCLIntelMaxGlobalWorkDim) Dep)
    with (addAttr (mkAttr loc false (SYCLIntelMaxGlobalWorkDimAttr Dep)) D,
          @nil RangeDiagnostic).
  cbn [fst snd]. split; [reflexivity|].
  split; [apply In_addAttr_new|].
  rewrite on_instantiated_single by trivial.
  split; reflexivity.
Qed.

(** The validation that was deferred is run at the instantiation: a value
    the handler does not take is diagnosed then, at the argument, and the
    decoration is gone. *)
Definition RejectedWhenInstantiated (att : Decl * list RangeDiagnostic)
    (d : RangeDiagnostic) : Prop :=
  snd (on_instantiated S sigma (fst att)) = [d] /\
  explicitAttrs (fst (on_instantiated S sigma (fst att))) = explicitAttrs D.

Lemma rejected_bank_width :
  let att := plain (AddSYCLIntelBankWidthAttr S D
                      (mkCI loc AT_SYCLIntelBankWidth) Dep) in
  (sigma p <= 0 ->
   RejectedWhenInstantiated att
     (Plain (Diag l err_attribute_requires_positive_integer
                  [ArgAttr AT_SYCLIntelBankWidth; ArgSelect 0]))) /\
  (0 < sigma p -> ~ PowerOfTwo (sigma p) ->
   RejectedWhenInstantiated att
     (Plain (Diag l err_attribute_argument_not_power_of_two
                  [ArgAttr AT_SYCLIntelBankWidth]))).
Proof.
  intros att. subst att. unfold RejectedWhenInstantiated.
  change (AddSYCLIntelBankWidthAttr S D (mkCI loc AT_SYCLIntelBankWidth) Dep)
    with (addAttr (mkAttr loc false (SYCLIntelBankWidthAttr Dep))
                  (addImplicitMemory D), @nil Diagnostic).
  cbn [plain fst snd map].
  rewrite on_instantiated_single
    by (try apply Resolved_addImplicitMemory; trivial).
  change (revalidate S sigma (mkAttr loc false (SYCLIntelBankWidthAttr Dep))
                     (addImplicitMemory D))
    with (plain (AddSYCLIntelBankWidthAttr S (addImplicitMemory D)
                   (mkCI loc AT_SYCLIntelBankWidth) Lit)).
  unfold AddSYCLIntelBankWidthAttr, Lit, isValueDependent,
    VerifyIntegerConstantExpression. cbn [exprKind getExprLoc negb].
  split.
  - intros Hle. destruct (Z.leb_spec (sigma p) 0); [|lia].
    cbn [plain fst snd map ciKind]. split; [reflexivity|].
    apply explicitAttrs_addImplicitMemory.
  - intros Hpos Hnp. destruct (Z.leb_spec (sigma p) 0); [lia|].
    rewrite (not_PowerOfTwo_isPowerOf2 _ Hpos Hnp).
    cbn [plain fst snd map ciKind negb]. split; [reflexivity|].
    apply explicitAttrs_addImplicitMemory.
Qed.

Lemma rejected_num_banks :
  StoreInvariant D ->
  let att := plain (AddSYCLIntelNumBanksAttr S D
                      (mkCI loc AT_SYCLIntelNumBanks) Dep) in
  (sigma p <= 0 ->
   RejectedWhenInstantiated att
     (Plain (Diag l err_attribute_requires_positive_integer
                  [ArgAttr AT_SYCLIntelNumBanks; ArgSelect 0]))) /\
  (0 < sigma p -> ~ PowerOfTwo (sigma p) ->
   RejectedWhenInstantiated att
     (Plain (Diag l err_attribute_argument_not_power_of_two
                  [ArgAttr AT_SYCLIntelNumBanks]))).
Proof.
  intros HD att. subst att. unfold RejectedWhenInstantiated.
  change (AddSYCLIntelNumBanksAttr S D (mkCI loc AT_SYCLIntelNumBanks) Dep)
    with (addAttr (mkAttr loc false (SYCLIntelNumBanksAttr Dep))
                  (numBanksBase D), @nil Diagnostic).
  cbn [plain fst snd map].
  rewrite on_instantiated_single;
    [|now apply Resolved_numBanksBase|reflexivity].
  change (revalidate S sigma (mkAttr loc false (SYCLIntelNumBanksAttr Dep))
                     (numBanksBase D))
    with (plain (AddSYCLIntelNumBanksAttr S (numBanksBase D)
                   (mkCI loc AT_SYCLIntelNumBanks) Lit)).
  assert (Hexp : explicitAttrs (numBanksBase D) = explicitAttrs D)
    by exact (proj2 (Quiet_keeps D _ (Quiet_numBanksBase D) HD)).
  unfold AddSYCLIntelNumBanksAttr, Lit, isValueDependent,
    VerifyIntegerConstantExpression. cbn [exprKind getExprLoc negb].
  split.
  - intros Hle. destruct (Z.leb_spec (sigma p) 0); [|lia].
    cbn [plain fst snd map ciKind]. split; [reflexivity|exact Hexp].
  - intros Hpos Hnp. destruct (Z.leb_spec (sigma p) 0); [lia|].
    rewrite (not_PowerOfTwo_isPowerOf2 _ Hpos Hnp).
    cbn [plain fst snd map ciKind negb]. split; [reflexivity|exact Hexp].
Qed.

Lemma rejected_num_simd :
  sigma p <= 0 ->
  RejectedWhenInstantiated
    (plain (AddSYCLIntelNumSimdWorkItemsAttr S D
              (mkCI loc AT_SYCLIntelNumSimdWorkItems) Dep))
    (Plain (Diag l err_attribute_requires_positive_integer
                 [ArgAttr AT_SYCLIntelNumSimdWorkItems; ArgSelect 0])).
Proof.
  intros Hle. unfold RejectedWhenInstantiated.
  change (AddSYCLIntelNumSimdWorkItemsAttr S D
            (mkCI loc AT_SYCLIntelNumSimdWorkItems) Dep)
    with (addAttr (mkAttr loc false (SYCLIntelNumSimdWorkItemsAttr Dep)) D,
          @nil Diagnostic).
  cbn [plain fst snd map].
  rewrite on_instantiated_single by trivial.
  change (revalidate S sigma
            (mkAttr loc false (SYCLIntelNumSimdWorkItemsAttr Dep)) D)
    with (plain (AddSYCLIntelNumSimdWorkItemsAttr S D
                   (mkCI loc AT_SYCLIntelNumSimdWorkItems) Lit)).
  unfold AddSYCLIntelNumSimdWorkItemsAttr, Lit, isValueDependent,
    VerifyIntegerConstantExpression. cbn [exprKind getExprLoc negb].
  destruct (Z.leb_spec (sigma p) 0); [|lia].
  split; reflexivity.
Qed.

Lemma rejected_max_global_work_dim :
  sigma p < 0 \/ 3 < sigma p ->
  RejectedWhenInstantiated
    (AddSYCLIntelMaxGlobalWorkDimAttr D
       (mkCI loc AT_SYCLIntelMaxGlobalWorkDim) Dep)
    (err_attribute_argument_out_of_range l AT_SYCLIntelMaxGlobalWorkDim 0 3).
Proof.
  intros Hout. unfold RejectedWhenInstantiated.
  change (AddSYCLIntelMaxGlobalWorkDimAttr D
            (mkCI loc AT_SYCLIntelMaxGlobalWorkDim) Dep)
    with (addAttr (mkAttr loc false (SYCLIntelMaxGlobalWorkDimAttr Dep)) D,
          @nil RangeDiagnostic).
  cbn [fst snd].
  rewrite on_instantiated_single by trivial.
  change (revalidate S sigma
            (mkAttr loc false (SYCLIntelMaxGlobalWorkDimAttr Dep)) D)
    with (AddSYCLIntelMaxGlobalWorkDimAttr D
            (mkCI loc AT_SYCLIntelMaxGlobalWorkDim) Lit).
  unfold AddSYCLIntelMaxGlobalWorkDimAttr, Lit, isValueDependent,
    VerifyIntegerConstantExpression. cbn [exprKind getExprLoc negb].
  assert (H : (sigma p <? 0) || (sigma p >? 3) = true).
  { destruct Hout; [destruct (Z.ltb_spec (sigma p) 0); [reflexivity|lia]|].
    apply orb_true_iff. right. now apply Z.gtb_lt. }
  rewrite H. split; reflexivity.
Qed.

End SingleArgument.

(** *** Decorations with several arguments *)

(** Deferral of a decoration with several arguments, some of them value
    dependent: [att] is its attachment and [lit] the attachment of the same
    decoration with every argument made concrete.  When the attachment emits
    nothing (the arguments that are known are valid, and the decoration does
    not conflict with what is known of it), the decoration is stored pending,
    and instantiating the declaration emits the same diagnostics, and leaves
    the same user-written attributes, as [lit]. *)
Definition DeferredOutcome (S : Sema) (sigma : Substitution)
    (K : AttrKind) (loc : SourceLocation) (att lit : Outcome) : Prop :=
  snd att = [] ->
  (exists A, In A (attrs (fst att)) /\ getLoc A = loc /\ isImplicit A = false /\
             kindOf (attrData A) = K /\ isPending A = true) /\
  snd (on_instantiated S sigma (fst att)) = map Plain (snd lit) /\
  explicitAttrs (fst (on_instantiated S sigma (fst att))) =
  explicitAttrs (fst lit).

Lemma CheckAndConvertArg_cases CI X :
  (exists ds, CheckAndConvertArg CI X = (None, ds) /\ ds <> []) \/
  (exists XC, CheckAndConvertArg CI X = (Some XC, []) /\
              isValueDependent XC = isValueDependent X /\
              getExprLoc XC = getExprLoc X /\
              forall sigma,
                CheckAndConvertArg CI (substExpr sigma XC) =
                CheckAndConvertArg CI (substExpr sigma X)).
Proof.
  destruct X as [loc [p|v|v|]].
  - right. exists (mkExpr loc (ValueDependent p)). repeat split.
  - destruct (v <=? 0) eqn:Hv.
    + left. eexists. unfold CheckAndConvertArg; simpl. rewrite Hv.
      split; [reflexivity|discriminate].
    + right. exists (mkExpr loc (ConstantExpr v)).
      unfold CheckAndConvertArg, substExpr; simpl. rewrite Hv. repeat split.
  - destruct (v <=? 0) eqn:Hv.
    + left. eexists. unfold CheckAndConvertArg; simpl. rewrite Hv.
      split; [reflexivity|discriminate].
    + right. exists (mkExpr loc (ConstantExpr v)).
      unfold CheckAndConvertArg, substExpr; simpl. rewrite Hv. repeat split.
  - left. eexists. unfold CheckAndConvertArg; simpl.
    split; [reflexivity|discriminate].
Qed.

Lemma CheckAndConvertOptArg_cases CI Y :
  (exists ds, CheckAndConvertOptArg CI Y = (None, ds) /\ ds <> []) \/
  (exists YC, CheckAndConvertOptArg CI Y = (Some YC, []) /\
              isDependentOpt YC = isDependentOpt Y /\
              forall sigma,
                CheckAndConvertOptArg CI (option_map (substExpr sigma) YC) =
                CheckAndConvertOptArg CI (option_map (substExpr sigma) Y)).
Proof.
  destruct Y as [Y|]; [|right; exists None; repeat split].
  unfold CheckAndConvertOptArg.
  destruct (CheckAndConvertArg_cases CI Y)
    as [[ds [H Hds]]|[YC [H [Hdep [_ Hsub]]]]]; rewrite H.
  - left. now exists ds.
  - right. exists (Some YC). split; [reflexivity|]. split; [exact Hdep|].
    intros sigma. cbn [option_map]. now rewrite Hsub.
Qed.

Lemma app_nil_3 {A} (a b c : list A) :
  a ++ b ++ c = [] -> a = [] /\ b = [] /\ c = [].
Proof.
  intros H. apply app_eq_nil in H. destruct H as [Ha H].
  apply app_eq_nil in H. tauto.
Qed.

Lemma AllWorkGroupSizesSame_dependent X Y Z EX EY EZ :
  isValueDependent X || isDependentOpt Y || isDependentOpt Z = true ->
  AllWorkGroupSizesSame (Some X) Y Z (Some EX) EY EZ = false.
Proof.
  intros H. unfold AllWorkGroupSizesSame, AreArgValuesIdentical.
  destruct (isValueDependent X) eqn:HX.
  - rewrite (dependent_not_constant X HX). reflexivity.
  - destruct Y as [Y|]; [destruct (isValueDependent Y) eqn:HY|].
    + rewrite (dependent_not_constant Y HY).
      destruct EY; simpl; now rewrite ?andb_false_r.
    + simpl in H. rewrite HY in H. simpl in H.
      destruct Z as [Z|]; [|discriminate]. simpl in H.
      rewrite (dependent_not_constant Z H).
      destruct EZ; simpl; now rewrite ?andb_false_r.
    + simpl in H. destruct Z as [Z|]; [|discriminate]. simpl in H.
      rewrite (dependent_not_constant Z H).
      destruct EZ; simpl; now rewrite ?andb_false_r.
Qed.

(** A [max_work_group_size] with a value-dependent size that is attached
    without a diagnostic is appended as it is, its known sizes converted. *)
Lemma max_work_group_size_pending S D CI X Y Z :
  isValueDependent X || isValueDependent Y || isValueDependent Z = true ->
  snd (AddSYCLIntelMaxWorkGroupSizeAttr S D CI X Y Z) = [] ->
  exists XC YC ZC,
    AddSYCLIntelMaxWorkGroupSizeAttr S D CI X Y Z =
      (addAttr (mkAttr (ciLoc CI) false
                  (SYCLIntelMaxWorkGroupSizeAttr XC YC ZC)) D, []) /\
    isValueDependent XC || isValueDependent YC || isValueDependent ZC = true /\
    forall sigma,
      AddSYCLIntelMaxWorkGroupSizeAttr S D CI (substExpr sigma XC)
        (substExpr sigma YC) (substExpr sigma ZC) =
      AddSYCLIntelMaxWorkGroupSizeAttr S D CI (substExpr sigma X)
        (substExpr sigma Y) (substExpr sigma Z).
Proof.
  intros Hdep Hnil.
  destruct (CheckAndConvertArg_cases CI X)
    as [[dsX [HX HdX]]|[XC [HX [HXd [_ HXs]]]]];
  destruct (CheckAndConvertArg_cases CI Y)
    as [[dsY [HY HdY]]|[YC [HY [HYd [_ HYs]]]]];
  destruct (CheckAndConvertArg_cases CI Z)
    as [[dsZ [HZ HdZ]]|[ZC [HZ [HZd [_ HZs]]]]];
    unfold AddSYCLIntelMaxWorkGroupSizeAttr in Hnil |- *;
    rewrite HX, HY, HZ in Hnil |- *; cbn [snd] in Hnil;
    try (apply app_nil_3 in Hnil; destruct Hnil as [? [? ?]]; congruence).
  exists XC, YC, ZC.
  assert (Hdep' : isValueDependent XC || isValueDependent YC ||
                  isValueDependent ZC = true) by (now rewrite HXd, HYd, HZd).
  split; [|split; [exact Hdep'|]].
  - assert (Hinv : forall MG,
               InvalidWorkGroupSizeAttrs MG XC (Some YC) (Some ZC) = false).
    { intros MG.
      exact (proj1 (cross_checks_wait S MG XC (Some YC) (Some ZC) XC XC XC
                      Hdep')). }
    revert Hnil.
    destruct (getAttr AT_SYCLReqdWorkGroupSize D) as [RA|];
      [destruct (getReqdDims RA) as [[[RX RY] RZ]|];
       [rewrite (max_check_waits S RX RY RZ XC YC ZC Hdep')|]|];
      (destruct (getAttr AT_SYCLIntelMaxGlobalWorkDim D) as [MA|];
       [destruct (getValue MA) as [MG|]; [rewrite (Hinv MG)|]|]);
      (destruct (getAttr AT_SYCLIntelMaxWorkGroupSize D) as [Ex|];
       [destruct (getMaxDims Ex) as [[[EX EY] EZ]|];
        [rewrite (AllWorkGroupSizesSame_dependent XC (Some YC) (Some ZC)
                    EX (Some EY) (Some EZ) Hdep');
         destruct (AnyWorkGroupSizesDiffer _ _ _ _ _ _)|]|]);
      cbn [snd]; intros Hnil; try discriminate Hnil; reflexivity.
  - intros sigma. unfold AddSYCLIntelMaxWorkGroupSizeAttr.
    now rewrite HXs, HYs, HZs.
Qed.

(** The same for [reqd_work_group_size]. *)
Lemma reqd_work_group_size_pending S D CI X Y Z :
  isValueDependent X || isDependentOpt Y || isDependentOpt Z = true ->
  snd (AddSYCLReqdWorkGroupSizeAttr S D CI X Y Z) = [] ->
  exists XC YC ZC,
    AddSYCLReqdWorkGroupSizeAttr S D CI X Y Z =
      (addAttr (mkAttr (ciLoc CI) false
                  (SYCLReqdWorkGroupSizeAttr XC YC ZC)) D, []) /\
    isValueDependent XC || isDependentOpt YC || isDependentOpt ZC = true /\
    forall sigma,
      AddSYCLReqdWorkGroupSizeAttr S D CI (substExpr sigma XC)
        (option_map (substExpr sigma) YC) (option_map (substExpr sigma) ZC) =
      AddSYCLReqdWorkGroupSizeAttr S D CI (substExpr sigma X)
        (option_map (substExpr sigma) Y) (option_map (substExpr sigma) Z).
Proof.
  intros Hdep Hnil.
  destruct (CheckAndConvertArg_cases CI X)
    as [[dsX [HX HdX]]|[XC [HX [HXd [_ HXs]]]]];
  destruct (CheckAndConvertOptArg_cases CI Y)
    as [[dsY [HY HdY]]|[YC [HY [HYd HYs]]]];
  destruct (CheckAndConvertOptArg_cases CI Z)
    as [[dsZ [HZ HdZ]]|[ZC [HZ [HZd HZs]]]];
    unfold AddSYCLReqdWorkGroupSizeAttr in Hnil |- *;
    rewrite HX, HY, HZ in Hnil |- *; cbn [snd] in Hnil;
    try (apply app_nil_3 in Hnil; destruct Hnil as [? [? ?]]; congruence).
  exists XC, YC, ZC.
  assert (Hdep' : isValueDependent XC || isDependentOpt YC ||
                  isDependentOpt ZC = true) by (now rewrite HXd, HYd, HZd).
  split; [|split; [exact Hdep'|]].
  - assert (Hwait : forall Other MX MY MZ,
               InvalidWorkGroupSizeAttrs Other XC YC ZC = false /\
               CheckMaxAllowedWorkGroupSize S XC YC ZC MX MY MZ = false /\
               CheckWorkGroupSize Other XC YC ZC = false).
    { intros. now apply cross_checks_wait. }
    revert Hnil.
    destruct (getAttr AT_SYCLIntelMaxGlobalWorkDim D) as [MA|];
      [destruct (getValue MA) as [MG|];
       [rewrite (proj1 (Hwait MG XC XC XC))|]|];
      (destruct (getAttr AT_SYCLIntelMaxWorkGroupSize D) as [XA|];
       [destruct (getMaxDims XA) as [[[MX MY] MZ]|];
        [rewrite (proj1 (proj2 (Hwait XC MX MY MZ)))|]|]);
      (destruct (getAttr AT_SYCLIntelNumSimdWorkItems D) as [NA|];
       [destruct (getValue NA) as [NS|];
        [rewrite (proj2 (proj2 (Hwait NS XC XC XC)))|]|]);
      (destruct (getAttr AT_SYCLReqdWorkGroupSize D) as [Ex|];
       [destruct (getReqdDims Ex) as [[[EX EY] EZ]|];
        [rewrite (AllWorkGroupSizesSame_dependent XC YC ZC EX EY EZ Hdep');
         destruct (AnyWorkGroupSizesDiffer _ _ _ _ _ _)|]|]);
      cbn [snd app]; intros Hnil; try discriminate Hnil; reflexivity.
  - intros sigma. unfold AddSYCLReqdWorkGroupSizeAttr.
    now rewrite HXs, HYs, HZs.
Qed.

Section SeveralArguments.
Variables (S : Sema) (sigma : Substitution) (D : Decl) (loc : SourceLocation).
Hypothesis Hres : Resolved D.

Lemma deferred_max_work_group_size X Y Z :
  isValueDependent X || isValueDependent Y || isValueDependent Z = true ->
  let CI := mkCI loc AT_SYCLIntelMaxWorkGroupSize in
  DeferredOutcome S sigma AT_SYCLIntelMaxWorkGroupSize loc
    (AddSYCLIntelMaxWorkGroupSizeAttr S D CI X Y Z)
    (AddSYCLIntelMaxWorkGroupSizeAttr S D CI (substExpr sigma X)
       (substExpr sigma Y) (substExpr sigma Z)).
Proof.
  intros Hdep CI Hnil.
  destruct (max_work_group_size_pending S D CI X Y Z Hdep Hnil)
    as [XC [YC [ZC [Hatt [Hdep' Hsub]]]]].
  rewrite Hatt. cbn [fst snd].
  split.
  { eexists. split; [apply In_addAttr_new|]. repeat split. exact Hdep'. }
  rewrite on_instantiated_single; [|exact Hres|exact Hdep'].
  unfold revalidate. cbn [attrData getLoc kindOf]. fold CI.
  rewrite Hsub. split; reflexivity.
Qed.

Lemma deferred_reqd_work_group_size X Y Z :
  isValueDependent X || isDependentOpt Y || isDependentOpt Z = true ->
  let CI := mkCI loc AT_SYCLReqdWorkGroupSize in
  DeferredOutcome S sigma AT_SYCLReqdWorkGroupSize loc
    (AddSYCLReqdWorkGroupSizeAttr S D CI X Y Z)
    (AddSYCLReqdWorkGroupSizeAttr S D CI (substExpr sigma X)
       (option_map (substExpr sigma) Y) (option_map (substExpr sigma) Z)).
Proof.
  intros Hdep CI Hnil.
  destruct (reqd_work_group_size_pending S D CI X Y Z Hdep Hnil)
    as [XC [YC [ZC [Hatt [Hdep' Hsub]]]]].
  assert (Hpend : isPending (mkAttr loc false
                               (SYCLReqdWorkGroupSizeAttr XC YC ZC)) = true).
  { unfold isPending; simpl. unfold isDependentOpt in Hdep'.
    destruct YC, ZC; exact Hdep'. }
  rewrite Hatt. cbn [fst snd].
  split.
  { eexists. split; [apply In_addAttr_new|]. repeat split. exact Hpend. }
  rewrite on_instantiated_single; [|exact Hres|exact Hpend].
  unfold revalidate. cbn [attrData getLoc kindOf]. fold CI.
  rewrite Hsub. split; reflexivity.
Qed.

End SeveralArguments.

Lemma CheckAndConvertArg_nonpositive CI sigma E p :
  exprKind E = ValueDependent p -> sigma p <= 0 ->
  CheckAndConvertArg CI (substExpr sigma E) =
    (None, [Diag (getExprLoc E) err_attribute_requires_positive_integer
                 [ArgAttr (ciKind CI); ArgSelect 0]]).
Proof.
  intros HE Hle. unfold CheckAndConvertArg, substExpr. rewrite HE. simpl.
  destruct (Z.leb_spec (sigma p) 0); [reflexivity|lia].
Qed.

Lemma ValueDependent_isValueDependent E p :
  exprKind E = ValueDependent p -> isValueDependent E = true.
Proof. unfold isValueDependent. now intros ->. Qed.

Section RejectedSizes.
Variables (S : Sema) (sigma : Substitution) (D : Decl) (loc : SourceLocation).
Hypothesis Hres : Resolved D.

(** A value-dependent size that becomes zero or negative is diagnosed at the
    instantiation, and the decoration is gone. *)
Lemma rejected_max_work_group_size X Y Z E p :
  let CI := mkCI loc AT_SYCLIntelMaxWorkGroupSize in
  let att := AddSYCLIntelMaxWorkGroupSizeAttr S D CI X Y Z in
  snd att = [] ->
  In E [X; Y; Z] -> exprKind E = ValueDependent p -> sigma p <= 0 ->
  In (Plain (Diag (getExprLoc E) err_attribute_requires_positive_integer
                  [ArgAttr AT_SYCLIntelMaxWorkGroupSize; ArgSelect 0]))
     (snd (on_instantiated S sigma (fst att))) /\
  fst (on_instantiated S sigma (fst att)) = D.
Proof.
  intros CI att Hnil HIn HE Hle. subst att.
  pose proof (ValueDependent_isValueDependent E p HE) as HdE.
  assert (Hdep : isValueDependent X || isValueDependent Y ||
                 isValueDependent Z = true).
  { destruct HIn as [<-|[<-|[<-|[]]]]; rewrite HdE;
      now rewrite ?orb_true_r. }
  destruct (max_work_group_size_pending S D CI X Y Z Hdep Hnil)
    as [XC [YC [ZC [Hatt [Hdep' Hsub]]]]].
  rewrite Hatt. cbn [fst snd].
  rewrite on_instantiated_single; [|exact Hres|exact Hdep'].
  unfold revalidate. cbn [attrData getLoc kindOf]. fold CI.
  rewrite Hsub. unfold AddSYCLIntelMaxWorkGroupSizeAttr.
  pose proof (CheckAndConvertArg_nonpositive CI sigma E p HE Hle) as Hbad.
  destruct HIn as [<-|[<-|[<-|[]]]]; rewrite Hbad;
    repeat match goal with
           | |- context [CheckAndConvertArg CI (substExpr sigma ?A)] =>
               destruct (CheckAndConvertArg CI (substExpr sigma A)) as [[?|] ?]
           end;
    cbn [plain fst snd]; (split; [|reflexivity]);
    rewrite ?map_app, ?in_app_iff; simpl; tauto.
Qed.

Lemma rejected_reqd_work_group_size X Y Z E p :
  let CI := mkCI loc AT_SYCLReqdWorkGroupSize in
  let att := AddSYCLReqdWorkGroupSizeAttr S D CI X Y Z in
  snd att = [] ->
  In (Some E) [Some X; Y; Z] -> exprKind E = ValueDependent p ->
  sigma p <= 0 ->
  In (Plain (Diag (getExprLoc E) err_attribute_requires_positive_integer
                  [ArgAttr AT_SYCLReqdWorkGroupSize; ArgSelect 0]))
     (snd (on_instantiated S sigma (fst att))) /\
  fst (on_instantiated S sigma (fst att)) = D.
Proof.
  intros CI att Hnil HIn HE Hle. subst att.
  pose proof (ValueDependent_isValueDependent E p HE) as HdE.
  assert (Hdep : isValueDependent X || isDependentOpt Y ||
                 isDependentOpt Z = true).
  { destruct HIn as [H|[->|[->|[]]]]; [inversion H; subst| |]; simpl;
      rewrite HdE; now rewrite ?orb_true_r. }
  destruct (reqd_work_group_size_pending S D CI X Y Z Hdep Hnil)
    as [XC [YC [ZC [Hatt [Hdep' Hsub]]]]].
  assert (Hpend : isPending (mkAttr loc false
                               (SYCLReqdWorkGroupSizeAttr XC YC ZC)) = true).
  { unfold isPending; simpl. unfold isDependentOpt in Hdep'.
    destruct YC, ZC; exact Hdep'. }
  rewrite Hatt. cbn [fst snd].
  rewrite on_instantiated_single; [|exact Hres|exact Hpend].
  unfold revalidate. cbn [attrData getLoc kindOf]. fold CI.
  rewrite Hsub. unfold AddSYCLReqdWorkGroupSizeAttr.
  pose proof (CheckAndConvertArg_nonpositive CI sigma E p HE Hle) as Hbad.
  assert (Hgoal : forall o : Outcome,
             fst o = D ->
             In (Diag (getExprLoc E) err_attribute_requires_positive_integer
                      [ArgAttr AT_SYCLReqdWorkGroupSize; ArgSelect 0]) (snd o) ->
             In (Plain (Diag (getExprLoc E)
                             err_attribute_requires_positive_integer
                             [ArgAttr AT_SYCLReqdWorkGroupSize; ArgSelect 0]))
                (snd (plain o)) /\ fst (plain o) = D).
  { intros o Ho HIno. split; [|exact Ho]. unfold plain; cbn [snd].
    now apply in_map. }
  destruct HIn as [H|[->|[->|[]]]]; [inversion H; subst| |];
    apply Hgoal;
    try destruct Y as [Y0|]; try destruct Z as [Z0|];
    cbn [option_map]; unfold CheckAndConvertOptArg;
    rewrite ?Hbad;
    repeat match goal with
           | |- context [CheckAndConvertArg CI (substExpr sigma ?A)] =>
               destruct (CheckAndConvertArg CI (substExpr sigma A)) as [[?|] ?]
           end;
    cbn [fst snd]; try reflexivity;
    rewrite ?in_app_iff; simpl; tauto.
Qed.

End RejectedSizes.

(** *** [bank_bits] with value-dependent arguments *)

(** The declaration [bank_bits] attaches to: with the [numbanks] it
    synthesizes when there is none. *)
Definition bitsBase (D : Decl) (n : nat) : Decl :=
  match getAttr AT_SYCLIntelNumBanks D with
  | Some _ => D
  | None => addAttr (ImplicitNumBanks n) D
  end.

Lemma explicitAttrs_bitsBase D n : explicitAttrs (bitsBase D n) = explicitAttrs D.
Proof.
  unfold bitsBase. destruct (getAttr _ D); [reflexivity|].
  rewrite explicitAttrs_addAttr. apply app_nil_r.
Qed.

Lemma Resolved_bitsBase D n : Resolved D -> Resolved (bitsBase D n).
Proof.
  intros H. unfold bitsBase. destruct (getAttr _ D); [exact H|].
  now apply Resolved_addAttr.
Qed.

Lemma substExpr_constant sigma E v :
  substExpr sigma (mkExpr (getExprLoc E) (ConstantExpr v)) =
  mkExpr (getExprLoc E) (ConstantExpr v).
Proof. reflexivity. Qed.

Lemma substExpr_independent sigma E :
  isValueDependent E = false -> substExpr sigma E = E.
Proof.
  unfold isValueDependent, substExpr. destruct E as [l k]; simpl.
  destruct k; intros H; try reflexivity; discriminate.
Qed.

(** The arguments kept by a pending [bank_bits] stand for the ones written:
    converting either list after the substitution gives the same. *)
Lemma convertBankBitsArgs_subst CI sigma Exprs :
  forall Args Values dep,
  convertBankBitsArgs CI Exprs = inr (Args, Values, dep) ->
  convertBankBitsArgs CI (map (substExpr sigma) Args) =
  convertBankBitsArgs CI (map (substExpr sigma) Exprs) /\
  length Args = length Exprs /\
  dep = existsb isValueDependent Exprs /\
  existsb isValueDependent Args = existsb isValueDependent Exprs.
Proof.
  induction Exprs as [|E rest IH]; intros Args Values dep Hc.
  - inversion Hc; subst. repeat split.
  - simpl in Hc. destruct (isValueDependent E) eqn:HdE; simpl in Hc.
    + destruct (convertBankBitsArgs CI rest) as [ds|[[A V] dp]];
        [discriminate|]. inversion Hc; subst; clear Hc.
      destruct (IH A V dp eq_refl) as [Hsub [Hlen [_ Hex]]].
      simpl. rewrite HdE. simpl. rewrite Hsub, Hlen. repeat split.
    + destruct (VerifyIntegerConstantExpression E) as [ds|[ICE v]] eqn:HV;
        [discriminate|].
      destruct (v <? 0) eqn:Hv; [discriminate|].
      destruct (convertBankBitsArgs CI rest) as [ds|[[A V] dp]];
        [discriminate|]. inversion Hc as [[HA HV' Hd]]. subst Args Values dep.
      clear Hc.
      destruct (IH A V dp eq_refl) as [Hsub [Hlen [Hdp Hex]]].
      cbn [map]. rewrite (substExpr_independent sigma E HdE).
      unfold VerifyIntegerConstantExpression in HV.
      destruct E as [lE kE]; simpl in HV.
      destruct kE; inversion HV; subst; simpl;
        unfold VerifyIntegerConstantExpression; simpl;
        rewrite Hv, Hsub, Hlen; simpl in HdE |- *;
        repeat split; assumption.
Qed.

Lemma convertBankBitsArgs_length CI Exprs Args Values dep :
  convertBankBitsArgs CI Exprs = inr (Args, Values, dep) ->
  length Args = length Exprs.
Proof.
  intros Hc.
  exact (proj1 (proj2 (convertBankBitsArgs_subst CI (fun _ => 0) Exprs
                         Args Values dep Hc))).
Qed.

(** A value-dependent [bank_bits] that is accepted is attached as it is. *)
Lemma bank_bits_pending S D CI Exprs :
  existsb isValueDependent Exprs = true ->
  snd (AddSYCLIntelBankBitsAttr S D CI Exprs) = [] ->
  exists Args,
    AddSYCLIntelBankBitsAttr S D CI Exprs =
      (addAttr (mkAttr (ciLoc CI) false (SYCLIntelBankBitsAttr Args))
               (addImplicitMemory (bitsBase D (length Exprs))), []) /\
    existsb isValueDependent Args = true /\
    forall sigma,
      convertBankBitsArgs CI (map (substExpr sigma) Args) =
      convertBankBitsArgs CI (map (substExpr sigma) Exprs).
Proof.
  intros Hdep Hnil. unfold AddSYCLIntelBankBitsAttr in *.
  destruct (convertBankBitsArgs CI Exprs) as [ds|[[Args Values] dp]] eqn:HC.
  - exfalso. simpl in Hnil. subst ds.
    clear Hdep. revert HC. induction Exprs as [|E rest IH]; simpl;
      [discriminate|].
    destruct (negb (isValueDependent E)).
    + unfold VerifyIntegerConstantExpression.
      destruct (exprKind E); try discriminate;
        (destruct (_ <? 0); [discriminate|]);
        destruct (convertBankBitsArgs CI rest) as [ds|[[? ?] ?]];
        try discriminate; intros H; inversion H; subst; now apply IH.
    + destruct (convertBankBitsArgs CI rest) as [ds|[[? ?] ?]];
        try discriminate; intros H; inversion H; subst; now apply IH.
  - exists Args.
    pose proof (convertBankBitsArgs_subst CI) as Hsub.
    destruct (Hsub (fun _ => 0) Exprs Args Values dp HC)
      as [_ [Hlen [Hdp Hex]]].
    rewrite Hdep in Hdp, Hex. subst dp. cbn [negb andb] in *.
    split; [|split; [exact Hex|
             intros sigma; exact (proj1 (Hsub sigma Exprs Args Values true HC))]].
    unfold bitsBase, ImplicitNumBanks. rewrite <- Hlen.
    destruct (getAttr AT_SYCLIntelNumBanks D) as [NBA|];
      [destruct (getValue NBA) as [E|];
         [destruct (negb (isValueDependent E));
            [destruct (EvaluateAsInt E) as [v|];
               [destruct (negb (_ =? _)); [discriminate|]|]|]|]|];
      destruct (SYCLIsDevice S && _); try discriminate; reflexivity.
Qed.

Lemma ceilLogBase2_implicitNumBanksValue (n : nat) :
  (n < 32)%nat -> ceilLogBase2 (implicitNumBanksValue n) = Z.of_nat n.
Proof.
  intros Hn. rewrite (implicitNumBanksValue_small n Hn).
  rewrite ceilLogBase2_log2_up by (apply Z.pow_pos_nonneg; lia).
  apply Z.log2_up_pow2. lia.
Qed.

(** At the instantiation the validation runs on the declaration the pending
    [bank_bits] was taken from, which holds the implicit memory and the
    synthesized [numbanks]: it decides as on the declaration itself. *)
Lemma bank_bits_instantiated S D CI Exprs :
  (length Exprs < 32)%nat ->
  let Q := addImplicitMemory (bitsBase D (length Exprs)) in
  snd (AddSYCLIntelBankBitsAttr S Q CI Exprs) =
  snd (AddSYCLIntelBankBitsAttr S D CI Exprs) /\
  explicitAttrs (fst (AddSYCLIntelBankBitsAttr S Q CI Exprs)) =
  explicitAttrs (fst (AddSYCLIntelBankBitsAttr S D CI Exprs)).
Proof.
  intros Hn Q.
  assert (HQ : explicitAttrs Q = explicitAttrs D).
  { unfold Q. now rewrite explicitAttrs_addImplicitMemory,
                explicitAttrs_bitsBase. }
  assert (HCV : CheckValidFPGAMemoryAttributesVar Q =
                CheckValidFPGAMemoryAttributesVar D).
  { unfold Q. rewrite CheckValid_addImplicitMemory. unfold bitsBase.
    destruct (getAttr _ D); reflexivity. }
  unfold AddSYCLIntelBankBitsAttr.
  destruct (convertBankBitsArgs CI Exprs) as [ds|[[Args Values] dp]] eqn:HC.
  - split; [reflexivity|exact HQ].
  - pose proof (convertBankBitsArgs_length CI Exprs Args Values dp HC) as Hlen.
    destruct (negb dp && _ && _); [split; [reflexivity|exact HQ]|].
    assert (HgetQ : getAttr AT_SYCLIntelNumBanks Q =
                    getAttr AT_SYCLIntelNumBanks (bitsBase D (length Exprs))).
    { unfold Q. apply getAttr_addImplicitMemory. discriminate. }
    rewrite HgetQ, HCV. unfold bitsBase.
    destruct (getAttr AT_SYCLIntelNumBanks D) as [NBA|] eqn:Hget.
    + rewrite Hget.
      destruct (getValue NBA) as [E|];
        [destruct (negb (isValueDependent E));
           [destruct (EvaluateAsInt E) as [v|];
              [destruct (negb (_ =? _)); [split; [reflexivity|exact HQ]|]|]|]|];
        destruct (SYCLIsDevice S && _); cbn [fst snd];
        (split; [reflexivity|]);
        rewrite ?explicitAttrs_addAttr, ?explicitAttrs_addImplicitMemory, ?HQ;
        reflexivity.
    + rewrite (getAttr_attached AT_SYCLIntelNumBanks (ImplicitNumBanks _) D
                 eq_refl Hget).
      change (getValue (ImplicitNumBanks (length Exprs)))
        with (Some (mkExpr 0%nat
                      (IntegerLiteral (implicitNumBanksValue (length Exprs))))).
      cbv beta iota.
      change (isValueDependent
                (mkExpr 0%nat
                   (IntegerLiteral (implicitNumBanksValue (length Exprs)))))
        with false.
      change (EvaluateAsInt
                (mkExpr 0%nat
                   (IntegerLiteral (implicitNumBanksValue (length Exprs)))))
        with (Some (implicitNumBanksValue (length Exprs))).
      cbv beta iota.
      rewrite (ceilLogBase2_implicitNumBanksValue _ Hn), Hlen, Z.eqb_refl.
      cbn [negb].
      destruct (SYCLIsDevice S && _); cbn [fst snd];
        (split; [reflexivity|]);
        repeat (rewrite ?explicitAttrs_addAttr,
                        ?explicitAttrs_addImplicitMemory, ?HQ;
                cbn [isImplicit]; rewrite ?app_nil_r);
        reflexivity.
Qed.

Section SeveralBankBits.
Variables (S : Sema) (sigma : Substitution) (D : Decl) (loc : SourceLocation).
Hypothesis Hres : Resolved D.

Lemma deferred_bank_bits Exprs :
  let CI := mkCI loc AT_SYCLIntelBankBits in
  existsb isValueDependent Exprs = true ->
  (length Exprs < 32)%nat ->
  DeferredOutcome S sigma AT_SYCLIntelBankBits loc
    (AddSYCLIntelBankBitsAttr S D CI Exprs)
    (AddSYCLIntelBankBitsAttr S D CI (map (substExpr sigma) Exprs)).
Proof.
  intros CI Hdep Hn Hnil.
  destruct (bank_bits_pending S D CI Exprs Hdep Hnil)
    as [Args [Hatt [Hdep' Hsub]]].
  rewrite Hatt. cbn [fst snd].
  split.
  { eexists. split; [apply In_addAttr_new|]. repeat split. exact Hdep'. }
  rewrite on_instantiated_single;
    [|apply Resolved_addImplicitMemory, Resolved_bitsBase, Hres|exact Hdep'].
  unfold revalidate. cbn [attrData getLoc kindOf ciLoc]. fold CI.
  assert (Heq : forall Q,
            AddSYCLIntelBankBitsAttr S Q CI (map (substExpr sigma) Args) =
            AddSYCLIntelBankBitsAttr S Q CI (map (substExpr sigma) Exprs)).
  { intros Q. unfold AddSYCLIntelBankBitsAttr. now rewrite Hsub. }
  rewrite Heq.
  assert (Hn' : (length (map (substExpr sigma) Exprs) < 32)%nat)
    by now rewrite length_map.
  pose proof (bank_bits_instantiated S D CI (map (substExpr sigma) Exprs) Hn')
    as Hinst.
  rewrite length_map in Hinst. cbv zeta in Hinst.
  destruct Hinst as [Hs He]. unfold plain. cbn [fst snd].
  now rewrite Hs, He.
Qed.

Lemma convertBankBitsArgs_rejects CI Exprs E p :
  (exists r, convertBankBitsArgs CI Exprs = inr r) ->
  In E Exprs -> exprKind E = ValueDependent p -> sigma p < 0 ->
  exists d, convertBankBitsArgs CI (map (substExpr sigma) Exprs) = inl [d] /\
            diagID d = err_attribute_requires_positive_integer.
Proof.
  intros Hok HIn HE Hneg.
  induction Exprs as [|E0 rest IH]; [destruct HIn|].
  assert (Hrest : exists r, convertBankBitsArgs CI rest = inr r).
  { destruct Hok as [r Hr]. simpl in Hr.
    destruct (negb (isValueDependent E0));
      [destruct (VerifyIntegerConstantExpression E0) as [?|[? v]];
         [discriminate|]; destruct (v <? 0); [discriminate|]|];
      destruct (convertBankBitsArgs CI rest) as [?|r']; try discriminate;
      now exists r'. }
  destruct (isValueDependent E0) eqn:Hd0.
  - unfold isValueDependent in Hd0.
    destruct E0 as [l0 k0]; simpl in Hd0; destruct k0 as [q|v|v|];
      try discriminate.
    simpl. unfold VerifyIntegerConstantExpression. simpl.
    destruct (Z.ltb_spec (sigma q) 0) as [Hlt|Hge].
    + eexists; split; reflexivity.
    + destruct HIn as [Heq|HIn].
      * subst E. simpl in HE. inversion HE; subst. lia.
      * destruct (IH Hrest HIn) as [d [Hd Hid]]. rewrite Hd.
        exists d. now split.
  - destruct HIn as [Heq|HIn].
    { subst E. unfold isValueDependent in Hd0. rewrite HE in Hd0.
      discriminate. }
    destruct Hok as [r Hr]. simpl in Hr. rewrite Hd0 in Hr. simpl in Hr.
    cbn [map]. rewrite (substExpr_independent sigma E0 Hd0).
    simpl. rewrite Hd0. simpl.
    destruct (VerifyIntegerConstantExpression E0) as [?|[ICE v]];
      [discriminate|]. destruct (v <? 0); [discriminate|].
    destruct (IH Hrest HIn) as [d [Hd Hid]]. rewrite Hd.
    exists d. now split.
Qed.

(** A value-dependent bank bit that becomes negative is diagnosed at the
    instantiation, and the decoration is gone. *)
Lemma rejected_bank_bits Exprs E p :
  let CI := mkCI loc AT_SYCLIntelBankBits in
  let att := AddSYCLIntelBankBitsAttr S D CI Exprs in
  snd att = [] ->
  In E Exprs -> exprKind E = ValueDependent p -> sigma p < 0 ->
  exists d,
    snd (on_instantiated S sigma (fst att)) = [Plain d] /\
    diagID d = err_attribute_requires_positive_integer /\
    explicitAttrs (fst (on_instantiated S sigma (fst att))) = explicitAttrs D.
Proof.
  intros CI att Hnil HIn HE Hneg. subst att.
  assert (Hdep : existsb isValueDependent Exprs = true).
  { apply existsb_exists. exists E. split; [exact HIn|].
    now apply (ValueDependent_isValueDependent E p). }
  destruct (bank_bits_pending S D CI Exprs Hdep Hnil)
    as [Args [Hatt [Hdep' Hsub]]].
  assert (Hok : exists r, convertBankBitsArgs CI Exprs = inr r).
  { unfold AddSYCLIntelBankBitsAttr in Hatt.
    destruct (convertBankBitsArgs CI Exprs) as [ds|r]; [|now exists r].
    inversion Hatt as [[HD Hds]]. exfalso.
    assert (Hlen : length (attrs D) =
                   length (attrs (addAttr
                      (mkAttr (ciLoc CI) false (SYCLIntelBankBitsAttr Args))
                      (addImplicitMemory (bitsBase D (length Exprs))))))
      by exact (f_equal (fun X => length (attrs X)) HD).
    unfold addAttr, addImplicitMemory, bitsBase in Hlen; simpl in Hlen.
    destruct (getAttr _ D); destruct (hasAttr _ _); simpl in Hlen;
      rewrite ?length_app in Hlen; simpl in Hlen; lia. }
  destruct (convertBankBitsArgs_rejects CI Exprs E p Hok HIn HE Hneg)
    as [d [Hd Hid]].
  exists d. rewrite Hatt. cbn [fst snd].
  rewrite on_instantiated_single;
    [|apply Resolved_addImplicitMemory, Resolved_bitsBase, Hres|exact Hdep'].
  unfold revalidate. cbn [attrData getLoc kindOf ciLoc]. fold CI.
  unfold AddSYCLIntelBankBitsAttr. rewrite Hsub, Hd. unfold plain.
  cbn [fst snd map]. repeat split; [exact Hid|].
  now rewrite explicitAttrs_addImplicitMemory, explicitAttrs_bitsBase.
Qed.

End SeveralBankBits.

(** A value-dependent [bankwidth] that becomes a power of two is attached
    at the instantiation, with the value as a constant. *)
Lemma accepted_bank_width S sigma D loc l p :
  Resolved D ->
  PowerOfTwo (sigma p) -> Eligible S D ->
  getAttr AT_SYCLIntelBankWidth D = None ->
  let att := AddSYCLIntelBankWidthAttr S D (mkCI loc AT_SYCLIntelBankWidth)
               (mkExpr l (ValueDependent p)) in
  snd (on_instantiated S sigma (fst att)) = [] /\
  explicitAttrs (fst (on_instantiated S sigma (fst att))) =
  explicitAttrs D ++
  [mkAttr loc false (SYCLIntelBankWidthAttr (mkExpr l (ConstantExpr (sigma p))))].
Proof.
  intros Hres Hpow Helig Hnone att. subst att.
  pose proof (PowerOfTwo_pos _ Hpow) as Hpos.
  change (AddSYCLIntelBankWidthAttr S D (mkCI loc AT_SYCLIntelBankWidth)
            (mkExpr l (ValueDependent p)))
    with (addAttr (mkAttr loc false
                     (SYCLIntelBankWidthAttr (mkExpr l (ValueDependent p))))
                  (addImplicitMemory D), @nil Diagnostic).
  cbn [fst snd].
  rewrite on_instantiated_single
    by (try apply Resolved_addImplicitMemory; trivial).
  change (revalidate S sigma
            (mkAttr loc false
               (SYCLIntelBankWidthAttr (mkExpr l (ValueDependent p))))
            (addImplicitMemory D))
    with (plain (AddSYCLIntelBankWidthAttr S (addImplicitMemory D)
                   (mkCI loc AT_SYCLIntelBankWidth)
                   (mkExpr l (IntegerLiteral (sigma p))))).
  cbn [plain fst snd].
  destruct (AddSYCLIntelBankWidthAttr_memory S D
              (mkCI loc AT_SYCLIntelBankWidth)
              (mkExpr l (IntegerLiteral (sigma p)))) as [H1 H2].
  rewrite H1, H2. clear H1 H2.
  unfold AddSYCLIntelBankWidthAttr, isValueDependent,
    VerifyIntegerConstantExpression. cbn [exprKind getExprLoc negb ciLoc].
  destruct (Z.leb_spec (sigma p) 0) as [Hle|_]; [lia|].
  rewrite (proj2 (isPowerOf2_spec _ Hpos) Hpow). cbn [negb].
  unfold Eligible in Helig. rewrite Helig, Hnone. cbn [fst snd map].
  split; [reflexivity|].
  now rewrite explicitAttrs_addAttr, explicitAttrs_addImplicitMemory.
Qed.

Lemma definedBankBits_length Exprs :
  definedBankBits Exprs = true -> (length Exprs < 32)%nat.
Proof.
  unfold definedBankBits. intros H. apply andb_true_iff in H.
  now apply Nat.ltb_lt.
Qed.

Lemma Resolved_LocalVar : Resolved LocalVar.
Proof. constructor. Qed.



(** [bankwidth(N)] instantiated with 6 is rejected like the literal
    [bankwidth(6)], and with 8 it is accepted like [bankwidth(8)]. *)
Example deferred_bank_width_6_and_8 :
  let CI := mkCI 1%nat AT_SYCLIntelBankWidth in
  let D1 := fst (AddSYCLIntelBankWidthAttr DeviceSema LocalVar CI
                   (mkExpr 2%nat (ValueDependent 0%nat))) in
  snd (on_instantiated DeviceSema (fun _ => 6) D1) =
    [Plain (Diag 2%nat err_attribute_argument_not_power_of_two
                 [ArgAttr AT_SYCLIntelBankWidth])] /\
  snd (AddSYCLIntelBankWidthAttr DeviceSema LocalVar CI (lit 2%nat 6)) =
    [Diag 2%nat err_attribute_argument_not_power_of_two
          [ArgAttr AT_SYCLIntelBankWidth]] /\
  on_instantiated DeviceSema (fun _ => 8) D1 =
    plain (AddSYCLIntelBankWidthAttr DeviceSema LocalVar CI (lit 2%nat 8)) /\
  snd (AddSYCLIntelBankWidthAttr DeviceSema LocalVar CI (lit 2%nat 8)) = [].
Proof. repeat split; reflexivity. Qed.

(** [reqd_work_group_size(N, 4, 4)] on a kernel holding
    [max_work_group_size(4, 4, 4)]: with [N = 8] the instantiation reports
    the conflict the literal [reqd_work_group_size(8, 4, 4)] reports, with
    [N = 0] the non-positive size. *)
Example deferred_reqd_work_group_size_8_and_0 :
  let CI := mkCI 5%nat AT_SYCLReqdWorkGroupSize in
  let K := addAttr (mkAttr 1%nat false
                      (SYCLIntelMaxWorkGroupSizeAttr (cst 2%nat 4) (cst 3%nat 4)
                                                     (cst 4%nat 4)))
                   KernelFunction in
  let att := AddSYCLReqdWorkGroupSizeAttr DeviceSema K CI
               (mkExpr 6%nat (ValueDependent 0%nat))
               (Some (lit 7%nat 4)) (Some (lit 8%nat 4)) in
  snd att = [] /\
  snd (on_instantiated DeviceSema (fun _ => 8) (fst att)) =
    map Plain (snd (AddSYCLReqdWorkGroupSizeAttr DeviceSema K CI (lit 6%nat 8)
                      (Some (lit 7%nat 4)) (Some (lit 8%nat 4)))) /\
  map (fun d => match d with Plain d => Some (diagID d) | _ => None end)
      (snd (on_instantiated DeviceSema (fun _ => 8) (fst att))) =
    [Some err_conflicting_sycl_function_attributes;
     Some note_conflicting_attribute] /\
  on_instantiated DeviceSema (fun _ => 0) (fst att) =
    (K, [Plain (Diag 6%nat err_attribute_requires_positive_integer
                     [ArgAttr AT_SYCLReqdWorkGroupSize; ArgSelect 0])]).
Proof. repeat split; reflexivity. Qed.
